(** * A shallow embedding of the bitstring package

    The development follows the source files of the package:
    - [PyStr]  : the operations of Python's [str] that the sources call;
    - [Utils]  : [utils.py], the format-string tokenizer;
    - [BitArray] : [bitarray_.py], the mutating methods of the bit container;
    - [Dtypes] : [dtypes.py], the registry of dtype families;
    - [PyFloat], [Fp8], [Mxfp] : [fp8.py] and [mxfp.py], the micro-float codecs.

    Python values are modelled as follows.  An [int] is a [Z].  A [str] is a
    [string] whose characters are the code points below 256.  A call that may
    raise returns a [result]; a method that mutates the container is a state
    transformer that also returns a [result], so that what has been written to
    the container before an exception is raised remains visible. *)

From Stdlib Require Import ZArith QArith Qabs Qround Lia Ascii String.
From stdpp Require Import base list gmap strings.

Open Scope string_scope.
Open Scope list_scope.
Open Scope Z_scope.

(** ** Exceptions and results *)

Inductive exn : Type :=
  | ValueError
  | IndexError
  | KeyError
  | NameError
  | TypeError
  | CreationError
  | InterpretError (msg : string).

Inductive result (A : Type) : Type :=
  | Ok (a : A)
  | Raise (e : exn).
Arguments Ok {A} a.
Arguments Raise {A} e.

#[global] Instance result_ret : MRet result := fun _ a => Ok a.
#[global] Instance result_bind : MBind result := fun _ _ f m =>
  match m with
  | Ok a => f a
  | Raise e => Raise e
  end.
#[global] Instance result_fmap : FMap result := fun _ _ f m =>
  match m with
  | Ok a => Ok (f a)
  | Raise e => Raise e
  end.

(** [l * n] for a Python list [l] and an int [n]: empty when [n <= 0]. *)
Definition py_repeat {A} (l : list A) (n : Z) : list A :=
  concat (replicate (Z.to_nat n) l).

(** ** Python strings *)

Module PyStr.

Definition code (c : ascii) : Z := Z.of_nat (nat_of_ascii c).

(** [str.isspace] on the code points below 256. *)
Definition is_space (c : ascii) : bool :=
  let n := code c in
  ((9 <=? n) && (n <=? 13)) || ((28 <=? n) && (n <=? 32))
  || (n =? 133) || (n =? 160).

Definition is_digit (c : ascii) : bool :=
  let n := code c in (48 <=? n) && (n <=? 57).

Definition is_alpha (c : ascii) : bool :=
  let n := code c in
  ((65 <=? n) && (n <=? 90)) || ((97 <=? n) && (n <=? 122)).

(** The class [[a-zA-Z0-9_]]. *)
Definition is_name_char (c : ascii) : bool :=
  is_alpha c || is_digit c || (code c =? 95).

Definition is_newline (c : ascii) : bool := code c =? 10.

Definition digit_val (c : ascii) : Z := code c - 48.

Definition eqb_char (c d : ascii) : bool := code c =? code d.

Fixpoint lstrip (s : string) : string :=
  match s with
  | String c r => if is_space c then lstrip r else s
  | EmptyString => EmptyString
  end.

Fixpoint rstrip (s : string) : string :=
  match s with
  | String c r =>
      match rstrip r with
      | EmptyString => if is_space c then EmptyString else String c EmptyString
      | r' => String c r'
      end
  | EmptyString => EmptyString
  end.

(** [s.strip()] *)
Definition strip (s : string) : string := rstrip (lstrip s).

(** [s.split(sep)] for a separator of one character. *)
Fixpoint split (sep : ascii) (s : string) : list string :=
  match s with
  | EmptyString => [EmptyString]
  | String c r =>
      if eqb_char c sep then EmptyString :: split sep r
      else match split sep r with
           | x :: xs => String c x :: xs
           | [] => [String c EmptyString]
           end
  end.

(** [sep.join(l)] *)
Fixpoint join (sep : string) (l : list string) : string :=
  match l with
  | [] => EmptyString
  | [x] => x
  | x :: xs => x +:+ sep +:+ join sep xs
  end.

(** The longest prefix of characters satisfying [p], and the rest. *)
Fixpoint span (p : ascii -> bool) (s : string) : string * string :=
  match s with
  | String c r =>
      if p c then let '(a, b) := span p r in (String c a, b)
      else (EmptyString, s)
  | EmptyString => (EmptyString, EmptyString)
  end.

Definition is_empty (s : string) : bool :=
  match s with EmptyString => true | _ => false end.

(** Every character of [s] satisfies [p]. *)
Fixpoint all_chars (p : ascii -> bool) (s : string) : bool :=
  match s with
  | String c r => p c && all_chars p r
  | EmptyString => true
  end.

(** A non-empty string of decimal digits, and the number it writes. *)
Definition is_digits (s : string) : bool :=
  negb (is_empty s) && all_chars is_digit s.

Fixpoint decimal_from (acc : Z) (s : string) : Z :=
  match s with
  | String c r => decimal_from (10 * acc + digit_val c) r
  | EmptyString => acc
  end.

Definition decimal (s : string) : Z := decimal_from 0 s.

(** The digits of an [int] literal after its first digit: digits, each
    optionally preceded by one underscore. *)
Fixpoint int_digits (acc : Z) (s : string) : option Z :=
  match s with
  | EmptyString => Some acc
  | String c r =>
      if is_digit c then int_digits (10 * acc + digit_val c) r
      else if code c =? 95 then
        match r with
        | String d r' =>
            if is_digit d then int_digits (10 * acc + digit_val d) r' else None
        | EmptyString => None
        end
      else None
  end.

Definition int_unsigned (s : string) : option Z :=
  match s with
  | String c r => if is_digit c then int_digits (digit_val c) r else None
  | EmptyString => None
  end.

(** [int(s)] for a string [s], in base 10: surrounding whitespace is dropped,
    one sign is allowed, and anything else than a decimal literal raises
    [ValueError].  (The interpreter's limit on the number of digits is not
    modelled.) *)
Definition py_int (s : string) : result Z :=
  let body := strip s in
  let r :=
    match body with
    | String c r =>
        if code c =? 45 then Z.opp <$> int_unsigned r
        else if code c =? 43 then int_unsigned r
        else int_unsigned body
    | EmptyString => None
    end in
  match r with
  | Some z => Ok z
  | None => Raise ValueError
  end.

(** [s.endswith('*')] together with [s[:-1]]: the string without its last
    character when that character is a star. *)
Fixpoint strip_final_star (s : string) : option string :=
  match s with
  | EmptyString => None
  | String c EmptyString => if code c =? 42 then Some EmptyString else None
  | String c r => String c <$> strip_final_star r
  end.

(** [s.index(c, start)]: the position of the first [c] at or after [start]. *)
Fixpoint index_from (c : ascii) (start : nat) (s : string) : option nat :=
  match s with
  | EmptyString => None
  | String d r =>
      match start with
      | O => if eqb_char d c then Some O else S <$> index_from c O r
      | S start' => S <$> index_from c start' r
      end
  end.

Fixpoint take (n : nat) (s : string) : string :=
  match n, s with
  | S n', String c r => String c (take n' r)
  | _, _ => EmptyString
  end.

Fixpoint drop (n : nat) (s : string) : string :=
  match n, s with
  | S n', String _ r => drop n' r
  | _, _ => s
  end.

End PyStr.

(** ** utils.py: the format-string tokenizer *)

Module Utils.
Import PyStr.

(** A token [(name, length, value)]. *)
Definition Token : Type := string * option Z * option string.

(** [$]: the end of the string, or just before a newline that ends it. *)
Definition at_end (s : string) : bool :=
  match s with
  | EmptyString => true
  | String c EmptyString => is_newline c
  | _ => false
  end.

Definition not_newline (c : ascii) : bool := negb (is_newline c).

(** The last star of a line that is followed by at least one character:
    the split found by the greedy factor group, a star and the non-empty
    token group of the pattern. *)
Fixpoint last_star (s : string) : option (string * string) :=
  match s with
  | EmptyString => None
  | String c r =>
      match last_star r with
      | Some (f, t) => Some (String c f, t)
      | None =>
          if (code c =? 42) && negb (is_empty r) then Some (EmptyString, r)
          else None
      end
  end.

(** [MULTIPLICATIVE_RE.match(token)], the groups [factor] and [token].
    A dot does not match a newline, so only the first line takes part. *)
Definition MULTIPLICATIVE_RE (token : string) : option (string * string) :=
  last_star (fst (span not_newline token)).

(** An optional colon, then the group of digits, then the end. *)
Definition colon_digits (s : string) : option string :=
  let s' := match s with
            | String c r => if code c =? 58 then r else s
            | EmptyString => s
            end in
  let '(ds, rest) := span is_digit s' in
  if at_end rest then Some ds else None.

(** The lazy name group: the shortest run of name characters after which
    [colon_digits] matches. *)
Fixpoint name_then_digits (name rest : string) : option (string * string) :=
  match colon_digits rest with
  | Some ds => Some (name, ds)
  | None =>
      match rest with
      | String c r =>
          if is_name_char c then name_then_digits (name +:+ String c EmptyString) r
          else None
      | EmptyString => None
      end
  end.

(** [NAME_INT_RE.match(token)], its two groups. *)
Definition NAME_INT_RE (token : string) : option (string * string) :=
  match token with
  | String c r => if is_alpha c then name_then_digits (String c EmptyString) r else None
  | EmptyString => None
  end.

(** [LITERAL_RE.match(token)], compiled with IGNORECASE; the pattern has
    three groups: the name, the letter inside the name, and the value. *)
Definition LITERAL_RE (token : string) : option (string * string * string) :=
  match token with
  | String z (String l v) =>
      let n := code l in
      if (code z =? 48)
         && ((n =? 120) || (n =? 111) || (n =? 98) || (n =? 88) || (n =? 79) || (n =? 66))
         && negb (is_empty (fst (span not_newline v)))
      then Some (String z (String l EmptyString), String l EmptyString,
                 fst (span not_newline v))
      else None
  | _ => None
  end.

(** [DEFAULT_BITS.match(token)], the groups [len] and [value]. *)
Definition DEFAULT_BITS (token : string) : option (option string * option string) :=
  let '(l, r) := span (fun c => negb (code c =? 61)) token in
  let len := if is_empty l then None else Some l in
  match r with
  | EmptyString => Some (len, None)
  | String _ v =>
      let '(v1, rest) := span not_newline v in
      if at_end rest then Some (len, Some v1) else None
  end.

(** A token of the grammar that stands alone: it is not empty and holds no
    comma, no star and no white space. *)
Definition plain_token (t : string) : bool :=
  negb (is_empty t)
  && all_chars (fun c => negb (is_space c || (code c =? 44) || (code c =? 42))) t.

(** The body of the loop of [tokenparser] from the match of [NAME_INT_RE]
    on, for a token that is not a key and whose factor has been read. *)
Definition parse_element (factor : Z) (token : string)
    (acc : bool * list Token) : result (bool * list Token) :=
  let '(stretchy_token, tokens) := acc in
  match NAME_INT_RE token with
  | Some (name, length) =>
      length ← (if is_empty length then Ok None else Some <$> py_int length);
      Ok (stretchy_token, tokens ++ py_repeat [(name, length, None)] factor)
  | None =>
      match LITERAL_RE token with
      | Some _ =>
          (* name, value = literal_match.groups(), and there are three groups *)
          Raise ValueError
      | None =>
          if is_empty token then Ok (true, tokens)
          else
            match DEFAULT_BITS token with
            | Some (length, value) =>
                let '(stretchy_token, length) :=
                  match length with
                  | Some l =>
                      match strip_final_star l with
                      | Some l' => (true, Some l')
                      | None => (stretchy_token, Some l)
                      end
                  | None => (stretchy_token, None)
                  end in
                length ← match length with
                         | Some l => Some <$> py_int l
                         | None => Ok None
                         end;
                Ok (stretchy_token,
                    tokens ++ py_repeat [("bits", length, value)] factor)
            | None => Ok (stretchy_token, tokens)
            end
      end
  end.

(** One iteration of the loop of [tokenparser]. *)
Definition parse_token (keys : list string) (token : string)
    (acc : bool * list Token) : result (bool * list Token) :=
  let token := strip token in
  if bool_decide (token ∈ keys) then
    Ok (fst acc, snd acc ++ [(token, None, None)])
  else
    match MULTIPLICATIVE_RE token with
    | Some (factor, token') =>
        factor ← py_int factor;
        parse_element factor token' acc
    | None => parse_element 1 token acc
    end.

Fixpoint parse_tokens (keys : list string) (toks : list string)
    (acc : bool * list Token) : result (bool * list Token) :=
  match toks with
  | [] => Ok acc
  | t :: ts => acc' ← parse_token keys t acc; parse_tokens keys ts acc'
  end.

(** [tokenparser(fmt, keys)].  The function is pure, so its [lru_cache]
    does not show in its results. *)
Definition tokenparser (fmt : string) (keys : list string)
    : result (bool * list Token) :=
  parse_tokens keys (split "," fmt) (false, []).

(** The pattern of [BRACKET_RE] at the start of [s], digits then a star then
    an opening bracket: the digits of the factor and what follows the
    bracket. *)
Definition bracket_at (s : string) : option (string * string) :=
  let '(ds, rest) := span is_digit s in
  if is_empty ds then None
  else match rest with
       | String a (String b r) =>
           if (code a =? 42) && (code b =? 40) then Some (ds, r) else None
       | _ => None
       end.

(** [BRACKET_RE.search(s)]: the start of the leftmost match and the digits
    of its factor; the match is the digits followed by a star and a bracket. *)
Fixpoint BRACKET_RE_search (s : string) : option (nat * string) :=
  match bracket_at s with
  | Some (ds, _) => Some (O, ds)
  | None =>
      match s with
      | String _ r => (fun '(i, ds) => (S i, ds)) <$> BRACKET_RE_search r
      | EmptyString => None
      end
  end.

Fixpoint count_char (c : ascii) (s : string) : nat :=
  match s with
  | EmptyString => O
  | String d r => (if eqb_char d c then 1 else 0)%nat + count_char c r
  end.

(** One turn of the loop of [expand_brackets], once a match is found. *)
Definition expand_once (s : string) (start : nat) (ds : string) : result string :=
  factor ← py_int ds;
  match index_from ")" start s with
  | None => Raise ValueError
  | Some end_ =>
      let sub := PyStr.drop (start + (String.length ds + 2)) (PyStr.take end_ s) in
      Ok (PyStr.take start s +:+ join "," (py_repeat [sub] factor)
          +:+ PyStr.drop (end_ + 1) s)
  end.

(** The loop of [expand_brackets].  Every turn removes one closing bracket
    and copies none, so the turns are bounded by the number of closing
    brackets; [None] stands for a loop cut short by the bound. *)
Fixpoint expand_loop (fuel : nat) (s : string) : option (result string) :=
  match BRACKET_RE_search s with
  | None => Some (Ok s)
  | Some (start, ds) =>
      match expand_once s start ds with
      | Raise e => Some (Raise e)
      | Ok s' =>
          match fuel with
          | O => None
          | S fuel' => expand_loop fuel' s'
          end
      end
  end.

Definition expand_brackets (s : string) : option (result string) :=
  expand_loop (count_char ")" s) s.

(** A name of letters and underscores that starts with a letter. *)
Definition is_word (name : string) : bool :=
  match name with
  | String c r => is_alpha c && all_chars (fun c => is_alpha c || (code c =? 95)) r
  | EmptyString => false
  end.

(** A character that is no opening bracket, and one that is no closing
    bracket. *)
Definition no_open (c : ascii) : bool := negb (code c =? 40).
Definition no_close (c : ascii) : bool := negb (eqb_char c ")").

(** The last character of a string is a digit. *)
Fixpoint last_is_digit (s : string) : bool :=
  match s with
  | EmptyString => false
  | String c EmptyString => is_digit c
  | String _ r => last_is_digit r
  end.

(** [expand_brackets] followed by [tokenparser], as the callers chain them. *)
Definition expand_then_parse (fmt : string) (keys : list string)
    : option (result (bool * list Token)) :=
  r ← expand_brackets fmt; Some (r ≫= fun s => tokenparser s keys).

(** The result of the loop on [acc] when it gives [r] on the empty
    result: the flags are joined and the tokens follow each other. *)
Definition merge (acc r : bool * list Token) : bool * list Token :=
  (fst acc || fst r, snd acc ++ snd r).

(** *** The struct-like codes *)

(** [sys.byteorder] *)
Inductive byteorder : Type := big | little.

#[global] Instance byteorder_eq_dec : EqDecision byteorder.
Proof. solve_decision. Defined.

Definition REPLACEMENTS_BE : gmap string string :=
  list_to_map
    [ ("b", "int8"); ("B", "uint8"); ("h", "intbe16"); ("H", "uintbe16");
      ("l", "intbe32"); ("L", "uintbe32"); ("q", "intbe64"); ("Q", "uintbe64");
      ("e", "floatbe16"); ("f", "floatbe32"); ("d", "floatbe64") ].

Definition REPLACEMENTS_LE : gmap string string :=
  list_to_map
    [ ("b", "int8"); ("B", "uint8"); ("h", "intle16"); ("H", "uintle16");
      ("l", "intle32"); ("L", "uintle32"); ("q", "intle64"); ("Q", "uintle64");
      ("e", "floatle16"); ("f", "floatle32"); ("d", "floatle64") ].

Definition REPLACEMENTS_NE : gmap string string :=
  list_to_map
    [ ("b", "int8"); ("B", "uint8"); ("h", "intne16"); ("H", "uintne16");
      ("l", "intne32"); ("L", "uintne32"); ("q", "intne64"); ("Q", "uintne64");
      ("e", "floatne16"); ("f", "floatne32"); ("d", "floatne64") ].

Definition PACK_CODE_SIZE : gmap string Z :=
  list_to_map
    [ ("b", 1); ("B", 1); ("h", 2); ("H", 2); ("l", 4); ("L", 4);
      ("q", 8); ("Q", 8); ("e", 2); ("f", 4); ("d", 8) ].

(** The class [[bBhHlLqQefd]]. *)
Definition is_struct_code (c : ascii) : bool :=
  bool_decide (String c EmptyString ∈
    ["b"; "B"; "h"; "H"; "l"; "L"; "q"; "Q"; "e"; "f"; "d"]).

(** [STRUCT_SPLIT_RE.findall(s)]: the runs of digits that a code letter
    ends, each with its letter, from left to right; [digits] holds the
    digits read since the last match or the last other character. *)
Fixpoint split_codes (digits : string) (s : string) : list string :=
  match s with
  | EmptyString => []
  | String c r =>
      if is_digit c then split_codes (digits +:+ String c EmptyString) r
      else if is_struct_code c then
        (digits +:+ String c EmptyString) :: split_codes EmptyString r
      else split_codes EmptyString r
  end.

Definition STRUCT_SPLIT_RE_findall (s : string) : list string :=
  split_codes EmptyString s.

(** [s[:-1]] and [s[-1]], both empty on the empty string. *)
Fixpoint but_last (s : string) : string :=
  match s with
  | EmptyString => EmptyString
  | String c EmptyString => EmptyString
  | String c r => String c (but_last r)
  end.

Fixpoint last_char (s : string) : string :=
  match s with
  | EmptyString => EmptyString
  | String c EmptyString => s
  | String c r => last_char r
  end.

(** [replacements[key]] *)
Definition getitem {V} (d : gmap string V) (key : string) : result V :=
  match d !! key with
  | Some v => Ok v
  | None => Raise KeyError
  end.

(** The loop of [structparser]. *)
Fixpoint struct_loop (replacements : gmap string string) (codes : list string)
    (tokens : list string) : result (list string) :=
  match codes with
  | [] => Ok tokens
  | code :: codes' =>
      tokens' ←
        match code with
        | String c _ =>
            if is_digit c then
              count ← py_int (but_last code);
              token ← getitem replacements (last_char code);
              Ok (tokens ++ py_repeat [token] count)
            else
              token ← getitem replacements code;
              Ok (tokens ++ [token])
        | EmptyString => Raise IndexError
        end;
      struct_loop replacements codes' tokens'
  end.

(** The table that [structparser] chooses. *)
Definition struct_table (host : byteorder) (endian : option string)
    : gmap string string :=
  if bool_decide (endian = Some ">")
     || (bool_decide (endian ≠ Some "<") && bool_decide (endian ≠ Some "=")
         && bool_decide (host = big))
  then REPLACEMENTS_BE
  else if bool_decide (endian = Some "<")
          || (bool_decide (endian ≠ Some ">") && bool_decide (host = little))
  then REPLACEMENTS_LE
  else REPLACEMENTS_NE.

(** [structparser(m)], for a match [m] whose groups [endian] and [fmt] are
    given, on a host of the given byte order. *)
Definition structparser (host : byteorder) (endian : option string)
    (fmt : string) : result (list string) :=
  struct_loop (struct_table host endian) (STRUCT_SPLIT_RE_findall fmt) [].

End Utils.

(** ** bitarray_.py: the mutable bit container *)

Module BitArray.

(** The bits of a container, first bit first. *)
Abbreviation Bits := (list bool).

(** A method of a container: it reads and writes the bit store of [self]
    and returns or raises.  The store it leaves is the one the caller sees
    afterwards, whether the method returned or raised. *)
Definition method (A : Type) : Type := Bits -> Bits * result A.

#[global] Instance method_ret : MRet method := fun _ a s => (s, Ok a).
#[global] Instance method_bind : MBind method := fun _ _ f m s =>
  match m s with
  | (s', Ok a) => f a s'
  | (s', Raise e) => (s', Raise e)
  end.

Definition raise {A} (e : exn) : method A := fun s => (s, Raise e).
Definition get_store : method Bits := fun s => (s, Ok s).
Definition put_store (b : Bits) : method unit := fun _ => (b, Ok tt).

(** [len(self)] *)
Definition len : method Z := fun s => (s, Ok (Z.of_nat (length s))).

(** [for x in xs: body(x)] *)
Fixpoint for_each {A} (xs : list A) (body : A -> method unit) : method unit :=
  match xs with
  | [] => mret tt
  | x :: xs' => body x ≫= fun _ => for_each xs' body
  end.

(** A method is atomic with respect to errors when a call that raises
    leaves the bits as they were. *)
Definition atomic {A} (m : method A) : Prop :=
  forall s s' e, m s = (s', Raise e) -> s' = s.

(** [l[lo:hi]] for a sequence [l], with Python's rules for negative and
    out-of-range bounds. *)
Definition py_slice {A} (l : list A) (lo hi : option Z) : list A :=
  let n := Z.of_nat (length l) in
  let clamp i := if i <? 0 then Z.max (i + n) 0 else Z.min i n in
  let lo' := match lo with Some i => clamp i | None => 0 end in
  let hi' := match hi with Some i => clamp i | None => n end in
  take (Z.to_nat (hi' - lo')) (drop (Z.to_nat lo') l).

(** *** Methods inherited from [Bits] (bits.py is not part of the sources) *)

(** Modelled from the spec: [Bits._validate_slice] is missing.  Omitted
    bounds default to [0] and the length, negative bounds resolve like
    sequence slicing, and [start < 0], [end > length] and [end < start] are
    rejected with [ValueError]. *)
Definition _validate_slice (start end_ : option Z) : method (Z * Z) :=
  n ← len;
  let start := match start with
               | None => 0
               | Some i => if i <? 0 then i + n else i
               end in
  let end_ := match end_ with
              | None => n
              | Some i => if i <? 0 then i + n else i
              end in
  if (start <? 0) || (n <? end_) || (end_ <? start) then raise ValueError
  else mret (start, end_).

(** Modelled from the spec: [Bits._slice] is missing.  The bits of the
    half-open range [[start, end)]. *)
Definition _slice (start end_ : Z) : method Bits :=
  s ← get_store;
  mret (take (Z.to_nat (end_ - start)) (drop (Z.to_nat start) s)).

(** Modelled from the spec: [Bits._overwrite] is missing.  The positions
    from [pos] on are replaced by [bs]; the container grows when [bs]
    reaches beyond its end. *)
Definition overwrite_bits (bs : Bits) (pos : Z) (s : Bits) : Bits :=
  take (Z.to_nat pos) s ++ bs ++ drop (Z.to_nat pos + length bs) s.

Definition _overwrite (bs : Bits) (pos : Z) : method unit :=
  s ← get_store; put_store (overwrite_bits bs pos s).

(** Modelled from the spec: [BitStore.setall] is missing.  Every bit takes
    the given value. *)
Definition setall (v : bool) : method unit :=
  s ← get_store; put_store (replicate (length s) v).

(** Modelled from the spec: [BitStore.set] is missing.  The bit at [pos]
    takes the given value. *)
Definition bitstore_set (pos : Z) (v : bool) : method unit :=
  s ← get_store; put_store (<[Z.to_nat pos := v]> s).

(** Modelled from the spec: [Bits._invert] is missing.  The bit at [pos]
    is flipped. *)
Definition _invert (pos : Z) : method unit :=
  s ← get_store; put_store (alter negb (Z.to_nat pos) s).

(** Modelled from the spec: [Bits._invert_all] is missing.  Every bit is
    flipped. *)
Definition _invert_all : method unit :=
  s ← get_store; put_store (map negb s).

(** Modelled from the spec: [Bits.findall] is missing.  The positions of
    the non-overlapping occurrences of [old] that lie within
    [[start, end)], from left to right, at most [count] of them when
    [count] is not negative; on byte boundaries only when [bytealigned]. *)
Fixpoint find_from (s old : Bits) (bytealigned : bool) (end_ : nat)
    (count : option nat) (fuel : nat) (pos : nat) : list nat :=
  match fuel with
  | O => []
  | S fuel' =>
      if bool_decide (count = Some O) then []
      else if bool_decide (end_ < pos + length old)%nat then []
      else if (negb bytealigned || bool_decide (pos `mod` 8 = 0)%nat)
              && bool_decide (take (length old) (drop pos s) = old)
      then pos :: find_from s old bytealigned end_ (pred <$> count) fuel'
                    (pos + length old)
      else find_from s old bytealigned end_ count fuel' (S pos)
  end.


Definition findall (old : Bits) (start end_ : Z) (count : Z)
    (bytealigned : bool) : method (list Z) :=
  s ← get_store;
  let cnt := if count <? 0 then None else Some (Z.to_nat count) in
  mret (Z.of_nat <$> find_from s old bytealigned (Z.to_nat end_) cnt
                       (S (Z.to_nat (end_ - start))) (Z.to_nat start)).

(** *** The names that bitarray_.py binds *)

Inductive pyobj : Type :=
  | PyModule (name : string)
  | PyClass (name : string)
  | PyTyping (name : string).

(** The global names of the module: what its import statements and its one
    class statement bind. *)
Definition module_globals : list (string * pyobj) :=
  [ ("annotations", PyTyping "annotations");
    ("copy", PyModule "copy");
    ("numbers", PyModule "numbers");
    ("re", PyModule "re");
    ("abc", PyModule "collections.abc");
    ("Union", PyTyping "Union");
    ("List", PyTyping "List");
    ("Iterable", PyTyping "Iterable");
    ("Any", PyTyping "Any");
    ("Optional", PyTyping "Optional");
    ("utils", PyModule "bitstring.utils");
    ("CreationError", PyClass "CreationError");
    ("Error", PyClass "Error");
    ("Bits", PyClass "Bits");
    ("BitsType", PyTyping "BitsType");
    ("TBits", PyTyping "TBits");
    ("bitstring", PyModule "bitstring");
    ("BitArray", PyClass "BitArray") ].

(** The value of a global name inside a method; a name that the module does
    not bind raises [NameError].  The builtins are left out: the one name
    that the methods load this way, [BitStore], is not among them. *)
Definition load_global (name : string) : method pyobj :=
  match (list_to_map module_globals : gmap string pyobj) !! name with
  | Some o => mret o
  | None => raise NameError
  end.

(** *** The mutating methods *)

(** The index that the position [p] resolves to in a container of [n] bits:
    [p += len(self)] when [p < 0]. *)
Definition resolve (n p : Z) : nat := Z.to_nat (if p <? 0 then p + n else p).

(** The loop of [replace], which counts the replacements it makes. *)
Fixpoint replace_loop (new : Bits) (positions : list Z) (replacements : Z)
    : method Z :=
  match positions with
  | [] => mret replacements
  | pos :: positions' =>
      _overwrite new pos ≫= fun _ =>
      replace_loop new positions' (replacements + 1)
  end.

(** [replace(old, new, start, end, count, bytealigned)] *)
Definition replace (old new : Bits) (start end_ : option Z)
    (count : option Z) (bytealigned : bool) : method Z :=
  if bool_decide (old = []) then raise ValueError
  else
    '(start, end_) ← _validate_slice start end_;
    let count := match count with None => -1 | Some c => c end in
    positions ← findall old start end_ count bytealigned;
    replace_loop new positions 0.



(** The argument [pos] of [set] and [invert]. *)
Inductive pos_arg : Type :=
  | PosNone
  | PosInt (pos : Z)
  | PosIter (ps : list Z).

(** [set(value, pos)]; [value] stands for [bool(value)]. *)
Definition set (value : bool) (pos : pos_arg) : method unit :=
  let bit_value := value in
  match pos with
  | PosNone => setall bit_value
  | PosInt pos =>
      n ← len;
      if (pos <? - n) || (n <=? pos) then raise IndexError
      else
        let pos := if pos <? 0 then pos + n else pos in
        bitstore_set pos bit_value
  | PosIter ps =>
      for_each ps (fun p =>
        n ← len;
        if (p <? - n) || (n <=? p) then raise IndexError
        else
          let p := if p <? 0 then p + n else p in
          bitstore_set p bit_value)
  end.

(** [invert(pos)] *)
Definition invert (pos : pos_arg) : method unit :=
  match pos with
  | PosNone => _invert_all
  | PosInt pos =>
      n ← len;
      if (pos <? - n) || (n <=? pos) then raise IndexError
      else
        let pos := if pos <? 0 then pos + n else pos in
        _invert pos
  | PosIter ps =>
      for_each ps (fun p =>
        n ← len;
        if (p <? - n) || (n <=? p) then raise IndexError
        else
          let p := if p <? 0 then p + n else p in
          _invert p)
  end.

(** [ror(bits, start, end)] *)
Definition ror (bits : Z) (start end_ : option Z) : method unit :=
  if bits <? 0 then raise ValueError
  else
    '(start, end_) ← _validate_slice start end_;
    if start =? end_ then mret tt
    else
      let bits := bits `mod` (end_ - start) in
      if bits =? 0 then mret tt
      else
        rotate_slice ← _slice start end_;
        let rotated := py_slice rotate_slice (Some (- bits)) None
                       ++ py_slice rotate_slice None (Some (- bits)) in
        _overwrite rotated start.

(** [rol(bits, start, end)] *)
Definition rol (bits : Z) (start end_ : option Z) : method unit :=
  if bits <? 0 then raise ValueError
  else
    '(start, end_) ← _validate_slice start end_;
    if start =? end_ then mret tt
    else
      let bits := bits `mod` (end_ - start) in
      if bits =? 0 then mret tt
      else
        rotate_slice ← _slice start end_;
        let rotated := py_slice rotate_slice (Some bits) None
                       ++ py_slice rotate_slice None (Some bits) in
        _overwrite rotated start.

(** The argument [fmt] of [byteswap]. *)
Inductive fmt_arg : Type :=
  | FmtNone
  | FmtInt (n : Z)
  | FmtStr (s : string)
  | FmtList (l : list Z).

(** [sum(l)] *)
Definition sum (l : list Z) : Z := foldl Z.add 0 l.

(** [range(n)] *)
Definition range (n : Z) : list Z := Z.of_nat <$> seq 0 (Z.to_nat n).

Section byteswap.

(** [Bits._reversebytes(start, end)] is missing from the sources; it is a
    parameter here, free to write to the store and to raise. *)
Variable _reversebytes : Z -> Z -> method unit.

(** The inner loop of [byteswap]: [break] leaves it. *)
Fixpoint swap_groups (fmt : list Z) (start end_ i fmt_bits : Z) : method unit :=
  match fmt with
  | [] => mret tt
  | swap_size :: fmt' =>
      let swap_start := start + i * fmt_bits in
      let swap_end := swap_start + swap_size in
      if end_ <? swap_end then mret tt
      else _reversebytes swap_start swap_end ≫= fun _ =>
           swap_groups fmt' start end_ i fmt_bits
  end.

(** [byteswap(fmt, start, end, repeat)] *)
Definition byteswap (fmt : fmt_arg) (start end_ : option Z) (repeat : bool)
    : method Z :=
  '(start, end_) ← _validate_slice start end_;
  let fmt := match fmt with
             | FmtNone => FmtList [end_ - start]
             | FmtInt 0 => FmtList [end_ - start]
             | _ => fmt
             end in
  fmt ← match fmt with
        | FmtInt n => mret [n]
        | FmtStr s =>
            match mapM (fun x => (fun n => n * 8) <$> PyStr.py_int x)
                       (filter (fun x => x ≠ EmptyString) (PyStr.split "," s)) with
            | Ok l => mret l
            | Raise e => raise e
            end
        | FmtList l => mret l
        | FmtNone => mret []
        end;
  let fmt_bits := sum fmt in
  let fmt_bytes := fmt_bits `div` 8 in
  if fmt_bits =? 0 then mret 0
  else
    let repeats := if repeat then (end_ - start) `div` fmt_bits else 1 in
    for_each (range repeats) (fun i => swap_groups fmt start end_ i fmt_bits)
    ≫= fun _ => mret repeats.

End byteswap.

(** Modelled from the spec: [Bits._reversebytes] is missing.  The whole
    bytes of the range [[start, end)] are put in the opposite order; bits
    left over after the last whole byte stay where they are. *)
Fixpoint whole_bytes (fuel : nat) (l : Bits) : list Bits * Bits :=
  match fuel with
  | O => ([], l)
  | S fuel' =>
      if bool_decide (length l < 8)%nat then ([], l)
      else let '(bs, rest) := whole_bytes fuel' (drop 8 l) in
           (take 8 l :: bs, rest)
  end.

Definition reverse_bytes (l : Bits) : Bits :=
  let '(bs, rest) := whole_bytes (length l) l in
  concat (reverse bs) ++ rest.

Definition _reversebytes (start end_ : Z) : method unit :=
  chunk ← _slice start end_;
  _overwrite (reverse_bytes chunk) start.

(** The bits of a sequence of bytes, most significant bit first. *)
Definition bytes_to_bits (bs : list Z) : Bits :=
  concat ((fun b => (fun i => Z.testbit b (7 - i)) <$> range 8) <$> bs).

(** [clear()] *)
Definition clear : method unit :=
  ctor ← load_global "BitStore";
  match ctor with
  | PyClass _ => put_store []
  | _ => raise TypeError
  end.

Section shifts.

(** [Bits._ilshift(n)] and [Bits._irshift(n)] are missing from the sources;
    they are parameters here, free to write to the store and to raise. *)
Variable _ilshift : Z -> method unit.
Variable _irshift : Z -> method unit.

(** [__ilshift__(n)] *)
Definition __ilshift__ (n : Z) : method unit :=
  if n <? 0 then raise ValueError
  else
    l ← len;
    if l =? 0 then raise ValueError
    else if n =? 0 then mret tt
    else
      let n := Z.min n l in
      _ilshift n.

(** [__irshift__(n)] *)
Definition __irshift__ (n : Z) : method unit :=
  if n <? 0 then raise ValueError
  else
    l ← len;
    if l =? 0 then raise ValueError
    else if n =? 0 then mret tt
    else
      let n := Z.min n l in
      _irshift n.

End shifts.

Section delegates.

(** [Bits._insert(bs, pos)] and [Bits._imul(n)] are missing from the
    sources; they are parameters here, free to write to the store and to
    raise. *)
Variable _insert : Bits -> Z -> method unit.
Variable _imul : Z -> method unit.

(** [insert(bs, pos)] *)
Definition insert (bs : Bits) (pos : Z) : method unit :=
  n ← len;
  if (pos <? 0) || (n <? pos) then raise ValueError
  else _insert bs pos.

(** [__imul__(n)] *)
Definition __imul__ (n : Z) : method unit :=
  if n <? 0 then raise ValueError
  else _imul n.

End delegates.

(** [overwrite(bs, pos)] *)
Definition overwrite (bs : Bits) (pos : Z) : method unit :=
  n ← len;
  if (pos <? 0) || (n <? pos) then raise ValueError
  else _overwrite bs pos.

(** [reverse(start, end)]; [rev] is the slice [[::-1]]. *)
Definition reverse (start end_ : option Z) : method unit :=
  '(start, end_) ← _validate_slice start end_;
  if start =? end_ then mret tt
  else
    sl ← _slice start end_;
    let reversed_bits := rev sl in
    _overwrite reversed_bits start.

End BitArray.

(** ** dtypes.py: dtype families and their registry *)

Module Dtypes.

Abbreviation Bits := (list bool).

(** The values that a getter returns and a setter takes. *)
Inductive pyval : Type :=
  | VInt (z : Z)
  | VBool (b : bool)
  | VStr (s : string).

(** [get_fn(bs, start, length=length)] and [set_fn(bs, value, length=length)];
    a setter gives the bits it stores. *)
Definition get_fn_t : Type := Bits -> Z -> option Z -> result pyval.
Definition set_fn_t : Type := pyval -> option Z -> result Bits.

Record Dtype : Type := mkDtype {
  name : string;
  length : option Z;
  get : Bits -> Z -> result pyval;
  set : pyval -> result Bits;
  is_integer : bool;
  is_signed : bool;
  is_float : bool;
  is_fixed_length : bool;
  is_unknown_length : bool
}.

(** [Dtype.__init__]: [get] and [set] are the family's functions with the
    length bound by [functools.partial]. *)
Definition Dtype_init (name : string) (length : option Z) (set_fn : set_fn_t)
    (get_fn : get_fn_t) (is_integer is_float is_signed is_unknown_length
    is_fixed_length : bool) : Dtype :=
  {| name := name;
     length := length;
     get := fun bs start => get_fn bs start length;
     set := fun v => set_fn v length;
     is_integer := is_integer;
     is_signed := is_signed;
     is_float := is_float;
     is_fixed_length := is_fixed_length;
     is_unknown_length := is_unknown_length |}.

Record MetaDtype : Type := mkMetaDtype {
  md_name : string;
  md_is_float : bool;
  md_is_integer : bool;
  md_is_signed : bool;
  md_is_fixed_length : bool;
  md_is_unknown_length : bool;
  md_length : option Z;
  md_set : set_fn_t;
  md_get : get_fn_t
}.

(** [MetaDtype.__init__] *)
Definition MetaDtype_init (name : string) (set_fn : set_fn_t) (get_fn : get_fn_t)
    (is_integer is_float is_signed is_unknown_length : bool)
    (length : option Z) : result MetaDtype :=
  if is_unknown_length && bool_decide (length ≠ None) then Raise ValueError
  else if is_float && is_integer then Raise ValueError
  else Ok {| md_name := name;
             md_is_float := is_float;
             md_is_integer := is_integer;
             md_is_signed := is_signed;
             md_is_fixed_length := bool_decide (length ≠ None);
             md_is_unknown_length := is_unknown_length;
             md_length := length;
             md_set := set_fn;
             md_get := get_fn |}.

(** [MetaDtype.getDtype(length)] *)
Definition getDtype (self : MetaDtype) (length : option Z) : result Dtype :=
  match length with
  | None =>
      if negb (md_is_fixed_length self) then Raise ValueError
      else Ok (Dtype_init (md_name self) None (md_set self) (md_get self)
                 (md_is_integer self) (md_is_float self) (md_is_signed self)
                 (md_is_unknown_length self) (md_is_fixed_length self))
  | Some len =>
      if md_is_unknown_length self then Raise ValueError
      else
        length ← (if md_is_fixed_length self then
                    if bool_decide (len ≠ 0) && bool_decide (Some len ≠ md_length self)
                    then Raise ValueError
                    else Ok (md_length self)
                  else Ok (Some len));
        Ok (Dtype_init (md_name self) length (md_set self) (md_get self)
              (md_is_integer self) (md_is_float self) (md_is_signed self)
              (md_is_unknown_length self) (md_is_fixed_length self))
  end.

(** The class attribute [Register.name_to_meta_dtype]. *)
Abbreviation register := (gmap string MetaDtype).

(** [Register.add_meta_dtype(meta_dtype)] *)
Definition add_meta_dtype (reg : register) (meta_dtype : MetaDtype) : register :=
  <[md_name meta_dtype := meta_dtype]> reg.

(** [Register.add_meta_dtype_alias(name, alias)] *)
Definition add_meta_dtype_alias (reg : register) (name alias : string)
    : result register :=
  match reg !! name with
  | Some m => Ok (<[alias := m]> reg)
  | None => Raise KeyError
  end.

(** Modelled from the spec: the constructor of [Bits] is missing.  [Bits(n)]
    is the zero-filled bit pattern of [n] bits, and without a length it is
    the empty pattern. *)
Definition Bits_new (length : option Z) : Bits :=
  match length with
  | Some n => replicate (Z.to_nat n) false
  | None => []
  end.

(** [Register.get_dtype(name, length)] *)
Definition get_dtype (reg : register) (name : string) (length : option Z)
    : result Dtype :=
  match reg !! name with
  | None => Raise ValueError
  | Some meta_type =>
      d ← getDtype meta_type length;
      if bool_decide (length ≠ Some 0) then
        let temp := Bits_new length in
        match get d temp 0 with
        | Raise (InterpretError _) => Raise ValueError
        | Raise e => Raise e
        | Ok _ => Ok d
        end
      else Ok d
  end.

(** Modelled from the spec: the getter and the setter of the family [uint]
    are missing.  The getter reads [length] bits from [start] as an unsigned
    integer, first bit most significant, and a pattern that cannot be read
    so is an [InterpretError]. *)
Definition bits_to_uint (l : Bits) : Z :=
  foldl (fun acc (b : bool) => 2 * acc + (if b then 1 else 0)) 0 l.

Definition uint_get : get_fn_t := fun bs start length =>
  match length with
  | Some n =>
      if (n <=? 0) || (start <? 0) || (Z.of_nat (List.length bs) <? start + n)
      then Raise (InterpretError "Cannot interpret as an unsigned integer.")
      else Ok (VInt (bits_to_uint (take (Z.to_nat n) (drop (Z.to_nat start) bs))))
  | None => Raise (InterpretError "Cannot interpret as an unsigned integer.")
  end.

Definition uint_set : set_fn_t := fun v length =>
  match v, length with
  | VInt z, Some n =>
      if (0 <=? z) && (z <? 2 ^ n) && (0 <? n)
      then Ok ((fun i => Z.testbit z (n - 1 - i)) <$> BitArray.range n)
      else Raise CreationError
  | _, _ => Raise CreationError
  end.

End Dtypes.

(** ** Python floats *)

Module PyFloat.

(** A float is a NaN, an infinity, a zero with its sign, or a non-zero
    number.  Numbers are rationals and their arithmetic is exact: the codecs
    only scale a number by a power of two, subtract one from a number of
    [[1, 2)], and compare, which binary64 does without rounding on the range
    of the formats. *)
Inductive float : Type :=
  | NaN
  | Inf (neg : bool)
  | Zero (neg : bool)
  | Num (q : Q).

(** The float of a rational product whose sign is that of [neg] when it is
    zero. *)
Definition of_Q (neg : bool) (q : Q) : float :=
  if Qeq_bool q 0 then Zero neg else Num q.

(** [math.isnan(f)] *)
Definition isnan (f : float) : bool :=
  match f with NaN => true | _ => false end.

(** [math.isinf(f)] *)
Definition isinf (f : float) : bool :=
  match f with Inf _ => true | _ => false end.

(** [f == 0] *)
Definition eq_zero (f : float) : bool :=
  match f with
  | Zero _ => true
  | Num q => Qeq_bool q 0
  | _ => false
  end.

(** [f < 0] *)
Definition lt_zero (f : float) : bool :=
  match f with
  | Inf neg => neg
  | Num q => negb (Qle_bool 0 q)
  | _ => false
  end.

(** [-f] *)
Definition neg (f : float) : float :=
  match f with
  | NaN => NaN
  | Inf s => Inf (negb s)
  | Zero s => Zero (negb s)
  | Num q => Num (- q)
  end.

(** [abs(f)] *)
Definition abs (f : float) : float :=
  match f with
  | NaN => NaN
  | Inf _ => Inf false
  | Zero _ => Zero false
  | Num q => Num (Qabs q)
  end.

(** The rational value of a finite float. *)
Definition value (f : float) : Q :=
  match f with
  | Num q => q
  | _ => 0%Q
  end.

(** [a == b] on floats. *)
Definition eqb (a b : float) : bool :=
  match a, b with
  | NaN, _ | _, NaN => false
  | Inf s, Inf t => Bool.eqb s t
  | Inf _, _ | _, Inf _ => false
  | _, _ => Qeq_bool (value a) (value b)
  end.

(** [2 ** k] *)
Definition pow2 (k : Z) : Q := (2 ^ k)%Q.

(** [math.floor(math.log2(q))] for a positive [q].  The floor is exact:
    the rounding of [math.log2] on a binary64 just below a power of two,
    which gives the exponent of that power, is not modelled. *)
Definition floor_log2 (q : Q) : Z :=
  let e := Z.log2 (Qnum q) - Z.log2 (Zpos (Qden q)) in
  if Qle_bool (pow2 e) q then e else e - 1.

(** [int(q)]: truncation towards zero. *)
Definition trunc (q : Q) : Z := Z.quot (Qnum q) (Zpos (Qden q)).

(** [round(q)]: to the nearest integer, a tie to the even one. *)
Definition round (q : Q) : Z :=
  let f := Qfloor q in
  let d := (q - inject_Z f)%Q in
  if Qle_bool d (1 # 2) then
    if Qeq_bool d (1 # 2) then (if Z.even f then f else f + 1) else f
  else f + 1.

(** [lut[i]] for a decode table [lut]. *)
Definition entry (lut : result (list float)) (i : nat) : result float :=
  l ← lut;
  match l !! i with
  | Some f => Ok f
  | None => Raise IndexError
  end.

(** [a << n], which raises [ValueError] on a negative count. *)
Definition shl (a n : Z) : result Z :=
  if n <? 0 then Raise ValueError else Ok (Z.shiftl a n).

(** [a >> n], which raises [ValueError] on a negative count. *)
Definition shr (a n : Z) : result Z :=
  if n <? 0 then Raise ValueError else Ok (Z.shiftr a n).

End PyFloat.

(** ** fp8.py: the binary8 formats *)

Module Fp8.
Import PyFloat.

Record Binary8Format : Type := mkBinary8Format {
  exp_bits : Z;
  bias : Z;
  pos_clamp_value : Z;
  neg_clamp_value : Z
}.

(** [Binary8Format.__init__] *)
Definition Binary8Format_init (exp_bits bias : Z) : Binary8Format :=
  {| exp_bits := exp_bits; bias := bias;
     pos_clamp_value := 127; neg_clamp_value := 255 |}.

(** [float_to_int8(f)] *)
Definition float_to_int8 (self : Binary8Format) (f : float) : result Z :=
  if isnan f then Ok 0xFF
  else if eq_zero f then Ok 0x00
  else
    let '(sign_bit, f) := if lt_zero f then (0x80, neg f) else (0x00, f) in
    if isinf f then Ok (Z.lor sign_bit 0x7F)
    else
      let f := value f in
      let exponent := floor_log2 f in
      let mantissa :=
        trunc ((f / pow2 exponent - 1) * pow2 (8 - exp_bits self))%Q in
      let biased_exponent := exponent + bias self in
      let finish (mantissa biased_exponent : Z) : result Z :=
        exponent_bits ← shl biased_exponent (7 - exp_bits self);
        mask ← shl 1 (7 - exp_bits self);
        Ok (Z.lor (Z.lor sign_bit exponent_bits) (Z.land mantissa (mask - 1))) in
      if biased_exponent <? 0 then
        finish (trunc (f * pow2 (7 - bias self))%Q) 0
      else
        top ← shl 1 (exp_bits self);
        if top - 1 <=? biased_exponent then
          Ok (if sign_bit =? 0 then pos_clamp_value self else neg_clamp_value self)
        else finish mantissa biased_exponent.

(** The body of the loop of [createLUT_for_binary8_to_float]. *)
Definition binary8_to_float (self : Binary8Format) (i : Z) : result float :=
  let sign := if Z.land i 0x80 =? 0 then 1 else -1 in
  s ← shr i (7 - exp_bits self);
  top ← shl 1 (exp_bits self);
  let exponent := Z.land s (top - 1) in
  mask ← shl 1 (7 - exp_bits self);
  let mantissa := Z.land i (mask - 1) in
  if exponent =? 0 then
    if mantissa =? 0 then Ok (Zero false)
    else Ok (of_Q (sign <? 0)
               (inject_Z sign * (inject_Z mantissa / pow2 (7 - exp_bits self))
                * pow2 (- bias self + 1))%Q)
  else
    top' ← shl 1 (exp_bits self);
    if exponent =? top' - 1 then
      if mantissa =? 0 then Ok (if sign =? 1 then Inf false else Inf true)
      else Ok NaN
    else
      Ok (of_Q (sign <? 0)
            (inject_Z sign * (1 + inject_Z mantissa / pow2 (7 - exp_bits self))
             * pow2 (exponent - bias self))%Q).

(** [createLUT_for_binary8_to_float()] *)
Definition createLUT_for_binary8_to_float (self : Binary8Format)
    : result (list float) :=
  mapM (binary8_to_float self) (BitArray.range 256).

Definition p4binary_fmt : Binary8Format := Binary8Format_init 4 8.
Definition p3binary_fmt : Binary8Format := Binary8Format_init 5 16.

End Fp8.

(** ** mxfp.py: the micro-scaling formats *)

Module Mxfp.
Import PyFloat.

Inductive overflow_mode : Type := saturate | overflow.

Record MXFPFormat : Type := mkMXFPFormat {
  exp_bits : Z;
  mantissa_bits : Z;
  bias : Z;
  mxfp_overflow : overflow_mode;
  pos_clamp_value : Z;
  neg_clamp_value : Z
}.

(** [MXFPFormat.__init__]; the shifts of a negative count raise. *)
Definition MXFPFormat_init (exp_bits mantissa_bits bias : Z)
    (mxfp_overflow : overflow_mode) : result MXFPFormat :=
  pos ← shl 1 (exp_bits + mantissa_bits);
  neg ← shl 1 (1 + exp_bits + mantissa_bits);
  let pos_clamp_value := pos - 1 in
  let neg_clamp_value := neg - 1 in
  let '(pos_clamp_value, neg_clamp_value) :=
    if (exp_bits =? 4) && (mantissa_bits =? 3) then
      match mxfp_overflow with
      | saturate => (126, 254)
      | overflow => (255, 255)
      end
    else (pos_clamp_value, neg_clamp_value) in
  let '(pos_clamp_value, neg_clamp_value) :=
    if (exp_bits =? 5) && (mantissa_bits =? 2) then
      match mxfp_overflow with
      | saturate => (123, 251)
      | overflow => (124, 252)
      end
    else (pos_clamp_value, neg_clamp_value) in
  Ok {| exp_bits := exp_bits; mantissa_bits := mantissa_bits; bias := bias;
        mxfp_overflow := mxfp_overflow;
        pos_clamp_value := pos_clamp_value;
        neg_clamp_value := neg_clamp_value |}.

(** [float_to_int(f)] *)
Definition float_to_int (self : MXFPFormat) (f : float) : result Z :=
  if isnan f then
    (fun a => a - 1) <$> shl 1 (exp_bits self + mantissa_bits self + 1)
  else if eq_zero f then Ok 0
  else
    let sign := if lt_zero f then 1 else 0 in
    let f := abs f in
    let clamp := if sign =? 0 then pos_clamp_value self else neg_clamp_value self in
    if isinf f
       || Qle_bool (pow2 (exp_bits self + mantissa_bits self)) (value f)
    then Ok clamp
    else
      let f := value f in
      let exponent := floor_log2 f in
      let mantissa := (f / pow2 exponent - 1)%Q in
      let biased_exponent := exponent + bias self in
      let finish (mantissa : Q) (biased_exponent : Z) : result Z :=
        one ← shl 1 (mantissa_bits self);
        let mantissa_int := round (mantissa * inject_Z one)%Q in
        one' ← shl 1 (mantissa_bits self);
        let '(mantissa_int, biased_exponent) :=
          if mantissa_int =? one' then (0, biased_exponent + 1)
          else (mantissa_int, biased_exponent) in
        s ← shl sign (exp_bits self + mantissa_bits self);
        e ← shl biased_exponent (mantissa_bits self);
        Ok (Z.lor (Z.lor s e) mantissa_int) in
      if biased_exponent <? 0 then
        finish (mantissa * pow2 (exponent + bias self))%Q 0
      else
        top ← shl 1 (exp_bits self);
        if top - 1 <=? biased_exponent then
          match mxfp_overflow self with
          | saturate => Ok clamp
          | overflow =>
              top' ← shl 1 (exp_bits self);
              finish (1 - pow2 (- mantissa_bits self))%Q (top' - 1)
          end
        else finish mantissa biased_exponent.

(** The body of the loop of [createLUT_for_int_to_float]. *)
Definition int_to_float (self : MXFPFormat) (i : Z) : result float :=
  let total_bits := 1 + exp_bits self + mantissa_bits self in
  b ← shl 1 (total_bits - 1);
  let sign := if Z.land i b =? 0 then 1 else -1 in
  s ← shr i (mantissa_bits self);
  top ← shl 1 (exp_bits self);
  let exp := Z.land s (top - 1) in
  one ← shl 1 (mantissa_bits self);
  let mantissa := Z.land i (one - 1) in
  if exp =? 0 then
    one' ← shl 1 (mantissa_bits self);
    Ok (of_Q (sign <? 0)
          (inject_Z sign * (inject_Z mantissa / inject_Z one')
           * pow2 (1 - bias self))%Q)
  else
    top' ← shl 1 (exp_bits self);
    if exp =? top' - 1 then Ok (if mantissa =? 0 then Inf false else NaN)
    else
      one' ← shl 1 (mantissa_bits self);
      Ok (of_Q (sign <? 0)
            (inject_Z sign * (1 + inject_Z mantissa / inject_Z one')
             * pow2 (exp - bias self))%Q).

(** [createLUT_for_int_to_float()].  The entries are exact: their storage
    as 32-bit floats in [array.array('f')] is not modelled. *)
Definition createLUT_for_int_to_float (self : MXFPFormat) : result (list float) :=
  total ← shl 1 (1 + exp_bits self + mantissa_bits self);
  mapM (int_to_float self) (BitArray.range total).

Definition e2m1mxfp_fmt := MXFPFormat_init 2 1 1 saturate.
Definition e2m3mxfp_fmt := MXFPFormat_init 2 3 1 saturate.
Definition e3m2mxfp_fmt := MXFPFormat_init 3 2 3 saturate.
Definition e4m3mxfp_saturate_fmt := MXFPFormat_init 4 3 7 saturate.
Definition e5m2mxfp_saturate_fmt := MXFPFormat_init 5 2 15 saturate.
Definition e4m3mxfp_overflow_fmt := MXFPFormat_init 4 3 7 overflow.
Definition e5m2mxfp_overflow_fmt := MXFPFormat_init 5 2 15 overflow.

End Mxfp.

(** * Properties *)

(** ** The micro-float codecs *)

Section codecs.
Import PyFloat.

Lemma Qabs_of_negative (q : Q) :
  lt_zero (Num q) = true -> Qabs q = (- q)%Q.
Proof.
  destruct q as [n d]. unfold lt_zero, Qle_bool. simpl.
  destruct n; simpl; intros H; try discriminate; reflexivity.
Qed.

Lemma eq_zero_of_negative (q : Q) :
  lt_zero (Num q) = true -> eq_zero (Num q) = false /\ eq_zero (Num (- q)) = false
                            /\ lt_zero (Num (- q)) = false.
Proof.
  destruct q as [n d]. unfold lt_zero, eq_zero, Qle_bool, Qeq_bool. simpl.
  destruct n; simpl; intros H; try discriminate; auto.
Qed.

(** C7.  The binary8 format with four exponent bits and bias eight encodes
    [0.0] as [0x00], a NaN as [0xFF] and negative infinity as
    [0x80 | 0x7F]; and every binary8 format encodes a NaN as the pattern of
    all ones, a zero as [0], and a negative float as the code of its absolute
    value with the sign bit set. *)
Theorem float_to_int8_special_values :
  Fp8.float_to_int8 Fp8.p4binary_fmt (Zero false) = Ok 0x00
  /\ Fp8.float_to_int8 Fp8.p4binary_fmt NaN = Ok 0xFF
  /\ Fp8.float_to_int8 Fp8.p4binary_fmt (Inf true) = Ok (Z.lor 0x80 0x7F)
  /\ (forall e b, Fp8.float_to_int8 (Fp8.Binary8Format_init e b) NaN = Ok (Z.ones 8))
  /\ (forall e b s, Fp8.float_to_int8 (Fp8.Binary8Format_init e b) (Zero s) = Ok 0)
  /\ (forall e b f, lt_zero f = true ->
        Fp8.float_to_int8 (Fp8.Binary8Format_init e b) f
        = Z.lor 0x80 <$> Fp8.float_to_int8 (Fp8.Binary8Format_init e b) (abs f)).
Proof.
  repeat split; try reflexivity.
  intros e b f Hneg. destruct f as [| [] | s | q]; try discriminate Hneg.
  - reflexivity.
  - unfold abs. rewrite (Qabs_of_negative q Hneg).
    destruct (eq_zero_of_negative q Hneg) as (Hz & Hz' & Hl).
    unfold Fp8.float_to_int8.
    cbn [isnan]. rewrite Hz, Hz', Hneg, Hl. cbn [neg isinf value].
    cbn [Fp8.exp_bits Fp8.bias Fp8.pos_clamp_value Fp8.neg_clamp_value
         Fp8.Binary8Format_init].
    set (x := floor_log2 (- q)).
    destruct (x + b <? 0).
    + destruct (shl 0 (7 - e)) as [eb|]; [|reflexivity]. cbn.
      destruct (shl 1 (7 - e)) as [m|]; [|reflexivity]. cbn.
      rewrite Z.lor_0_l, Z.lor_assoc. reflexivity.
    + destruct (shl 1 e) as [top|]; [|reflexivity]. cbn.
      destruct (top - 1 <=? x + b); [reflexivity|].
      destruct (shl (x + b) (7 - e)) as [eb|]; [|reflexivity]. cbn.
      destruct (shl 1 (7 - e)) as [m|]; [|reflexivity]. cbn.
      rewrite Z.lor_0_l, Z.lor_assoc. reflexivity.
Qed.

Lemma float_to_int8_special_values_witness :
  lt_zero (Num (-3 # 2)) = true
  /\ Fp8.float_to_int8 (Fp8.Binary8Format_init 4 8) (Num (-3 # 2))
     = Z.lor 0x80 <$> Fp8.float_to_int8 (Fp8.Binary8Format_init 4 8) (abs (Num (-3 # 2))).
Proof.
  split; [reflexivity|].
  apply (proj2 (proj2 (proj2 (proj2 (proj2 float_to_int8_special_values))))).
  reflexivity.
Defined.

(** C10.  Every binary8 format and every MXFP format encodes negative zero
    as it encodes positive zero, as the code [0]: the test for zero comes
    before the sign is read. *)
Theorem encode_negative_zero_is_zero :
  (forall fmt : Fp8.Binary8Format,
      Fp8.float_to_int8 fmt (Zero true) = Ok 0
      /\ Fp8.float_to_int8 fmt (Zero false) = Ok 0)
  /\ (forall fmt : Mxfp.MXFPFormat,
      Mxfp.float_to_int fmt (Zero true) = Ok 0
      /\ Mxfp.float_to_int fmt (Zero false) = Ok 0).
Proof. repeat split. Qed.

(** C4.  The round trip fails on the code.  In the binary8 format with four
    exponent bits and bias eight, [1.125] is the entry of code 65, a normal
    number, and it is encoded as 66, whose entry is [1.25]; [2 ** -10] is the
    entry of code 1, a subnormal number, and it is encoded as 0.  In the MXFP
    format e2m1, [0.5] is the entry of code 1, a subnormal number, and it is
    encoded as 0, whose entry is [0.0]. *)
Theorem roundtrip_fails_on_representable_values :
  let lut8 := Fp8.createLUT_for_binary8_to_float Fp8.p4binary_fmt in
  let lutm := f ← Mxfp.e2m1mxfp_fmt; Mxfp.createLUT_for_int_to_float f in
  entry lut8 65 = Ok (Num (9 # 8))
  /\ Fp8.float_to_int8 Fp8.p4binary_fmt (Num (9 # 8)) = Ok 66
  /\ entry lut8 66 = Ok (Num (10 # 8))
  /\ eqb (Num (10 # 8)) (Num (9 # 8)) = false
  /\ eqb (Num (1 # 1024)) <$> entry lut8 1 = Ok true
  /\ Fp8.float_to_int8 Fp8.p4binary_fmt (Num (1 # 1024)) = Ok 0
  /\ entry lut8 0 = Ok (Zero false)
  /\ eqb (Num (1 # 2)) <$> entry lutm 1 = Ok true
  /\ (f ← Mxfp.e2m1mxfp_fmt; Mxfp.float_to_int f (Num (1 # 2))) = Ok 0
  /\ entry lutm 0 = Ok (Zero false).
Proof. vm_compute. repeat split. Qed.

End codecs.

(** ** The mutating methods of the container *)

Section container.
Import BitArray.

Lemma for_each_outcome {A} (xs : list A) (body : A -> method unit) (s : Bits) :
  (exists s', for_each xs body s = (s', Ok tt))
  \/ (exists s' e, for_each xs body s = (s', Raise e)).
Proof.
  revert s. induction xs as [|x xs IH]; intros s; cbn.
  - left. eexists. reflexivity.
  - unfold mbind, method_bind. destruct (body x s) as [s1 [[]|e]].
    + apply IH.
    + right. eauto.
Qed.

(** C8.  [clear()] raises on every container: the module binds no name
    [BitStore], so the call of its constructor is a [NameError], and the
    bits stay as they were. *)
Theorem clear_raises_NameError (s : Bits) :
  clear s = (s, Raise NameError).
Proof. reflexivity. Qed.

(** C1.  On a range of four bytes, [byteswap] with the integer format [2]
    and [repeat=True] never returns [2]: the integer counts bits, not bytes,
    so the pattern is two bits wide and fits sixteen times.  Whatever
    [_reversebytes] does, the call returns [16] or raises; with
    [_reversebytes] as the spec has it the bytes [01 02 03 04] stay in place
    and [16] is returned, while the string format ["2"] swaps the bytes of
    each group of two and returns [2]. *)
Theorem byteswap_int_fmt_counts_bits :
  (forall (rb : Z -> Z -> method unit) (s : Bits),
      length s = 32%nat ->
      snd (byteswap rb (FmtInt 2) None None true s) <> Ok 2
      /\ ((exists s', byteswap rb (FmtInt 2) None None true s = (s', Ok 16))
          \/ (exists s' e, byteswap rb (FmtInt 2) None None true s = (s', Raise e))))
  /\ byteswap _reversebytes (FmtInt 2) None None true (bytes_to_bits [1; 2; 3; 4])
     = (bytes_to_bits [1; 2; 3; 4], Ok 16)
  /\ byteswap _reversebytes (FmtStr "2") None None true (bytes_to_bits [1; 2; 3; 4])
     = (bytes_to_bits [2; 1; 4; 3], Ok 2).
Proof.
  split; [|split; vm_compute; reflexivity].
  intros rb s Hlen.
  assert (Hcases :
    (exists s', byteswap rb (FmtInt 2) None None true s = (s', Ok 16))
    \/ (exists s' e, byteswap rb (FmtInt 2) None None true s = (s', Raise e))).
  { unfold byteswap, _validate_slice, len, mbind, method_bind, mret, method_ret.
    rewrite Hlen. change (Z.of_nat 32) with 32.
    cbn -[for_each range swap_groups].
    change (0 + 2) with 2. change ((32 - 0) `div` 2) with 16.
    change (2 =? 0) with false. cbv beta iota.
    destruct (for_each_outcome (range 16)
                (fun i => swap_groups rb [2] 0 32 i 2) s) as [[s' H]|(s' & e & H)];
      rewrite H; eauto. }
  split; [|exact Hcases].
  destruct Hcases as [[s' H]|(s' & e & H)]; rewrite H; cbn; congruence.
Qed.

Lemma byteswap_int_fmt_counts_bits_witness :
  length (bytes_to_bits [1; 2; 3; 4]) = 32%nat
  /\ snd (byteswap _reversebytes (FmtInt 2) None None true (bytes_to_bits [1; 2; 3; 4]))
     <> Ok 2.
Proof.
  split; [reflexivity|].
  apply (proj1 byteswap_int_fmt_counts_bits _reversebytes (bytes_to_bits [1; 2; 3; 4])).
  reflexivity.
Defined.

Lemma for_each_app {A} (xs ys : list A) (body : A -> method unit) (s : Bits) :
  for_each (xs ++ ys) body s
  = match for_each xs body s with
    | (s', Ok _) => for_each ys body s'
    | (s', Raise e) => (s', Raise e)
    end.
Proof.
  revert s. induction xs as [|x xs IH]; intros s; cbn; [reflexivity|].
  unfold mbind, method_bind. destruct (body x s) as [s1 [[]|e]]; [apply IH|reflexivity].
Qed.

Lemma out_of_range_test (n p : Z) :
  ~ (- n <= p < n) -> (p <? - n) || (n <=? p) = true.
Proof. intros H. apply orb_true_iff. lia. Qed.

Lemma in_range_test (n p : Z) :
  - n <= p < n -> (p <? - n) || (n <=? p) = false.
Proof. intros H. apply orb_false_iff. lia. Qed.

(** The loop of [set] and of [invert] over the positions before the first
    one out of range, for any write [w] that keeps the length. *)
Lemma positions_loop (w : nat -> Bits -> Bits) (good : list Z) (bad : Z)
    (rest : list Z) (n : Z) (s : Bits) :
  (forall i t, length (w i t) = length t) ->
  Z.of_nat (length s) = n ->
  Forall (fun p => - n <= p < n) good ->
  ~ (- n <= bad < n) ->
  for_each (good ++ bad :: rest) (fun p =>
    n ← len;
    if (p <? - n) || (n <=? p) then raise IndexError
    else
      let p := if p <? 0 then p + n else p in
      (s ← get_store; put_store (w (Z.to_nat p) s))) s
  = (foldl (fun st p => w (resolve n p) st) s good, Raise IndexError).
Proof.
  intros Hw Hn Hgood Hbad. revert s Hn.
  induction Hgood as [|p good Hp _ IH]; intros s Hn.
  - cbn. unfold mbind, method_bind, len. rewrite Hn.
    rewrite (out_of_range_test n bad Hbad). reflexivity.
  - cbn [app for_each foldl]. unfold mbind at 1, method_bind at 1.
    unfold mbind at 1, method_bind at 1, len at 1. rewrite Hn.
    rewrite (in_range_test n p Hp).
    unfold mbind at 1, method_bind at 1, get_store, put_store.
    apply IH. rewrite Hw. exact Hn.
Qed.

(** What [set] and [invert] do with a position out of range: alone it
    raises with the bits as they were; in an iterable it raises after the
    positions before it have been written. *)
Lemma position_loops_raise (s : Bits) (value : bool)
    (good : list Z) (bad : Z) (rest : list Z) :
  let n := Z.of_nat (length s) in
  Forall (fun p => - n <= p < n) good ->
  ~ (- n <= bad < n) ->
  set value (PosIter (good ++ bad :: rest)) s
  = (foldl (fun st p => <[resolve n p := value]> st) s good, Raise IndexError)
  /\ invert (PosIter (good ++ bad :: rest)) s
     = (foldl (fun st p => alter negb (resolve n p) st) s good, Raise IndexError)
  /\ set value (PosInt bad) s = (s, Raise IndexError)
  /\ invert (PosInt bad) s = (s, Raise IndexError).
Proof.
  intros n Hgood Hbad. repeat split.
  - apply (positions_loop (fun i t => <[i := value]> t)); auto.
    intros; apply length_insert.
  - apply (positions_loop (fun i t => alter negb i t)); auto.
    intros; apply length_alter.
  - unfold set, mbind, method_bind, len. fold n.
    rewrite (out_of_range_test n bad Hbad). reflexivity.
  - unfold invert, mbind, method_bind, len. fold n.
    rewrite (out_of_range_test n bad Hbad). reflexivity.
Qed.

(** C6, as the claim states it, fails: [set] and [invert] on eight zero bits
    with the positions [0] and [100] raise [IndexError] after bit [0] has
    been written. *)
Lemma set_invert_not_atomic :
  let s := replicate 8 false in
  (exists s', set true (PosIter [0; 100]) s = (s', Raise IndexError) /\ s' <> s)
  /\ (exists s', invert (PosIter [0; 100]) s = (s', Raise IndexError) /\ s' <> s).
Proof. split; eexists; (split; [reflexivity|discriminate]). Qed.

(** *** Rotation *)

Lemma slice_decompose {A} (l : list A) (a b : nat) :
  (a <= b <= length l)%nat ->
  take a l ++ take (b - a) (drop a l) ++ drop b l = l.
Proof.
  intros H. rewrite app_assoc, take_take_drop.
  replace (a + (b - a))%nat with b by lia. apply take_drop.
Qed.

Lemma py_slice_from {A} (l : list A) (k : Z) :
  0 <= k <= Z.of_nat (length l) ->
  py_slice l (Some k) None = drop (Z.to_nat k) l.
Proof.
  intros H. unfold py_slice.
  destruct (Z.ltb_spec k 0); [lia|].
  rewrite Z.min_l by lia. apply take_ge. rewrite length_drop. lia.
Qed.

Lemma py_slice_to {A} (l : list A) (k : Z) :
  0 <= k <= Z.of_nat (length l) ->
  py_slice l None (Some k) = take (Z.to_nat k) l.
Proof.
  intros H. unfold py_slice.
  destruct (Z.ltb_spec k 0); [lia|].
  rewrite Z.min_l by lia. rewrite Z.sub_0_r. reflexivity.
Qed.

Lemma py_slice_from_end {A} (l : list A) (k : Z) :
  0 < k <= Z.of_nat (length l) ->
  py_slice l (Some (- k)) None = drop (length l - Z.to_nat k) l.
Proof.
  intros H. unfold py_slice.
  destruct (Z.ltb_spec (- k) 0); [|lia].
  rewrite Z.max_l by lia.
  replace (Z.to_nat (- k + Z.of_nat (length l))) with (length l - Z.to_nat k)%nat by lia.
  apply take_ge. rewrite length_drop. lia.
Qed.

Lemma py_slice_to_end {A} (l : list A) (k : Z) :
  0 < k <= Z.of_nat (length l) ->
  py_slice l None (Some (- k)) = take (length l - Z.to_nat k) l.
Proof.
  intros H. unfold py_slice.
  destruct (Z.ltb_spec (- k) 0); [|lia].
  rewrite Z.max_l by lia. rewrite Z.sub_0_r.
  replace (Z.to_nat (- k + Z.of_nat (length l))) with (length l - Z.to_nat k)%nat by lia.
  reflexivity.
Qed.

Lemma validate_slice_bounds (start end_ : option Z) (s : Bits) (a b : Z) :
  _validate_slice start end_ s = (s, Ok (a, b)) ->
  0 <= a <= b /\ b <= Z.of_nat (length s).
Proof.
  unfold _validate_slice, mbind, method_bind, len, raise, mret, method_ret.
  set (n := Z.of_nat (length s)).
  set (a' := match start with None => 0 | Some i => if i <? 0 then i + n else i end).
  set (b' := match end_ with None => n | Some i => if i <? 0 then i + n else i end).
  destruct ((a' <? 0) || (n <? b') || (b' <? a')) eqn:E; [discriminate|].
  intros [= <- <-].
  apply orb_false_iff in E as [E E3]. apply orb_false_iff in E as [E1 E2].
  apply Z.ltb_ge in E1, E2, E3. lia.
Qed.

Lemma validate_slice_length (start end_ : option Z) (s s1 : Bits) (r : result (Z * Z)) :
  length s1 = length s ->
  _validate_slice start end_ s = (s, r) ->
  _validate_slice start end_ s1 = (s1, r).
Proof.
  unfold _validate_slice, mbind, method_bind, len, raise, mret, method_ret.
  intros ->.
  destruct (_ || _); intros [= <-]; reflexivity.
Qed.

Lemma overwrite_bits_range (r s : Bits) (a b : Z) :
  0 <= a <= b -> b <= Z.of_nat (length s) ->
  length r = Z.to_nat (b - a) ->
  overwrite_bits r a s = take (Z.to_nat a) s ++ r ++ drop (Z.to_nat b) s.
Proof.
  intros H1 H2 Hr. unfold overwrite_bits. rewrite Hr.
  replace (Z.to_nat a + Z.to_nat (b - a))%nat with (Z.to_nat b) by lia.
  reflexivity.
Qed.

(** What [rol] and [ror] leave in the container, for a rotation of the
    range by [k] places to the left. *)
Lemma rotate_spec (left : bool) (bits : Z) (start end_ : option Z) (s : Bits) (a b : Z) :
  _validate_slice start end_ s = (s, Ok (a, b)) ->
  0 <= bits -> a < b ->
  let mid := take (Z.to_nat (b - a)) (drop (Z.to_nat a) s) in
  let k := Z.to_nat (bits `mod` (b - a)) in
  let k' := if left then k else (length mid - k)%nat in
  (if left then rol else ror) bits start end_ s
  = (take (Z.to_nat a) s ++ (drop k' mid ++ take k' mid) ++ drop (Z.to_nat b) s, Ok tt).
Proof.
  intros Hv Hbits Hab mid k k'.
  destruct (validate_slice_bounds _ _ _ _ _ Hv) as [H1 H2].
  assert (Hmid : length mid = Z.to_nat (b - a)).
  { unfold mid. rewrite length_take, length_drop. lia. }
  assert (Hk : 0 <= bits `mod` (b - a) < b - a) by (apply Z.mod_pos_bound; lia).
  assert (Hs : take (Z.to_nat a) s ++ mid ++ drop (Z.to_nat b) s = s).
  { unfold mid. replace (Z.to_nat (b - a)) with (Z.to_nat b - Z.to_nat a)%nat by lia.
    apply slice_decompose. lia. }
  assert (Hgoal :
    (if left then rol else ror) bits start end_ s
    = (if bits `mod` (b - a) =? 0 then s
       else overwrite_bits (drop k' mid ++ take k' mid) a s, Ok tt)).
  { destruct left; unfold rol, ror;
      (destruct (Z.ltb_spec bits 0); [lia|]);
      unfold mbind, method_bind; rewrite Hv;
      (destruct (Z.eqb_spec a b); [lia|]);
      (destruct (Z.eqb_spec (bits `mod` (b - a)) 0) as [|Hnz]; [reflexivity|]);
      unfold _slice, _overwrite, mbind, method_bind, get_store, put_store,
        mret, method_ret; fold mid.
    - rewrite py_slice_from, py_slice_to by lia. reflexivity.
    - rewrite py_slice_from_end, py_slice_to_end by lia. subst k' k.
      reflexivity. }
  rewrite Hgoal. f_equal.
  destruct (Z.eqb_spec (bits `mod` (b - a)) 0) as [Hz|Hnz].
  - assert (k = 0%nat) by (unfold k; rewrite Hz; reflexivity).
    assert (drop k' mid ++ take k' mid = mid) as ->; [|symmetry; exact Hs].
    unfold k'. destruct left.
    + replace k with 0%nat. rewrite drop_0, take_0, app_nil_r. reflexivity.
    + replace k with 0%nat. rewrite Nat.sub_0_r, drop_all, firstn_all. reflexivity.
  - apply overwrite_bits_range; [lia|lia|].
    rewrite length_app, length_drop, length_take. lia.
Qed.

(** C5.  A negative amount makes [rol] and [ror] raise [ValueError].  For an
    amount that is not negative and a valid sub-range [[a, b)] of a
    container: an empty range is left as it is; on a range that is not empty
    the amount is reduced modulo the length of the range, [rol] moving the
    bits of the range that many places to the left and [ror] to the right;
    and [ror] after [rol], by the same amount on the same range, gives back
    the container bit for bit. *)
Theorem rol_then_ror_restores (s : Bits) (bits : Z) (start end_ : option Z) :
  (bits < 0 ->
     rol bits start end_ s = (s, Raise ValueError)
     /\ ror bits start end_ s = (s, Raise ValueError))
  /\ (forall a b, 0 <= bits ->
        _validate_slice start end_ s = (s, Ok (a, b)) ->
        (a = b ->
           rol bits start end_ s = (s, Ok tt) /\ ror bits start end_ s = (s, Ok tt))
        /\ (a < b ->
              let mid := take (Z.to_nat (b - a)) (drop (Z.to_nat a) s) in
              let k := Z.to_nat (bits `mod` (b - a)) in
              rol bits start end_ s
              = (take (Z.to_nat a) s ++ (drop k mid ++ take k mid)
                 ++ drop (Z.to_nat b) s, Ok tt)
              /\ ror bits start end_ s
                 = (take (Z.to_nat a) s
                    ++ (drop (length mid - k) mid ++ take (length mid - k) mid)
                    ++ drop (Z.to_nat b) s, Ok tt))
        /\ (exists s1, rol bits start end_ s = (s1, Ok tt)
                       /\ ror bits start end_ s1 = (s, Ok tt))).
Proof.
  split.
  { intros Hneg. unfold rol, ror.
    destruct (Z.ltb_spec bits 0); [|lia]. split; reflexivity. }
  intros a b Hbits Hv.
  destruct (validate_slice_bounds _ _ _ _ _ Hv) as [H1 H2].
  assert (Hempty : a = b ->
    rol bits start end_ s = (s, Ok tt) /\ ror bits start end_ s = (s, Ok tt)).
  { intros Heq. unfold rol, ror.
    destruct (Z.ltb_spec bits 0); [lia|].
    unfold mbind, method_bind. rewrite Hv. subst b. rewrite Z.eqb_refl.
    split; reflexivity. }
  split; [exact Hempty|]. split.
  - intros Hab mid k. split.
    + apply (rotate_spec true); assumption.
    + apply (rotate_spec false); assumption.
  - destruct (Z.eq_dec a b) as [Heq|Hne].
    { exists s. exact (Hempty Heq). }
    assert (Hab : a < b) by lia.
    set (mid := take (Z.to_nat (b - a)) (drop (Z.to_nat a) s)).
    set (k := Z.to_nat (bits `mod` (b - a))).
    set (s1 := take (Z.to_nat a) s ++ (drop k mid ++ take k mid) ++ drop (Z.to_nat b) s).
    assert (Hmid : length mid = Z.to_nat (b - a)).
    { unfold mid. rewrite length_take, length_drop. lia. }
    assert (Hk : 0 <= bits `mod` (b - a) < b - a) by (apply Z.mod_pos_bound; lia).
    assert (Hrot : length (drop k mid ++ take k mid) = Z.to_nat (b - a)).
    { rewrite length_app, length_drop, length_take. lia. }
    assert (Hlen : length s1 = length s).
    { unfold s1. rewrite !length_app, !length_take, !length_drop. lia. }
    exists s1. split; [apply (rotate_spec true); assumption|].
    pose proof (validate_slice_length _ _ _ _ _ Hlen Hv) as Hv1.
    rewrite (rotate_spec false bits start end_ s1 a b Hv1 Hbits Hab). f_equal.
    assert (Ha1 : take (Z.to_nat a) s1 = take (Z.to_nat a) s).
    { unfold s1. rewrite take_app_length'; [reflexivity|].
      rewrite length_take. lia. }
    assert (Hb1 : drop (Z.to_nat b) s1 = drop (Z.to_nat b) s).
    { unfold s1. rewrite app_assoc. rewrite drop_app_length'; [reflexivity|].
      rewrite length_app, Hrot, length_take. lia. }
    assert (Hm1 : take (Z.to_nat (b - a)) (drop (Z.to_nat a) s1)
                  = drop k mid ++ take k mid).
    { unfold s1. rewrite drop_app_length' by (rewrite length_take; lia).
      rewrite take_app_length' by (symmetry; exact Hrot). reflexivity. }
    rewrite Ha1, Hb1, Hm1, Hrot.
    assert (Hback :
      drop (Z.to_nat (b - a) - k) (drop k mid ++ take k mid)
      ++ take (Z.to_nat (b - a) - k) (drop k mid ++ take k mid) = mid).
    { assert (Hd : length (drop k mid) = (Z.to_nat (b - a) - k)%nat)
        by (rewrite length_drop; lia).
      rewrite drop_app_length' by (symmetry; exact Hd).
      rewrite take_app_length' by (symmetry; exact Hd).
      apply take_drop. }
    fold k. rewrite Hback. unfold mid.
    replace (Z.to_nat (b - a)) with (Z.to_nat b - Z.to_nat a)%nat by lia.
    apply slice_decompose. lia.
Qed.

Lemma rol_then_ror_restores_witness :
  exists s1, rol 11 (Some 2) (Some (-1)) (bytes_to_bits [172]) = (s1, Ok tt)
             /\ ror 11 (Some 2) (Some (-1)) s1 = (bytes_to_bits [172], Ok tt).
Proof.
  refine (proj2 (proj2 (proj2 (rol_then_ror_restores (bytes_to_bits [172]) 11
                                 (Some 2) (Some (-1))) 2 7 _ _))).
  - lia.
  - reflexivity.
Defined.

(** *** Replacement *)






Lemma overwrite_run (new : Bits) (l : list nat) (r : Z) (s : Bits) :
  replace_loop new (Z.of_nat <$> l) r s
  = (foldl (fun st p => overwrite_bits new (Z.of_nat p) st) s l,
     Ok (r + Z.of_nat (length l))).
Proof.
  revert r s. induction l as [|p l IH]; intros r s.
  { cbn. rewrite Z.add_0_r. reflexivity. }
  cbn [fmap list_fmap replace_loop foldl length].
  unfold mbind at 1, method_bind at 1.
  unfold _overwrite at 1, mbind at 1, method_bind at 1, get_store, put_store.
  rewrite IH. do 2 f_equal. lia.
Qed.









End container.

(** ** The tokenizer *)

Section tokenizer.
Import PyStr Utils.

Lemma append_cons (c : ascii) (a b : string) :
  String c a +:+ b = String c (a +:+ b).
Proof. reflexivity. Qed.

Lemma append_nil (b : string) : EmptyString +:+ b = b.
Proof. reflexivity. Qed.

Lemma all_chars_app (p : ascii -> bool) (a b : string) :
  all_chars p (a +:+ b) = all_chars p a && all_chars p b.
Proof.
  induction a as [|c a IH]; [reflexivity|].
  rewrite append_cons. cbn. rewrite IH. apply andb_assoc.
Qed.

Lemma all_chars_impl (p q : ascii -> bool) (s : string) :
  (forall c, p c = true -> q c = true) ->
  all_chars p s = true -> all_chars q s = true.
Proof.
  intros Hpq. induction s as [|c s IH]; cbn; [reflexivity|].
  intros [Hc Hs]%andb_true_iff. rewrite (Hpq c Hc), (IH Hs). reflexivity.
Qed.

Lemma split_no_sep (sep : ascii) (s : string) :
  all_chars (fun c => negb (eqb_char c sep)) s = true -> split sep s = [s].
Proof.
  induction s as [|c s IH]; cbn; [reflexivity|].
  intros [Hc Hs]%andb_true_iff. apply negb_true_iff in Hc. rewrite Hc, (IH Hs).
  reflexivity.
Qed.

Lemma rstrip_no_space (s : string) :
  all_chars (fun c => negb (is_space c)) s = true -> rstrip s = s.
Proof.
  induction s as [|c s IH]; cbn; [reflexivity|].
  intros [Hc Hs]%andb_true_iff. apply negb_true_iff in Hc. rewrite (IH Hs), Hc.
  destruct s; reflexivity.
Qed.

Lemma strip_no_space (s : string) :
  all_chars (fun c => negb (is_space c)) s = true -> strip s = s.
Proof.
  intros H. unfold strip.
  assert (Hl : lstrip s = s).
  { destruct s as [|c s]; cbn in *; [reflexivity|].
    apply andb_true_iff in H as [Hc _]. apply negb_true_iff in Hc.
    rewrite Hc. reflexivity. }
  rewrite Hl. apply rstrip_no_space, H.
Qed.

Lemma span_all (p : ascii -> bool) (s : string) :
  all_chars p s = true -> span p s = (s, EmptyString).
Proof.
  induction s as [|c s IH]; cbn; [reflexivity|].
  intros [Hc Hs]%andb_true_iff. rewrite Hc, (IH Hs). reflexivity.
Qed.

Lemma last_star_none (s : string) :
  all_chars (fun c => negb (code c =? 42)) s = true -> last_star s = None.
Proof.
  induction s as [|c s IH]; cbn; [reflexivity|].
  intros [Hc Hs]%andb_true_iff. apply negb_true_iff in Hc.
  rewrite (IH Hs), Hc. reflexivity.
Qed.


Lemma int_digits_decimal (s : string) (acc : Z) :
  all_chars is_digit s = true -> int_digits acc s = Some (decimal_from acc s).
Proof.
  revert acc. induction s as [|c s IH]; intros acc; cbn; [reflexivity|].
  intros [Hc Hs]%andb_true_iff. rewrite Hc. apply IH, Hs.
Qed.

Lemma is_digit_not_space (c : ascii) : is_digit c = true -> is_space c = false.
Proof.
  unfold is_digit, is_space. intros H.
  apply andb_true_iff in H as [H1 H2].
  apply Z.leb_le in H1. apply Z.leb_le in H2.
  repeat (apply orb_false_iff; split);
    try apply andb_false_iff; try (apply Z.eqb_neq; lia);
    first [left; apply Z.leb_gt; lia | right; apply Z.leb_gt; lia].
Qed.

Lemma is_digit_code (c : ascii) (n : Z) :
  is_digit c = true -> n < 48 -> (code c =? n) = false.
Proof.
  unfold is_digit. intros [H1 _]%andb_true_iff Hn.
  apply Z.leb_le in H1. apply Z.eqb_neq. lia.
Qed.

(** [int] of a string of digits is the number they write. *)
Lemma py_int_digits (ds : string) :
  is_digits ds = true -> py_int ds = Ok (decimal ds).
Proof.
  unfold is_digits. intros [Hne Hd]%andb_true_iff.
  unfold py_int.
  rewrite strip_no_space
    by (eapply all_chars_impl; [|exact Hd];
        intros c Hc; rewrite (is_digit_not_space c Hc); reflexivity).
  destruct ds as [|c ds]; [discriminate|].
  cbn in Hd. apply andb_true_iff in Hd as [Hc Hds].
  rewrite (is_digit_code c 45 Hc), (is_digit_code c 43 Hc) by lia.
  cbn. rewrite Hc. rewrite (int_digits_decimal ds _ Hds).
  unfold decimal. cbn. reflexivity.
Qed.


Lemma plain_token_facts (t : string) :
  plain_token t = true ->
  is_empty t = false
  /\ all_chars (fun c => negb (is_space c)) t = true
  /\ all_chars (fun c => negb (eqb_char c ",")) t = true
  /\ all_chars (fun c => negb (code c =? 42)) t = true
  /\ all_chars not_newline t = true.
Proof.
  unfold plain_token. intros [Hne H]%andb_true_iff.
  apply negb_true_iff in Hne. split; [exact Hne|].
  repeat split; (eapply all_chars_impl; [|exact H]); intros c Hc;
    apply negb_true_iff in Hc; apply orb_false_iff in Hc as [Hc H42];
    apply orb_false_iff in Hc as [Hsp H44].
  - rewrite Hsp. reflexivity.
  - unfold eqb_char. change (code ",") with 44. rewrite H44. reflexivity.
  - rewrite H42. reflexivity.
  - unfold not_newline, is_newline. apply negb_true_iff, Z.eqb_neq.
    intros Heq. unfold is_space in Hsp. rewrite Heq in Hsp. discriminate.
Qed.

Lemma digits_facts (ds : string) :
  is_digits ds = true ->
  all_chars (fun c => negb (is_space c)) ds = true
  /\ all_chars (fun c => negb (eqb_char c ",")) ds = true
  /\ all_chars not_newline ds = true.
Proof.
  unfold is_digits. intros [_ H]%andb_true_iff.
  repeat split; (eapply all_chars_impl; [|exact H]); intros c Hc.
  - rewrite (is_digit_not_space c Hc). reflexivity.
  - unfold eqb_char. change (code ",") with 44.
    rewrite (is_digit_code c 44 Hc) by lia. reflexivity.
  - unfold not_newline, is_newline. rewrite (is_digit_code c 10 Hc) by lia.
    reflexivity.
Qed.

End tokenizer.

(** ** The registry of dtype families *)

Section registry.
Import Dtypes.

Lemma getDtype_explicit (m : MetaDtype) (n : Z) :
  md_is_unknown_length m = false ->
  (md_is_fixed_length m = true -> n = 0 \/ Some n = md_length m) ->
  exists d, getDtype m (Some n) = Ok d
    /\ length d = (if md_is_fixed_length m then md_length m else Some n)
    /\ get d = (fun bs start => md_get m bs start (length d)).
Proof.
  intros Hu Hfix. unfold getDtype. rewrite Hu.
  destruct (md_is_fixed_length m) eqn:Hf.
  - destruct (Hfix eq_refl) as [-> | Hn].
    + cbn. eexists. repeat split.
    + rewrite (bool_decide_eq_false_2 (Some n ≠ md_length m)) by auto.
      rewrite andb_false_r. cbn. eexists. repeat split.
  - cbn. eexists. repeat split.
Qed.

(** C2, as the code has it.  An unregistered name raises [ValueError].  For
    a registered family: an unknown-length family rejects every explicit
    length; a fixed-length family called with length [0] binds to its
    canonical length and is not checked; called with no length it gives a
    dtype whose length stays unset; it rejects any other length than [0] and
    its own.  A call with an explicit length other than [0] that binds
    decodes the zero-filled pattern of that length: an [InterpretError]
    becomes a [ValueError], another exception passes through, and otherwise
    the dtype is returned.  So, when ["uint"] names a family of free length
    whose getter reads unsigned integers, [get_dtype("uint", 8)] succeeds and
    its [get] on eight zero bits is [0]. *)
Theorem get_dtype_binding_rules (reg : register) (name : string) :
  (reg !! name = None -> forall len, get_dtype reg name len = Raise ValueError)
  /\ (forall m, reg !! name = Some m ->
        (md_is_unknown_length m = true ->
           forall n, get_dtype reg name (Some n) = Raise ValueError)
        /\ (md_is_unknown_length m = false -> md_is_fixed_length m = true ->
              exists d, get_dtype reg name (Some 0) = Ok d
                        /\ length d = md_length m)
        /\ (md_is_fixed_length m = true ->
              exists d, getDtype m None = Ok d /\ length d = None
                /\ get_dtype reg name None
                   = match md_get m [] 0 None with
                     | Ok _ => Ok d
                     | Raise (InterpretError _) => Raise ValueError
                     | Raise e => Raise e
                     end)
        /\ (md_is_fixed_length m = true ->
              forall n, n <> 0 -> Some n <> md_length m ->
                        get_dtype reg name (Some n) = Raise ValueError)
        /\ (forall n, 0 < n -> md_is_unknown_length m = false ->
              (md_is_fixed_length m = true -> Some n = md_length m) ->
              exists d, getDtype m (Some n) = Ok d /\ length d = Some n
                /\ get_dtype reg name (Some n)
                   = match md_get m (replicate (Z.to_nat n) false) 0 (Some n) with
                     | Ok _ => Ok d
                     | Raise (InterpretError _) => Raise ValueError
                     | Raise e => Raise e
                     end)
        /\ (name = "uint" -> md_is_unknown_length m = false ->
              md_is_fixed_length m = false -> md_get m = uint_get ->
              exists d, get_dtype reg name (Some 8) = Ok d
                        /\ get d (Bits_new (Some 8)) 0 = Ok (VInt 0))).
Proof.
  split.
  { intros Hnone len. unfold get_dtype. rewrite Hnone. reflexivity. }
  intros m Hm. unfold get_dtype. rewrite Hm. repeat split.
  - intros Hu n. unfold getDtype. rewrite Hu. reflexivity.
  - intros Hu Hf.
    destruct (getDtype_explicit m 0 Hu (fun _ => or_introl eq_refl)) as (d & Hd & Hl & _).
    rewrite Hd, Hf in *. exists d. split; [reflexivity|exact Hl].
  - intros Hf. unfold getDtype. rewrite Hf. cbn. eexists. repeat split.
  - intros Hf n Hn0 Hn. unfold getDtype. rewrite Hf.
    destruct (md_is_unknown_length m); [reflexivity|].
    rewrite (bool_decide_eq_true_2 (n ≠ 0) Hn0).
    rewrite (bool_decide_eq_true_2 (Some n ≠ md_length m) Hn). reflexivity.
  - intros n Hn Hu Hfix.
    destruct (getDtype_explicit m n Hu (fun H => or_intror (Hfix H)))
      as (d & Hd & Hl & Hg).
    assert (Hlen : length d = Some n).
    { rewrite Hl. destruct (md_is_fixed_length m) eqn:Hf; [|reflexivity].
      symmetry. apply Hfix. reflexivity. }
    exists d. rewrite Hd. repeat split; [exact Hlen|]. cbn.
    rewrite bool_decide_eq_true_2 by (intros [= ?]; lia).
    rewrite Hg, Hlen. reflexivity.
  - intros -> Hu Hf Hget.
    destruct (getDtype_explicit m 8 Hu) as (d & Hd & Hl & Hg).
    { rewrite Hf. discriminate. }
    rewrite Hf in Hl. exists d. rewrite Hd. cbn.
    rewrite Hg, Hl, Hget. split; reflexivity.
Qed.

Lemma get_dtype_binding_rules_witness :
  let m := {| md_name := "uint"; md_is_float := false; md_is_integer := true;
              md_is_signed := false; md_is_fixed_length := false;
              md_is_unknown_length := false; md_length := None;
              md_set := uint_set; md_get := uint_get |} in
  exists d, get_dtype (add_meta_dtype ∅ m) "uint" (Some 8) = Ok d
            /\ get d (Bits_new (Some 8)) 0 = Ok (VInt 0).
Proof.
  intros m.
  refine (proj2 (proj2 (proj2 (proj2 (proj2
            (proj2 (get_dtype_binding_rules (add_meta_dtype ∅ m) "uint") m _)))))
            _ _ _ _); reflexivity.
Defined.

(** C2, as the claim states it, fails.  Take a fixed-length family of
    sixteen bits whose getter rejects every pattern.  [get_dtype] with
    length [0] returns its dtype, bound to sixteen bits, without the check
    that decoding sixteen zero bits would fail; and binding with no length
    leaves the length of the dtype unset, not sixteen. *)
Lemma get_dtype_zero_length_unchecked :
  let bad_get : get_fn_t := fun _ _ _ => Raise (InterpretError "no") in
  exists m d d',
    MetaDtype_init "f16" uint_set bad_get false true false false (Some 16) = Ok m
    /\ md_is_fixed_length m = true
    /\ get_dtype (add_meta_dtype ∅ m) "f16" (Some 0) = Ok d
    /\ length d = Some 16
    /\ get d (Bits_new (length d)) 0 = Raise (InterpretError "no")
    /\ getDtype m None = Ok d'
    /\ length d' = None
    /\ md_length m = Some 16.
Proof. intros bad_get. do 3 eexists. repeat split. Qed.

End registry.

(** ** More on the tokenizer *)

Section tokenizer_laws.
Import PyStr Utils.

Lemma split_nonempty (sep : ascii) (s : string) : split sep s <> [].
Proof.
  destruct s as [|c s]; cbn; [discriminate|].
  destruct (eqb_char c sep); [discriminate|].
  destruct (split sep s); discriminate.
Qed.

Lemma split_app_sep (sep : ascii) (a b : string) :
  split sep (a +:+ String sep b) = split sep a ++ split sep b.
Proof.
  induction a as [|c a IH].
  - rewrite append_nil. cbn. unfold eqb_char. rewrite Z.eqb_refl. reflexivity.
  - rewrite append_cons. cbn. rewrite IH.
    destruct (eqb_char c sep); [reflexivity|].
    pose proof (split_nonempty sep a) as Hne.
    destruct (split sep a) as [|x xs]; [contradiction|]. reflexivity.
Qed.

Lemma parse_element_acc (factor : Z) (t : string) (acc : bool * list Token) :
  parse_element factor t acc = merge acc <$> parse_element factor t (false, []).
Proof.
  destruct acc as [st toks]. unfold parse_element, merge.
  destruct (NAME_INT_RE t) as [[name len]|].
  { destruct (if is_empty len then Ok None else Some <$> py_int len) as [l|e];
      cbn; [|reflexivity]. rewrite orb_false_r. reflexivity. }
  destruct (LITERAL_RE t); [reflexivity|].
  destruct (is_empty t).
  { cbn. rewrite orb_true_r, app_nil_r. reflexivity. }
  destruct (DEFAULT_BITS t) as [[len value]|].
  - destruct len as [l|].
    + destruct (strip_final_star l) as [l'|].
      * destruct (Some <$> py_int l') as [x|e]; cbn; [|reflexivity].
        rewrite orb_true_r. reflexivity.
      * destruct (Some <$> py_int l) as [x|e]; cbn; [|reflexivity].
        rewrite orb_false_r. reflexivity.
    + cbn. rewrite orb_false_r. reflexivity.
  - cbn. rewrite orb_false_r, app_nil_r. reflexivity.
Qed.

Lemma parse_token_acc (keys : list string) (t : string) (acc : bool * list Token) :
  parse_token keys t acc = merge acc <$> parse_token keys t (false, []).
Proof.
  unfold parse_token.
  destruct (bool_decide (strip t ∈ keys)).
  { cbn. unfold merge. cbn. rewrite orb_false_r. reflexivity. }
  destruct (MULTIPLICATIVE_RE (strip t)) as [[f t']|].
  - destruct (py_int f) as [n|e]; cbn; [|reflexivity]. apply parse_element_acc.
  - apply parse_element_acc.
Qed.

Lemma merge_assoc (a b c : bool * list Token) :
  merge (merge a b) c = merge a (merge b c).
Proof. unfold merge. cbn. rewrite orb_assoc, app_assoc. reflexivity. Qed.

Lemma parse_tokens_acc (keys : list string) (l : list string) (acc : bool * list Token) :
  parse_tokens keys l acc = merge acc <$> parse_tokens keys l (false, []).
Proof.
  revert acc. induction l as [|t l IH]; intros acc.
  { cbn. unfold merge. cbn. rewrite orb_false_r, app_nil_r.
    destruct acc; reflexivity. }
  cbn [parse_tokens].
  rewrite (parse_token_acc keys t acc).
  destruct (parse_token keys t (false, [])) as [r|e]; cbn; [|reflexivity].
  rewrite (IH (merge acc r)), (IH r).
  destruct (parse_tokens keys l (false, [])) as [r'|e]; cbn; [|reflexivity].
  rewrite merge_assoc. reflexivity.
Qed.

Lemma parse_tokens_app (keys : list string) (l1 l2 : list string) (acc : bool * list Token) :
  parse_tokens keys (l1 ++ l2) acc
  = parse_tokens keys l1 acc ≫= parse_tokens keys l2.
Proof.
  revert acc. induction l1 as [|t l1 IH]; intros acc; [reflexivity|].
  cbn [app parse_tokens].
  destruct (parse_token keys t acc) as [r|e]; cbn; [apply IH|reflexivity].
Qed.

(** X1.  The tokens of two format strings joined by a comma are the tokens
    of the first followed by the tokens of the second, and the stretchy flag
    is set when it is set for either; when the first raises, so does the
    whole, and otherwise when the second does. *)
Theorem tokenparser_comma (a b : string) (keys : list string) :
  tokenparser (a +:+ "," +:+ b) keys
  = ra ← tokenparser a keys;
    rb ← tokenparser b keys;
    Ok (fst ra || fst rb, snd ra ++ snd rb).
Proof.
  unfold tokenparser.
  change ("," +:+ b) with (String "," b).
  rewrite split_app_sep, parse_tokens_app.
  destruct (parse_tokens keys (split "," a) (false, [])) as [ra|e]; cbn; [|reflexivity].
  rewrite (parse_tokens_acc keys (split "," b) ra).
  destruct (parse_tokens keys (split "," b) (false, [])) as [rb|e]; reflexivity.
Qed.

Lemma lstrip_space (c : ascii) (s : string) :
  is_space c = true -> strip (String c s) = strip s.
Proof. intros H. unfold strip. cbn. rewrite H. reflexivity. Qed.

Lemma rstrip_all_space (w : string) :
  all_chars is_space w = true -> rstrip w = EmptyString.
Proof.
  induction w as [|c w IH]; [reflexivity|]. cbn.
  intros [Hc Hw]%andb_true_iff. rewrite (IH Hw), Hc. reflexivity.
Qed.

Lemma rstrip_app_space (s w : string) :
  all_chars is_space w = true -> rstrip (s +:+ w) = rstrip s.
Proof.
  intros Hw. induction s as [|c s IH].
  - rewrite append_nil. cbn. apply rstrip_all_space, Hw.
  - rewrite append_cons. cbn. rewrite IH. reflexivity.
Qed.

Lemma lstrip_app_space (w s : string) :
  all_chars is_space w = true -> lstrip (w +:+ s) = lstrip s.
Proof.
  induction w as [|c w IH]; [reflexivity|].
  rewrite append_cons. cbn. intros [Hc Hw]%andb_true_iff.
  rewrite Hc. apply IH, Hw.
Qed.

Lemma lstrip_app_nonspace (s w : string) :
  lstrip s <> EmptyString -> lstrip (s +:+ w) = lstrip s +:+ w.
Proof.
  induction s as [|c s IH]; [contradiction|].
  rewrite append_cons. cbn. destruct (is_space c); [apply IH|].
  intros _. reflexivity.
Qed.

Lemma lstrip_all_space (w : string) :
  all_chars is_space w = true -> lstrip w = EmptyString.
Proof.
  induction w as [|c w IH]; [reflexivity|]. cbn.
  intros [Hc Hw]%andb_true_iff. rewrite Hc. apply IH, Hw.
Qed.

Lemma lstrip_empty_all_space (s : string) :
  lstrip s = EmptyString -> all_chars is_space s = true.
Proof.
  induction s as [|c s IH]; [reflexivity|]. cbn.
  destruct (is_space c); [exact IH|discriminate].
Qed.

Lemma strip_padding (w1 w2 t : string) :
  all_chars is_space w1 = true -> all_chars is_space w2 = true ->
  strip (w1 +:+ t +:+ w2) = strip t.
Proof.
  intros H1 H2. unfold strip. rewrite (lstrip_app_space w1 _ H1).
  destruct (decide (lstrip t = EmptyString)) as [He|Hne].
  - rewrite He. rewrite lstrip_all_space; [reflexivity|].
    rewrite all_chars_app, (lstrip_empty_all_space t He), H2. reflexivity.
  - rewrite (lstrip_app_nonspace t w2 Hne). apply rstrip_app_space, H2.
Qed.

(** X2.  White space around a token is ignored: a format string gives the
    same result when any token of it is padded with white space on either
    side. *)
Theorem tokenparser_padding (a b t w1 w2 : string) (keys : list string) :
  all_chars is_space w1 = true -> all_chars is_space w2 = true ->
  all_chars (fun c => negb (eqb_char c ",")) t = true ->
  tokenparser (a +:+ "," +:+ (w1 +:+ t +:+ w2) +:+ "," +:+ b) keys
  = tokenparser (a +:+ "," +:+ t +:+ "," +:+ b) keys
  /\ tokenparser (w1 +:+ t +:+ w2) keys = tokenparser t keys.
Proof.
  intros H1 H2 Ht.
  assert (Hsp : forall c, is_space c = true -> negb (eqb_char c ",") = true).
  { intros c Hc. unfold eqb_char. change (code ",") with 44.
    destruct (Z.eqb_spec (code c) 44) as [Heq|]; [|reflexivity].
    unfold is_space in Hc. rewrite Heq in Hc. discriminate. }
  assert (Hone : tokenparser (w1 +:+ t +:+ w2) keys = tokenparser t keys).
  { unfold tokenparser. rewrite !split_no_sep.
    - cbn [parse_tokens]. unfold parse_token.
      rewrite (strip_padding w1 w2 t H1 H2). reflexivity.
    - exact Ht.
    - rewrite !all_chars_app, Ht.
      rewrite (all_chars_impl _ _ w1 Hsp H1), (all_chars_impl _ _ w2 Hsp H2).
      reflexivity. }
  split; [|exact Hone].
  rewrite !tokenparser_comma.
  destruct (tokenparser a keys) as [ra|e]; cbn; [|reflexivity].
  rewrite Hone. reflexivity.
Qed.

Lemma tokenparser_padding_witness :
  tokenparser ("uint8" +:+ "," +:+ (" " +:+ "3*hex4" +:+ "  ") +:+ "," +:+ "5") []
  = tokenparser ("uint8" +:+ "," +:+ "3*hex4" +:+ "," +:+ "5") [].
Proof.
  refine (proj1 (tokenparser_padding "uint8" "5" "3*hex4" " " "  " [] _ _ _));
    reflexivity.
Defined.

Lemma append_assoc (a b c : string) : (a +:+ b) +:+ c = a +:+ b +:+ c.
Proof.
  induction a as [|x a IH]; [reflexivity|].
  rewrite !append_cons, IH. reflexivity.
Qed.

Lemma plain_token_tokenparser (t : string) (keys : list string) :
  plain_token t = true -> t ∉ keys ->
  tokenparser t keys = parse_element 1 t (false, []).
Proof.
  intros Ht Hk.
  destruct (plain_token_facts t Ht) as (Hne & Hsp & Hcomma & Hstar & Hnl).
  unfold tokenparser. rewrite split_no_sep by exact Hcomma.
  cbn [parse_tokens]. unfold parse_token.
  rewrite strip_no_space by exact Hsp.
  rewrite bool_decide_eq_false_2 by exact Hk.
  unfold MULTIPLICATIVE_RE. rewrite span_all by exact Hnl. cbn [fst].
  rewrite last_star_none by exact Hstar.
  destruct (parse_element 1 t (false, [])); reflexivity.
Qed.

(** X3.  A hexadecimal, octal or binary literal is never tokenized: the
    pattern for literals has three groups and the code unpacks them into two
    names, so a literal token that is no key raises [ValueError], alone and
    anywhere in a format string whose earlier tokens parse. *)
Theorem tokenparser_literal_raises (c : ascii) (v : string) (keys : list string) :
  String c EmptyString ∈ ["x"; "o"; "b"; "X"; "O"; "B"] ->
  plain_token v = true ->
  String "0" (String c v) ∉ keys ->
  tokenparser (String "0" (String c v)) keys = Raise ValueError
  /\ (forall a b ra, tokenparser a keys = Ok ra ->
        tokenparser (a +:+ "," +:+ String "0" (String c v) +:+ "," +:+ b) keys
        = Raise ValueError).
Proof.
  intros Hc Hv Hk.
  assert (Hlit : tokenparser (String "0" (String c v)) keys = Raise ValueError).
  { rewrite plain_token_tokenparser; [| |exact Hk].
    - destruct (plain_token_facts v Hv) as (Hne & _ & _ & _ & Hnl).
      unfold parse_element.
      change (NAME_INT_RE (String "0" (String c v))) with (@None (string * string)).
      unfold LITERAL_RE. rewrite span_all by exact Hnl. cbn [fst].
      rewrite Hne.
      repeat (apply elem_of_cons in Hc as [Hc|Hc];
              [injection Hc as ->; reflexivity|]).
      inversion Hc.
    - unfold plain_token in *. cbn [is_empty negb andb all_chars].
      apply andb_true_iff in Hv as [_ Hv]. rewrite Hv.
      repeat (apply elem_of_cons in Hc as [Hc|Hc];
              [injection Hc as ->; reflexivity|]).
      inversion Hc. }
  split; [exact Hlit|].
  intros a b ra Ha. rewrite tokenparser_comma, Ha. cbn.
  rewrite tokenparser_comma, Hlit. reflexivity.
Qed.

Lemma tokenparser_literal_raises_witness :
  tokenparser (String "0" (String "x" "ff")) [] = Raise ValueError.
Proof.
  refine (proj1 (tokenparser_literal_raises "x" "ff" [] _ _ _)).
  - apply elem_of_cons. left. reflexivity.
  - reflexivity.
  - apply not_elem_of_nil.
Defined.

Ltac split_comparisons :=
  repeat match goal with
         | |- context [?a <=? ?b] => destruct (Z.leb_spec a b)
         | |- context [?a =? ?b] => destruct (Z.eqb_spec a b)
         end;
  cbn; try reflexivity; try lia.

Lemma word_char_facts (c : ascii) :
  is_alpha c || (code c =? 95) = true ->
  is_digit c = false /\ (code c =? 58) = false /\ is_newline c = false
  /\ is_name_char c = true
  /\ negb (is_space c || (code c =? 44) || (code c =? 42)) = true.
Proof.
  intros H.
  assert (Hr : (65 <= code c <= 90) \/ (97 <= code c <= 122) \/ code c = 95).
  { unfold is_alpha in H. revert H. split_comparisons. }
  clear H. unfold is_newline, is_name_char, is_space, is_alpha, is_digit.
  repeat split; split_comparisons.
Qed.

Lemma is_digit_code_above (c : ascii) (n : Z) :
  is_digit c = true -> 57 < n -> (code c =? n) = false.
Proof.
  unfold is_digit. intros [_ H2]%andb_true_iff Hn.
  apply Z.leb_le in H2. apply Z.eqb_neq. lia.
Qed.

Lemma colon_digits_digits (ds : string) :
  all_chars is_digit ds = true ->
  colon_digits ds = Some ds /\ colon_digits (":" +:+ ds) = Some ds.
Proof.
  intros Hd. split.
  - unfold colon_digits. destruct ds as [|c ds]; [reflexivity|].
    cbn in Hd. apply andb_true_iff in Hd as [Hc Hds].
    rewrite (is_digit_code_above c 58 Hc) by lia.
    rewrite span_all by (cbn; rewrite Hc, Hds; reflexivity). reflexivity.
  - unfold colon_digits. change (":" +:+ ds) with (String ":" ds).
    change (code ":" =? 58) with true. cbv iota.
    rewrite span_all by exact Hd. reflexivity.
Qed.

Lemma append_nil_r (a : string) : a +:+ EmptyString = a.
Proof.
  induction a as [|x a IH]; [reflexivity|]. rewrite append_cons, IH. reflexivity.
Qed.

Lemma name_then_digits_word (acc r tail ds : string) :
  all_chars (fun c => is_alpha c || (code c =? 95)) r = true ->
  colon_digits tail = Some ds ->
  name_then_digits acc (r +:+ tail) = Some (acc +:+ r, ds).
Proof.
  intros Hr Htail. revert acc.
  induction r as [|c r IH]; intros acc.
  - rewrite append_nil, append_nil_r.
    destruct tail; cbn [name_then_digits]; rewrite Htail; reflexivity.
  - cbn in Hr. apply andb_true_iff in Hr as [Hc Hr].
    destruct (word_char_facts c Hc) as (Hd & H58 & Hnl & Hname & _).
    rewrite append_cons. cbn [name_then_digits].
    assert (Hnone : colon_digits (String c (r +:+ tail)) = None).
    { unfold colon_digits. rewrite H58. cbn [span]. rewrite Hd.
      unfold at_end. destruct (r +:+ tail); [rewrite Hnl|]; reflexivity. }
    rewrite Hnone, Hname, (IH Hr). rewrite append_assoc. reflexivity.
Qed.

Lemma NAME_INT_RE_word (name ds : string) :
  is_word name = true -> all_chars is_digit ds = true ->
  NAME_INT_RE (name +:+ ds) = Some (name, ds)
  /\ NAME_INT_RE (name +:+ ":" +:+ ds) = Some (name, ds).
Proof.
  intros Hw Hd. destruct name as [|c r]; [discriminate|].
  cbn in Hw. apply andb_true_iff in Hw as [Hc Hr].
  destruct (colon_digits_digits ds Hd) as [H1 H2].
  rewrite !append_cons. unfold NAME_INT_RE. rewrite Hc. split.
  - rewrite (name_then_digits_word _ r ds ds Hr H1). reflexivity.
  - rewrite (name_then_digits_word _ r (":" +:+ ds) ds Hr H2). reflexivity.
Qed.

Lemma word_plain (name tail : string) :
  is_word name = true ->
  all_chars (fun c => negb (is_space c || (code c =? 44) || (code c =? 42))) tail = true ->
  plain_token (name +:+ tail) = true.
Proof.
  intros Hw Ht. destruct name as [|c r]; [discriminate|].
  cbn in Hw. apply andb_true_iff in Hw as [Hc Hr].
  unfold plain_token. rewrite append_cons. cbn [is_empty negb andb all_chars].
  rewrite all_chars_app, Ht, andb_true_r.
  assert (Hc' : is_alpha c || (code c =? 95) = true) by (rewrite Hc; reflexivity).
  destruct (word_char_facts c Hc') as (_ & _ & _ & _ & ->). cbn.
  eapply all_chars_impl; [|exact Hr]. intros x Hx. apply word_char_facts, Hx.
Qed.

Lemma digits_plain_chars (ds : string) :
  all_chars is_digit ds = true ->
  all_chars (fun c => negb (is_space c || (code c =? 44) || (code c =? 42))) ds = true.
Proof.
  apply all_chars_impl. intros c Hc.
  rewrite (is_digit_not_space c Hc), (is_digit_code c 44 Hc), (is_digit_code c 42 Hc) by lia.
  reflexivity.
Qed.

(** X4.  A name of letters followed by digits is one token, the name with
    the number as its length, and a colon between the two changes nothing;
    without digits the length is [None]. *)
Theorem tokenparser_name_length (name ds : string) (keys : list string) :
  is_word name = true -> all_chars is_digit ds = true ->
  name +:+ ds ∉ keys -> name +:+ ":" +:+ ds ∉ keys ->
  let length := if is_empty ds then None else Some (decimal ds) in
  tokenparser (name +:+ ds) keys = Ok (false, [(name, length, None)])
  /\ tokenparser (name +:+ ":" +:+ ds) keys = Ok (false, [(name, length, None)]).
Proof.
  intros Hw Hd Hk1 Hk2 length.
  destruct (NAME_INT_RE_word name ds Hw Hd) as [H1 H2].
  assert (Hlen : (if is_empty ds then Ok None else Some <$> py_int ds) = Ok length).
  { unfold length. destruct ds as [|c r]; [reflexivity|].
    cbn [is_empty]. rewrite py_int_digits; [reflexivity|].
    unfold is_digits. rewrite Hd. reflexivity. }
  split.
  - rewrite plain_token_tokenparser; [| |exact Hk1].
    + unfold parse_element. rewrite H1, Hlen. reflexivity.
    + apply word_plain; [exact Hw|apply digits_plain_chars, Hd].
  - rewrite plain_token_tokenparser; [| |exact Hk2].
    + unfold parse_element. rewrite H2, Hlen. reflexivity.
    + apply word_plain; [exact Hw|].
      change (":" +:+ ds) with (String ":" ds). cbn [all_chars].
      rewrite (digits_plain_chars ds Hd). reflexivity.
Qed.

Lemma tokenparser_name_length_witness :
  tokenparser ("floatle" +:+ ":" +:+ "32") ["pad"]
  = Ok (false, [("floatle", Some 32, None)]).
Proof.
  refine (proj2 (tokenparser_name_length "floatle" "32" ["pad"] _ _ _ _));
    try reflexivity; vm_compute; intros H; inversion H as [|? ? ? H']; inversion H'.
Defined.

Lemma strip_final_star_app (ds : string) :
  strip_final_star (ds +:+ "*") = Some ds.
Proof.
  induction ds as [|c ds IH]; [reflexivity|].
  rewrite append_cons. cbn [strip_final_star].
  destruct (ds +:+ "*") eqn:E.
  - destruct ds; discriminate.
  - rewrite IH. reflexivity.
Qed.

Lemma strip_final_star_digits (ds : string) :
  all_chars is_digit ds = true -> strip_final_star ds = None.
Proof.
  induction ds as [|c ds IH]; [reflexivity|]. cbn [all_chars strip_final_star].
  intros [Hc Hds]%andb_true_iff. destruct ds as [|d ds'].
  - rewrite (is_digit_code c 42 Hc) by lia. reflexivity.
  - rewrite (IH Hds). reflexivity.
Qed.

Lemma last_star_final (ds : string) :
  all_chars (fun c => negb (code c =? 42)) ds = true ->
  last_star (ds +:+ "*") = None.
Proof.
  induction ds as [|c ds IH]; [reflexivity|].
  rewrite append_cons. cbn [all_chars last_star].
  intros [Hc Hds]%andb_true_iff. apply negb_true_iff in Hc.
  rewrite (IH Hds), Hc. reflexivity.
Qed.

Lemma span_until (p : ascii -> bool) (a : string) (c : ascii) (b : string) :
  all_chars p a = true -> p c = false ->
  span p (a +:+ String c b) = (a, String c b).
Proof.
  intros Ha Hc. induction a as [|x a IH].
  - rewrite append_nil. cbn. rewrite Hc. reflexivity.
  - rewrite append_cons. cbn in *. apply andb_true_iff in Ha as [Hx Ha].
    rewrite Hx, (IH Ha). reflexivity.
Qed.

Lemma LITERAL_RE_digits (ds tail : string) :
  is_digits ds = true ->
  match tail with
  | EmptyString => True
  | String c _ => code c = 61 \/ code c = 42
  end ->
  LITERAL_RE (ds +:+ tail) = None.
Proof.
  unfold is_digits. intros [Hne Hd]%andb_true_iff Htail.
  assert (Hset : forall l, code l = 61 \/ code l = 42 \/ is_digit l = true ->
    ((code l =? 120) || (code l =? 111) || (code l =? 98) || (code l =? 88)
     || (code l =? 79) || (code l =? 66)) = false).
  { intros l Hl. unfold is_digit in Hl.
    assert (code l = 61 \/ code l = 42 \/ 48 <= code l <= 57) as Hr.
    { destruct Hl as [|[|Hl]]; auto. apply andb_true_iff in Hl as [H1 H2].
      apply Z.leb_le in H1, H2. auto. }
    clear Hl. split_comparisons. }
  destruct ds as [|z ds]; [discriminate|]. rewrite append_cons.
  unfold LITERAL_RE. destruct (ds +:+ tail) as [|l v] eqn:E; [reflexivity|].
  rewrite Hset; [rewrite andb_false_r; reflexivity|].
  destruct ds as [|d ds'].
  - rewrite append_nil in E. subst tail. destruct Htail; auto.
  - rewrite append_cons in E. injection E as <- _.
    cbn in Hd. apply andb_true_iff in Hd as [_ Hd].
    apply andb_true_iff in Hd as [Hd _]. auto.
Qed.

Lemma NAME_INT_RE_nonalpha (c : ascii) (r : string) :
  is_alpha c = false -> NAME_INT_RE (String c r) = None.
Proof. intros H. unfold NAME_INT_RE. rewrite H. reflexivity. Qed.

Lemma is_digit_not_alpha (c : ascii) : is_digit c = true -> is_alpha c = false.
Proof. unfold is_digit, is_alpha. split_comparisons; discriminate. Qed.

Lemma alpha_first_not_key (keys : list string) (c : ascii) (r : string) :
  (forall k, k ∈ keys -> exists x y, k = String x y /\ is_alpha x = true) ->
  is_alpha c = false -> String c r ∉ keys.
Proof.
  intros Hkeys Hc Hin. destruct (Hkeys _ Hin) as (x & y & [= <- <-] & Hx).
  congruence.
Qed.

(** The path of a token that starts with no letter and is no literal, up to
    the pattern for default tokens. *)
Lemma default_path (keys : list string) (t : string) :
  (forall k, k ∈ keys -> exists x y, k = String x y /\ is_alpha x = true) ->
  (exists c r, t = String c r /\ is_alpha c = false) ->
  all_chars (fun c => negb (is_space c)) t = true ->
  all_chars (fun c => negb (eqb_char c ",")) t = true ->
  all_chars not_newline t = true ->
  last_star t = None ->
  LITERAL_RE t = None ->
  tokenparser t keys
  = match DEFAULT_BITS t with
    | Some (length, value) =>
        let '(stretchy_token, length) :=
          match length with
          | Some l =>
              match strip_final_star l with
              | Some l' => (true, Some l')
              | None => (false, Some l)
              end
          | None => (false, None)
          end in
        length ← match length with
                 | Some l => Some <$> py_int l
                 | None => Ok None
                 end;
        Ok (stretchy_token, [("bits", length, value)])
    | None => Ok (false, [])
    end.
Proof.
  intros Hkeys (c & r & -> & Hc) Hsp Hcomma Hnl Hstar Hlit.
  unfold tokenparser. rewrite split_no_sep by exact Hcomma.
  cbn [parse_tokens]. unfold parse_token.
  rewrite strip_no_space by exact Hsp.
  rewrite bool_decide_eq_false_2 by (apply alpha_first_not_key; assumption).
  unfold MULTIPLICATIVE_RE. rewrite span_all by exact Hnl. cbn [fst].
  rewrite Hstar. unfold parse_element.
  rewrite (NAME_INT_RE_nonalpha c r Hc), Hlit. cbn [is_empty].
  destruct (DEFAULT_BITS (String c r)) as [[len value]|]; [|reflexivity].
  destruct (match len with
            | Some l => match strip_final_star l with
                        | Some l' => (true, Some l')
                        | None => (false, Some l)
                        end
            | None => (false, None)
            end) as [st len'].
  destruct (match len' with Some l => Some <$> py_int l | None => Ok None end);
    reflexivity.
Qed.

Lemma digits_first (ds tail : string) :
  is_digits ds = true ->
  exists c r, ds +:+ tail = String c r /\ is_alpha c = false.
Proof.
  unfold is_digits. intros [Hne Hd]%andb_true_iff.
  destruct ds as [|d ds0]; [discriminate|].
  exists d, (ds0 +:+ tail). split; [reflexivity|].
  apply is_digit_not_alpha. cbn in Hd. apply andb_true_iff in Hd as [Hd _]. exact Hd.
Qed.

Lemma is_empty_app (a b : string) :
  is_empty a = false -> is_empty (a +:+ b) = false.
Proof. destruct a; [discriminate|reflexivity]. Qed.

(** X5.  When every key starts with a letter: a bare number is a [bits]
    token of that length; a star after the number sets the stretchy flag
    and is dropped; an equals sign starts the value, which is kept as it is
    written. *)
Theorem tokenparser_default_tokens (ds v : string) (keys : list string) :
  (forall k, k ∈ keys -> exists x y, k = String x y /\ is_alpha x = true) ->
  is_digits ds = true ->
  all_chars (fun c => negb (is_space c || (code c =? 44) || (code c =? 42))) v = true ->
  tokenparser ds keys = Ok (false, [("bits", Some (decimal ds), None)])
  /\ tokenparser (ds +:+ "*") keys = Ok (true, [("bits", Some (decimal ds), None)])
  /\ tokenparser ("=" +:+ v) keys = Ok (false, [("bits", None, Some v)])
  /\ tokenparser (ds +:+ "=" +:+ v) keys
     = Ok (false, [("bits", Some (decimal ds), Some v)]).
Proof.
  intros Hkeys Hds Hv.
  pose proof Hds as Hds'. unfold is_digits in Hds'.
  apply andb_true_iff in Hds' as [Hne Hd]. apply negb_true_iff in Hne.
  destruct (digits_facts ds Hds) as (Hdsp & Hdcomma & Hdnl).
  assert (Hdstar : all_chars (fun c => negb (code c =? 42)) ds = true).
  { eapply all_chars_impl; [|exact Hd]. intros c Hc.
    rewrite (is_digit_code c 42 Hc) by lia. reflexivity. }
  assert (Hdeq : all_chars (fun c => negb (code c =? 61)) ds = true).
  { eapply all_chars_impl; [|exact Hd]. intros c Hc.
    rewrite (is_digit_code_above c 61 Hc) by lia. reflexivity. }
  assert (Hvsp : all_chars (fun c => negb (is_space c)) v = true
                 /\ all_chars (fun c => negb (eqb_char c ",")) v = true
                 /\ all_chars (fun c => negb (code c =? 42)) v = true
                 /\ all_chars not_newline v = true).
  { repeat split; (eapply all_chars_impl; [|exact Hv]); intros c Hc;
      apply negb_true_iff in Hc; apply orb_false_iff in Hc as [Hc H42];
      apply orb_false_iff in Hc as [Hsp H44].
    - rewrite Hsp. reflexivity.
    - unfold eqb_char. change (code ",") with 44. rewrite H44. reflexivity.
    - rewrite H42. reflexivity.
    - unfold not_newline, is_newline. apply negb_true_iff, Z.eqb_neq.
      intros Heq. unfold is_space in Hsp. rewrite Heq in Hsp. discriminate. }
  destruct Hvsp as (Hvs & Hvc & Hvstar & Hvnl).
  assert (Hint : py_int ds = Ok (decimal ds)) by (apply py_int_digits, Hds).
  split; [|split; [|split]].
  - rewrite (default_path keys ds Hkeys).
    + unfold DEFAULT_BITS. rewrite span_all by exact Hdeq. rewrite Hne.
      rewrite strip_final_star_digits by exact Hd. rewrite Hint. reflexivity.
    + rewrite <- (append_nil_r ds). apply digits_first, Hds.
    + exact Hdsp.
    + exact Hdcomma.
    + exact Hdnl.
    + apply last_star_none, Hdstar.
    + rewrite <- (append_nil_r ds). apply LITERAL_RE_digits; [exact Hds|exact I].
  - rewrite (default_path keys (ds +:+ "*") Hkeys).
    + unfold DEFAULT_BITS. rewrite span_all
        by (rewrite all_chars_app, Hdeq; reflexivity).
      rewrite (is_empty_app ds "*" Hne).
      rewrite strip_final_star_app, Hint. reflexivity.
    + apply digits_first, Hds.
    + rewrite all_chars_app, Hdsp. reflexivity.
    + rewrite all_chars_app, Hdcomma. reflexivity.
    + rewrite all_chars_app, Hdnl. reflexivity.
    + apply last_star_final, Hdstar.
    + apply LITERAL_RE_digits; [exact Hds|]. right. reflexivity.
  - change ("=" +:+ v) with (String "=" v).
    rewrite (default_path keys (String "=" v) Hkeys).
    + unfold DEFAULT_BITS. cbn [span]. change (negb (code "=" =? 61)) with false.
      cbv iota. cbn [is_empty]. rewrite span_all by exact Hvnl. reflexivity.
    + exists "="%char, v. split; reflexivity.
    + cbn [all_chars]. rewrite Hvs. reflexivity.
    + cbn [all_chars]. rewrite Hvc. reflexivity.
    + cbn [all_chars]. rewrite Hvnl. reflexivity.
    + apply last_star_none. cbn [all_chars]. rewrite Hvstar. reflexivity.
    + unfold LITERAL_RE. destruct v; reflexivity.
  - change ("=" +:+ v) with (String "=" v).
    rewrite (default_path keys (ds +:+ String "=" v) Hkeys).
    + unfold DEFAULT_BITS. rewrite span_until; [|exact Hdeq|reflexivity].
      rewrite Hne. rewrite span_all by exact Hvnl. cbn [at_end].
      rewrite strip_final_star_digits by exact Hd. rewrite Hint. reflexivity.
    + apply digits_first, Hds.
    + rewrite all_chars_app, Hdsp. cbn [all_chars]. rewrite Hvs. reflexivity.
    + rewrite all_chars_app, Hdcomma. cbn [all_chars]. rewrite Hvc. reflexivity.
    + rewrite all_chars_app, Hdnl. cbn [all_chars]. rewrite Hvnl. reflexivity.
    + apply last_star_none. rewrite all_chars_app, Hdstar. cbn [all_chars].
      rewrite Hvstar. reflexivity.
    + apply LITERAL_RE_digits; [exact Hds|]. left. reflexivity.
Qed.

Lemma tokenparser_default_tokens_witness :
  tokenparser ("12" +:+ "=" +:+ "0b101") ["pad"]
  = Ok (false, [("bits", Some 12, Some "0b101")]).
Proof.
  refine (proj2 (proj2 (proj2 (tokenparser_default_tokens "12" "0b101" ["pad"] _ _ _))));
    try reflexivity.
  intros k [->|Hk]%elem_of_cons; [|inversion Hk].
  do 2 eexists. split; reflexivity.
Defined.

End tokenizer_laws.

(** ** Bracket expansion *)

Section brackets.
Import PyStr Utils.

Lemma length_append (a b : string) :
  String.length (a +:+ b) = (String.length a + String.length b)%nat.
Proof.
  induction a as [|c a IH]; [reflexivity|].
  rewrite append_cons. cbn. rewrite IH. reflexivity.
Qed.

Lemma take_append (a b : string) (n : nat) :
  PyStr.take (String.length a + n) (a +:+ b) = a +:+ PyStr.take n b.
Proof.
  induction a as [|c a IH]; [reflexivity|].
  rewrite !append_cons. cbn. rewrite IH. reflexivity.
Qed.

Lemma take_length (a b : string) : PyStr.take (String.length a) (a +:+ b) = a.
Proof.
  rewrite <- (Nat.add_0_r (String.length a)), take_append.
  destruct b; cbn; apply append_nil_r.
Qed.

Lemma drop_append (a b : string) (n : nat) :
  PyStr.drop (String.length a + n) (a +:+ b) = PyStr.drop n b.
Proof.
  induction a as [|c a IH]; [reflexivity|].
  rewrite append_cons. cbn. exact IH.
Qed.

Lemma take_all (a : string) : PyStr.take (String.length a) a = a.
Proof. induction a as [|c a IH]; [reflexivity|]. cbn. rewrite IH. reflexivity. Qed.

Lemma count_char_app (c : ascii) (a b : string) :
  count_char c (a +:+ b) = (count_char c a + count_char c b)%nat.
Proof.
  induction a as [|x a IH]; [reflexivity|].
  rewrite append_cons. cbn. rewrite IH. lia.
Qed.

Lemma count_char_none (c : ascii) (a : string) :
  all_chars (fun x => negb (eqb_char x c)) a = true -> count_char c a = 0%nat.
Proof.
  induction a as [|x a IH]; [reflexivity|]. cbn.
  intros [Hx Ha]%andb_true_iff. apply negb_true_iff in Hx.
  rewrite Hx, (IH Ha). reflexivity.
Qed.

Lemma index_from_skip (c : ascii) (a b : string) :
  index_from c (String.length a) (a +:+ b)
  = (fun i => (String.length a + i)%nat) <$> index_from c 0 b.
Proof.
  induction a as [|x a IH].
  - rewrite append_nil. cbn. destruct (index_from c 0 b); reflexivity.
  - rewrite append_cons. cbn. rewrite IH.
    destruct (index_from c 0 b); reflexivity.
Qed.

Lemma index_from_first (c : ascii) (a b : string) :
  all_chars (fun x => negb (eqb_char x c)) a = true ->
  index_from c 0 (a +:+ String c b) = Some (String.length a).
Proof.
  induction a as [|x a IH].
  - intros _. rewrite append_nil. cbn. unfold eqb_char. rewrite Z.eqb_refl.
    reflexivity.
  - rewrite append_cons. cbn. intros [Hx Ha]%andb_true_iff.
    apply negb_true_iff in Hx. rewrite Hx, (IH Ha). reflexivity.
Qed.

Lemma index_from_absent (c : ascii) (n : nat) (a : string) :
  all_chars (fun x => negb (eqb_char x c)) a = true -> index_from c n a = None.
Proof.
  revert n. induction a as [|x a IH]; intros n; [reflexivity|]. cbn.
  intros [Hx Ha]%andb_true_iff. apply negb_true_iff in Hx.
  destruct n; [rewrite Hx|]; rewrite (IH _ Ha); reflexivity.
Qed.

Lemma span_rest_all (p q : ascii -> bool) (s : string) :
  all_chars q s = true -> all_chars q (snd (span p s)) = true.
Proof.
  induction s as [|c s IH]; [reflexivity|]. cbn [span all_chars].
  intros [Hc Hs]%andb_true_iff. destruct (p c).
  - destruct (span p s) as [a b]. exact (IH Hs).
  - cbn. rewrite Hc, Hs. reflexivity.
Qed.

Lemma bracket_at_no_open (s : string) :
  all_chars no_open s = true -> bracket_at s = None.
Proof.
  intros Hs. unfold bracket_at.
  pose proof (span_rest_all is_digit no_open s Hs) as Hrest.
  destruct (span is_digit s) as [ds rest]. cbn [snd] in Hrest.
  destruct (is_empty ds); [reflexivity|].
  destruct rest as [|a [|b r]]; try reflexivity.
  cbn in Hrest. apply andb_true_iff in Hrest as [_ Hrest].
  apply andb_true_iff in Hrest as [Hb _].
  unfold no_open in Hb. apply negb_true_iff in Hb. rewrite Hb, andb_false_r.
  reflexivity.
Qed.

Lemma search_no_open (s : string) :
  all_chars no_open s = true -> BRACKET_RE_search s = None.
Proof.
  induction s as [|c s IH]; intros Hs.
  - reflexivity.
  - cbn [BRACKET_RE_search]. rewrite (bracket_at_no_open _ Hs).
    cbn in Hs. apply andb_true_iff in Hs as [_ Hs]. rewrite (IH Hs). reflexivity.
Qed.

Lemma bracket_at_group (ds rest : string) :
  is_digits ds = true ->
  bracket_at (ds +:+ "*(" +:+ rest) = Some (ds, rest).
Proof.
  unfold is_digits. intros [Hne Hd]%andb_true_iff. apply negb_true_iff in Hne.
  unfold bracket_at. change ("*(" +:+ rest) with (String "*" (String "(" rest)).
  rewrite span_until; [|exact Hd|reflexivity]. rewrite Hne. reflexivity.
Qed.

(** Inside a prefix that holds no opening bracket and does not end in a
    digit no match starts, when a digit follows the prefix. *)
Lemma bracket_at_prefix (c : ascii) (p rest : string) (d : ascii) (rest' : string) :
  all_chars no_open (String c p) = true ->
  last_is_digit (String c p) = false ->
  rest = String d rest' -> is_digit d = true ->
  bracket_at (String c p +:+ rest) = None.
Proof.
  intros Hopen Hlast -> Hd.
  assert (Hspan : exists ds r x, span is_digit (String c p +:+ String d rest')
                               = (ds, String x r)
      /\ match r with
         | EmptyString => False
         | String y _ => no_open y = true
         end).
  { revert c Hopen Hlast. induction p as [|c' p IH]; intros c Hopen Hlast.
    - rewrite append_cons, append_nil. cbn in Hlast. cbn [span]. rewrite Hlast.
      exists EmptyString, (String d rest'), c. split; [reflexivity|].
      unfold no_open. rewrite (is_digit_code d 40 Hd) by lia. reflexivity.
    - rewrite append_cons. cbn [span].
      cbn [all_chars] in Hopen. apply andb_true_iff in Hopen as [Hc Hopen].
      destruct (is_digit c) eqn:Hdc.
      + destruct (IH c' Hopen Hlast) as (ds & r & x & Hs & Hr).
        rewrite Hs. exists (String c ds), r, x. split; [reflexivity|exact Hr].
      + exists EmptyString, (String c' p +:+ String d rest'), c.
        split; [reflexivity|]. rewrite append_cons.
        cbn [all_chars] in Hopen. apply andb_true_iff in Hopen as [Hc' _].
        exact Hc'. }
  destruct Hspan as (ds & r & x & Hs & Hr).
  unfold bracket_at. rewrite Hs. destruct (is_empty ds); [reflexivity|].
  destruct r as [|y r']; [contradiction|].
  unfold no_open in Hr. apply negb_true_iff in Hr. rewrite Hr, andb_false_r.
  reflexivity.
Qed.

Lemma search_prefix (pre ds rest : string) :
  all_chars no_open pre = true -> last_is_digit pre = false ->
  is_digits ds = true ->
  BRACKET_RE_search (pre +:+ ds +:+ "*(" +:+ rest) = Some (String.length pre, ds).
Proof.
  intros Hopen Hlast Hds.
  induction pre as [|c p IH].
  - rewrite append_nil. destruct ds as [|d ds'] eqn:E; [discriminate|].
    rewrite <- E in *. 
    assert (Hat := bracket_at_group ds rest Hds).
    rewrite E in Hat |- *. rewrite append_cons in Hat |- *.
    cbn [BRACKET_RE_search]. rewrite Hat. reflexivity.
  - pose proof Hds as Hds'. unfold is_digits in Hds'.
    apply andb_true_iff in Hds' as [Hne Hd].
    destruct ds as [|d ds'] eqn:E; [discriminate|]. rewrite <- E in *.
    assert (Hd0 : is_digit d = true).
    { rewrite E in Hd. cbn in Hd. apply andb_true_iff in Hd as [Hd _]. exact Hd. }
    assert (Hnone : bracket_at (String c p +:+ ds +:+ "*(" +:+ rest) = None).
    { apply (bracket_at_prefix c p _ d (ds' +:+ "*(" +:+ rest)); auto.
      rewrite E. reflexivity. }
    rewrite append_cons in Hnone |- *. cbn [BRACKET_RE_search]. rewrite Hnone.
    rewrite IH.
    + reflexivity.
    + cbn [all_chars] in Hopen. apply andb_true_iff in Hopen as [_ H]. exact H.
    + destruct p; [reflexivity|exact Hlast].
Qed.

Lemma py_repeat_single {A} (x : A) (n : Z) :
  py_repeat [x] n = replicate (Z.to_nat n) x.
Proof.
  unfold py_repeat. induction (Z.to_nat n) as [|k IH]; [reflexivity|].
  cbn. rewrite IH. reflexivity.
Qed.

Lemma all_chars_join (p : ascii -> bool) (sub : string) (k : nat) :
  all_chars p sub = true -> p ","%char = true ->
  all_chars p (join "," (replicate k sub)) = true.
Proof.
  intros Hs Hc. induction k as [|k IH]; [reflexivity|].
  cbn [replicate join]. destruct (replicate k sub) eqn:E; [exact Hs|].
  rewrite !all_chars_app, Hs, IH. cbn. rewrite Hc. reflexivity.
Qed.

(** X6.  A string without an opening bracket is returned as it is.  A
    bracket group [N*(sub)] whose content holds no bracket is replaced by
    [N] copies of the content joined by commas, whatever stands before and
    after it, and a group that is never closed raises [ValueError]. *)
Theorem expand_brackets_group (pre ds sub post : string) :
  all_chars no_open pre = true -> last_is_digit pre = false ->
  is_digits ds = true ->
  all_chars no_open sub = true -> all_chars no_close sub = true ->
  all_chars no_open post = true ->
  expand_brackets (pre +:+ post) = Some (Ok (pre +:+ post))
  /\ expand_brackets (pre +:+ ds +:+ "*(" +:+ sub +:+ ")" +:+ post)
     = Some (Ok (pre +:+ join "," (py_repeat [sub] (decimal ds)) +:+ post))
  /\ expand_brackets (pre +:+ ds +:+ "*(" +:+ sub) = Some (Raise ValueError).
Proof.
  intros Hpre Hlast Hds Hsub Hsubc Hpost.
  assert (Hd : all_chars is_digit ds = true).
  { unfold is_digits in Hds. apply andb_true_iff in Hds as [_ H]. exact H. }
  assert (Hdclose : all_chars no_close ds = true).
  { eapply all_chars_impl; [|exact Hd]. intros c Hc. unfold no_close, eqb_char.
    change (code ")") with 41. rewrite (is_digit_code c 41 Hc) by lia. reflexivity. }
  split; [|split].
  - unfold expand_brackets.
    assert (Hnone : BRACKET_RE_search (pre +:+ post) = None).
    { apply search_no_open. rewrite all_chars_app, Hpre, Hpost. reflexivity. }
    destruct (count_char ")" (pre +:+ post)); cbn [expand_loop]; rewrite Hnone;
      reflexivity.
  - unfold expand_brackets.
    set (s := pre +:+ ds +:+ "*(" +:+ sub +:+ ")" +:+ post).
    assert (Hcount : exists k, count_char ")" s = S k).
    { unfold s. rewrite !count_char_app.
      change (count_char ")" ")") with 1%nat.
      exists (count_char ")" pre + (count_char ")" ds + (count_char ")" "*("
              + (count_char ")" sub + count_char ")" post))))%nat. lia. }
    destruct Hcount as [k ->]. cbn [expand_loop].
    unfold s at 1. rewrite (search_prefix pre ds _ Hpre Hlast Hds).
    assert (Hidx : index_from ")" (String.length pre) s
                   = Some (String.length pre + (String.length ds + 2 + String.length sub))%nat).
    { unfold s. rewrite index_from_skip.
      replace (ds +:+ "*(" +:+ sub +:+ ")" +:+ post)
        with ((ds +:+ "*(" +:+ sub) +:+ String ")" post)
        by (rewrite !append_assoc; reflexivity).
      rewrite index_from_first.
      - rewrite !length_append. cbn. do 2 f_equal. lia.
      - rewrite !all_chars_app. fold no_close. rewrite Hdclose, Hsubc. reflexivity. }
    unfold expand_once. rewrite (py_int_digits ds Hds). cbn [mbind result_bind].
    rewrite Hidx.
    assert (Htake : PyStr.take (String.length pre + (String.length ds + 2 + String.length sub)) s
                    = pre +:+ ds +:+ "*(" +:+ sub).
    { unfold s. rewrite take_append.
      replace (ds +:+ "*(" +:+ sub +:+ ")" +:+ post)
        with ((ds +:+ "*(" +:+ sub) +:+ ")" +:+ post)
        by (rewrite !append_assoc; reflexivity).
      replace (String.length ds + 2 + String.length sub)%nat
        with (String.length (ds +:+ "*(" +:+ sub))
        by (rewrite !length_append; cbn; lia).
      rewrite take_length. reflexivity. }
    rewrite Htake.
    assert (Hsubeq : PyStr.drop (String.length pre + (String.length ds + 2))
                       (pre +:+ ds +:+ "*(" +:+ sub) = sub).
    { rewrite drop_append.
      replace (ds +:+ "*(" +:+ sub) with ((ds +:+ "*(") +:+ sub)
        by (rewrite append_assoc; reflexivity).
      replace (String.length ds + 2)%nat with (String.length (ds +:+ "*(") + 0)%nat
        by (rewrite length_append; cbn; lia).
      rewrite drop_append. reflexivity. }
    rewrite Hsubeq.
    assert (Hpre' : PyStr.take (String.length pre) s = pre)
      by (unfold s; apply take_length).
    assert (Hpost' : PyStr.drop (String.length pre
                        + (String.length ds + 2 + String.length sub) + 1) s = post).
    { unfold s.
      replace (pre +:+ ds +:+ "*(" +:+ sub +:+ ")" +:+ post)
        with ((pre +:+ ds +:+ "*(" +:+ sub +:+ ")") +:+ post)
        by (rewrite !append_assoc; reflexivity).
      replace (String.length pre + (String.length ds + 2 + String.length sub) + 1)%nat
        with (String.length (pre +:+ ds +:+ "*(" +:+ sub +:+ ")") + 0)%nat
        by (rewrite !length_append; cbn; lia).
      rewrite drop_append. reflexivity. }
    rewrite Hpre', Hpost'.
    assert (Hnone : BRACKET_RE_search
                      (pre +:+ join "," (py_repeat [sub] (decimal ds)) +:+ post) = None).
    { apply search_no_open. rewrite !all_chars_app, Hpre, Hpost.
      rewrite py_repeat_single, all_chars_join; auto. }
    destruct k; cbn [expand_loop]; rewrite Hnone; reflexivity.
  - unfold expand_brackets.
    set (s := pre +:+ ds +:+ "*(" +:+ sub).
    assert (Hsearch : BRACKET_RE_search s = Some (String.length pre, ds))
      by (apply search_prefix; assumption).
    assert (Hidx : index_from ")" (String.length pre) s = None).
    { unfold s. rewrite index_from_skip. rewrite index_from_absent; [reflexivity|].
      rewrite !all_chars_app. fold no_close. rewrite Hdclose, Hsubc. reflexivity. }
    destruct (count_char ")" s); cbn [expand_loop]; rewrite Hsearch;
      unfold expand_once; rewrite (py_int_digits ds Hds); cbn [mbind result_bind];
      rewrite Hidx; reflexivity.
Qed.

Lemma expand_brackets_group_witness :
  expand_brackets ("bits4," +:+ "3" +:+ "*(" +:+ "uint8,hex" +:+ ")" +:+ ",pad")
  = Some (Ok ("bits4," +:+ join "," (py_repeat ["uint8,hex"] (decimal "3")) +:+ ",pad")).
Proof.
  refine (proj1 (proj2 (expand_brackets_group "bits4," "3" "uint8,hex" ",pad"
                          _ _ _ _ _ _))); reflexivity.
Defined.

Lemma index_from_split (c : ascii) (s : string) (start e : nat) :
  index_from c start s = Some e ->
  exists a m b, s = a +:+ m +:+ String c b
    /\ String.length a = start /\ String.length (a +:+ m) = e
    /\ all_chars (fun x => negb (eqb_char x c)) m = true.
Proof.
  revert start e. induction s as [|d r IH]; intros start e; [discriminate|].
  cbn [index_from]. destruct start as [|st].
  - destruct (eqb_char d c) eqn:Hd.
    + intros [= <-]. exists EmptyString, EmptyString, r.
      unfold eqb_char in Hd. apply Z.eqb_eq in Hd.
      assert (d = c) as ->.
      { unfold code in Hd. apply Nat2Z.inj in Hd.
        rewrite <- (ascii_nat_embedding d), <- (ascii_nat_embedding c), Hd.
        reflexivity. }
      repeat split.
    + destruct (index_from c 0 r) as [e'|] eqn:E; [|discriminate].
      intros [= <-]. destruct (IH 0%nat e' E) as (a & m & b & -> & Ha & Hm & Hall).
      destruct a; [|discriminate]. rewrite append_nil in *.
      exists EmptyString, (String d m), b. rewrite append_nil, append_cons.
      repeat split.
      * rewrite <- Hm. reflexivity.
      * cbn. rewrite Hd, Hall. reflexivity.
  - destruct (index_from c st r) as [e'|] eqn:E; [|discriminate].
    intros [= <-]. destruct (IH st e' E) as (a & m & b & -> & Ha & Hm & Hall).
    exists (String d a), m, b. rewrite !append_cons. repeat split.
    + rewrite <- Ha. reflexivity.
    + rewrite <- Hm. reflexivity.
    + exact Hall.
Qed.

Lemma all_chars_drop (p : ascii -> bool) (n : nat) (s : string) :
  all_chars p s = true -> all_chars p (PyStr.drop n s) = true.
Proof.
  revert n. induction s as [|c s IH]; intros n Hs; destruct n; auto.
  cbn in *. apply andb_true_iff in Hs as [_ Hs]. exact (IH n Hs).
Qed.

Lemma index_from_present (c : ascii) (s : string) (start e : nat) :
  index_from c start s = Some e -> (0 < count_char c s)%nat.
Proof.
  intros H. destruct (index_from_split c s start e H) as (a & m & b & -> & _).
  rewrite !count_char_app. cbn. unfold eqb_char. rewrite Z.eqb_refl. lia.
Qed.

(** A turn of the loop gives a string with one closing bracket less. *)
Lemma expand_once_count (s s' : string) (start : nat) (ds : string) :
  expand_once s start ds = Ok s' ->
  S (count_char ")" s') = count_char ")" s.
Proof.
  unfold expand_once. destruct (py_int ds) as [factor|]; [|discriminate].
  cbn [mbind result_bind].
  destruct (index_from ")" start s) as [e|] eqn:E; [|discriminate].
  intros [= <-].
  destruct (index_from_split ")" s start e E) as (a & m & b & -> & Ha & Hm & Hall).
  assert (Htake : PyStr.take e (a +:+ m +:+ String ")" b) = a +:+ m).
  { rewrite <- Hm. rewrite <- append_assoc. apply take_length. }
  assert (Hpre : PyStr.take start (a +:+ m +:+ String ")" b) = a).
  { rewrite <- Ha. apply take_length. }
  assert (Hpost : PyStr.drop (e + 1) (a +:+ m +:+ String ")" b) = b).
  { rewrite <- Hm. rewrite <- append_assoc.
    replace (String ")" b) with (")" +:+ b) by reflexivity.
    rewrite <- append_assoc.
    replace (String.length (a +:+ m) + 1)%nat
      with (String.length ((a +:+ m) +:+ ")") + 0)%nat
      by (rewrite !length_append; cbn; lia).
    apply drop_append. }
  rewrite Htake, Hpre, Hpost.
  assert (Hsub : all_chars no_close
                   (PyStr.drop (start + (String.length ds + 2)) (a +:+ m)) = true).
  { rewrite <- Ha. rewrite drop_append. apply all_chars_drop. exact Hall. }
  rewrite !count_char_app. cbn [count_char].
  replace (eqb_char ")" ")") with true by reflexivity.
  rewrite (count_char_none ")" m Hall).
  rewrite py_repeat_single.
  rewrite (count_char_none ")" (join "," _))
    by (apply (all_chars_join no_close); [exact Hsub|reflexivity]).
  lia.
Qed.

Lemma expand_loop_total (fuel : nat) (s : string) :
  (count_char ")" s <= fuel)%nat -> expand_loop fuel s <> None.
Proof.
  revert s. induction fuel as [|fuel IH]; intros s Hs; cbn [expand_loop];
    destruct (BRACKET_RE_search s) as [[start ds]|]; try discriminate;
    destruct (expand_once s start ds) as [s'|e] eqn:E; try discriminate;
    pose proof (expand_once_count _ _ _ _ E) as Hc.
  - lia.
  - apply IH. lia.
Qed.

(** X7.  The loop of [expand_brackets] ends on every string: each turn
    removes one closing bracket and copies none, so the string is returned,
    or [ValueError] is raised, after at most as many turns as the string has
    closing brackets. *)
Theorem expand_brackets_terminates (s : string) :
  exists r, expand_brackets s = Some r
            /\ match r with
               | Ok s' => BRACKET_RE_search s' = None
                          /\ (count_char ")" s' <= count_char ")" s)%nat
               | Raise e => e = ValueError
               end.
Proof.
  unfold expand_brackets.
  assert (H : forall fuel t, (count_char ")" t <= fuel)%nat ->
    exists r, expand_loop fuel t = Some r
      /\ match r with
         | Ok s' => BRACKET_RE_search s' = None
                    /\ (count_char ")" s' <= count_char ")" t)%nat
         | Raise e => e = ValueError
         end).
  { induction fuel as [|fuel IH]; intros t Ht; cbn [expand_loop];
      destruct (BRACKET_RE_search t) as [[start ds]|] eqn:Hs;
      try (exists (Ok t); split; [reflexivity|split; [exact Hs|lia]]);
      destruct (expand_once t start ds) as [t'|e] eqn:E.
    - pose proof (expand_once_count _ _ _ _ E). lia.
    - exists (Raise e). split; [reflexivity|].
      unfold expand_once in E. destruct (py_int ds) as [f|] eqn:Hi.
      + cbn in E. destruct (index_from ")" start t); [discriminate|].
        injection E as <-. reflexivity.
      + unfold py_int in Hi. destruct (match strip ds with
          | EmptyString => None | String c r => _ end); [discriminate|].
        injection Hi as <-. injection E as <-. reflexivity.
    - pose proof (expand_once_count _ _ _ _ E) as Hc.
      destruct (IH t') as (r & Hr & Hprop); [lia|].
      exists r. split; [exact Hr|]. destruct r; [|exact Hprop].
      destruct Hprop as [H1 H2]. split; [exact H1|lia].
    - exists (Raise e). split; [reflexivity|].
      unfold expand_once in E. destruct (py_int ds) as [f|] eqn:Hi.
      + cbn in E. destruct (index_from ")" start t); [discriminate|].
        injection E as <-. reflexivity.
      + unfold py_int in Hi. destruct (match strip ds with
          | EmptyString => None | String c r => _ end); [discriminate|].
        injection Hi as <-. injection E as <-. reflexivity. }
  apply H. lia.
Qed.

Lemma tokenparser_join (sub : string) (keys : list string) (k : nat) :
  tokenparser (join "," (replicate (S k) sub)) keys
  = r ← tokenparser sub keys; Ok (fst r, concat (replicate (S k) (snd r))).
Proof.
  induction k as [|k IH].
  - cbn [replicate join]. destruct (tokenparser sub keys) as [[st toks]|e]; cbn;
      [rewrite app_nil_r|]; reflexivity.
  - change (join "," (replicate (S (S k)) sub))
      with (sub +:+ "," +:+ join "," (replicate (S k) sub)).
    rewrite tokenparser_comma, IH.
    destruct (tokenparser sub keys) as [[st toks]|e]; cbn; [|reflexivity].
    rewrite orb_diag. reflexivity.
Qed.

(** X8.  The tokens of a bracket group [N*(sub)] whose content holds no
    bracket are, for [N] of at least one, [N] times the tokens of the
    content, with the flag of the content; an error of the content is the
    error of the group.  For [N] zero the group expands to the empty string,
    whose one empty token sets the stretchy flag when it is no key. *)
Theorem tokens_of_bracket_group (ds sub : string) (keys : list string) :
  is_digits ds = true ->
  all_chars no_open sub = true -> all_chars no_close sub = true ->
  (1 <= decimal ds ->
     expand_then_parse (ds +:+ "*(" +:+ sub +:+ ")") keys
     = Some (r ← tokenparser sub keys;
             Ok (fst r, concat (replicate (Z.to_nat (decimal ds)) (snd r)))))
  /\ (decimal ds = 0 -> EmptyString ∉ keys ->
        expand_then_parse (ds +:+ "*(" +:+ sub +:+ ")") keys = Some (Ok (true, []))).
Proof.
  intros Hds Hopen Hclose.
  pose proof (expand_brackets_group EmptyString ds sub EmptyString
                eq_refl eq_refl Hds Hopen Hclose eq_refl) as (_ & Hexp & _).
  rewrite !append_nil in Hexp. rewrite !append_nil_r in Hexp.
  unfold expand_then_parse. rewrite Hexp. cbn [mbind option_bind result_bind]. rewrite py_repeat_single.
  split.
  - intros Hn. destruct (Z.to_nat (decimal ds)) as [|k] eqn:E; [lia|].
    rewrite tokenparser_join. reflexivity.
  - intros -> Hk. change (join "," (replicate (Z.to_nat 0) sub)) with EmptyString.
    unfold tokenparser. cbn [split parse_tokens]. unfold parse_token.
    change (strip "") with EmptyString.
    rewrite bool_decide_eq_false_2 by exact Hk. reflexivity.
Qed.

Lemma tokens_of_bracket_group_witness :
  expand_then_parse ("2" +:+ "*(" +:+ "uint8,3*hex4" +:+ ")") []
  = Some (r ← tokenparser "uint8,3*hex4" [];
          Ok (fst r, concat (replicate (Z.to_nat (decimal "2")) (snd r)))).
Proof.
  refine (proj1 (tokens_of_bracket_group "2" "uint8,3*hex4" [] _ _ _) _);
    try reflexivity. vm_compute. discriminate.
Defined.







End brackets.

(** ** The struct-like codes *)

Section struct_codes.
Import PyStr Utils.

Lemma struct_table_cases (host : byteorder) (endian : option string) :
  struct_table host endian = REPLACEMENTS_BE
  \/ struct_table host endian = REPLACEMENTS_LE
  \/ struct_table host endian = REPLACEMENTS_NE.
Proof.
  unfold struct_table.
  destruct (_ || _); [auto|]. destruct (_ || _); auto.
Qed.

Lemma struct_table_little (endian : option string) :
  endian <> Some ">" -> struct_table little endian = REPLACEMENTS_LE.
Proof.
  intros H. unfold struct_table.
  repeat case_bool_decide; try congruence; reflexivity.
Qed.

Lemma struct_table_big (endian : option string) :
  endian <> Some "<" -> endian <> Some "=" ->
  struct_table big endian = REPLACEMENTS_BE.
Proof.
  intros H1 H2. unfold struct_table.
  repeat case_bool_decide; try congruence; reflexivity.
Qed.

(** X9.  The byte order that [structparser] uses.  The marker [>] gives the
    big-endian names and [<] the little-endian names on every host.  On a
    little-endian host every other marker, and none, gives the little-endian
    names as well; on a big-endian host they give the big-endian names,
    except [=], the one case in which the native-endian names are used. *)
Theorem structparser_byte_order (host : byteorder) (endian : option string)
    (fmt : string) :
  structparser host (Some ">") fmt = struct_loop REPLACEMENTS_BE (STRUCT_SPLIT_RE_findall fmt) []
  /\ structparser host (Some "<") fmt = struct_loop REPLACEMENTS_LE (STRUCT_SPLIT_RE_findall fmt) []
  /\ (endian <> Some ">" ->
        structparser little endian fmt = structparser little (Some "<") fmt)
  /\ (endian <> Some "<" -> endian <> Some "=" ->
        structparser big endian fmt = structparser big (Some ">") fmt)
  /\ structparser big (Some "=") fmt
     = struct_loop REPLACEMENTS_NE (STRUCT_SPLIT_RE_findall fmt) [].
Proof.
  unfold structparser. split; [|split; [|split; [|split]]].
  - destruct host; reflexivity.
  - destruct host; reflexivity.
  - intros H. rewrite (struct_table_little endian H). reflexivity.
  - intros H1 H2. rewrite (struct_table_big endian H1 H2). reflexivity.
  - reflexivity.
Qed.

Lemma structparser_byte_order_witness :
  structparser little (Some "@") "2hQ" = structparser little (Some "<") "2hQ".
Proof.
  refine (proj1 (proj2 (proj2 (structparser_byte_order little (Some "@") "2hQ"))) _).
  discriminate.
Defined.

Lemma struct_loop_acc (tbl : gmap string string) (codes : list string) (acc : list string) :
  struct_loop tbl codes acc = (fun l => acc ++ l) <$> struct_loop tbl codes [].
Proof.
  revert acc. induction codes as [|code codes IH]; intros acc.
  { cbn. rewrite app_nil_r. reflexivity. }
  cbn [struct_loop]. destruct code as [|c r]; [reflexivity|].
  destruct (is_digit c).
  - destruct (py_int (but_last (String c r))) as [n|e]; [|reflexivity].
    destruct (getitem tbl (last_char (String c r))) as [tok|e]; [|reflexivity].
    cbn [mbind result_bind app].
    rewrite (IH (acc ++ py_repeat [tok] n)), (IH (py_repeat [tok] n)).
    destruct (struct_loop tbl codes []); [|reflexivity].
    cbn [fmap result_fmap]. rewrite <- app_assoc. reflexivity.
  - destruct (getitem tbl (String c r)) as [tok|e]; [|reflexivity].
    cbn [mbind result_bind app].
    rewrite (IH (acc ++ [tok])), (IH [tok]).
    destruct (struct_loop tbl codes []); [|reflexivity].
    cbn [fmap result_fmap]. rewrite <- app_assoc. reflexivity.
Qed.

Lemma struct_loop_app (tbl : gmap string string) (l1 l2 : list string) :
  struct_loop tbl (l1 ++ l2) []
  = t1 ← struct_loop tbl l1 []; t2 ← struct_loop tbl l2 []; Ok (t1 ++ t2).
Proof.
  assert (H : forall acc, struct_loop tbl (l1 ++ l2) acc
                          = struct_loop tbl l1 acc ≫= struct_loop tbl l2).
  { induction l1 as [|code l1 IH]; intros acc; [reflexivity|].
    cbn [app struct_loop].
    destruct (match code with
              | EmptyString => Raise IndexError
              | String c _ => _
              end) as [acc'|e]; cbn; [apply IH|reflexivity]. }
  rewrite H. destruct (struct_loop tbl l1 []) as [t1|e]; cbn; [|reflexivity].
  rewrite struct_loop_acc. destruct (struct_loop tbl l2 []); reflexivity.
Qed.

Lemma split_codes_app (d f1 f2 : string) :
  f1 <> EmptyString -> last_is_digit f1 = false ->
  split_codes d (f1 +:+ f2) = split_codes d f1 ++ split_codes EmptyString f2.
Proof.
  revert d. induction f1 as [|c f1 IH]; intros d Hne Hlast; [contradiction|].
  rewrite append_cons. cbn [split_codes].
  destruct f1 as [|c' f1'].
  - rewrite append_nil. cbn in Hlast. rewrite Hlast.
    destruct (is_struct_code c); reflexivity.
  - assert (Hl : last_is_digit (String c' f1') = false) by exact Hlast.
    destruct (is_digit c); [apply IH; [discriminate|exact Hl]|].
    destruct (is_struct_code c); [cbn [app]; f_equal|]; apply IH;
      try discriminate; exact Hl.
Qed.

Lemma split_codes_count (ds : string) (c : ascii) :
  all_chars is_digit ds = true -> is_struct_code c = true ->
  forall d, split_codes d (ds +:+ String c EmptyString)
            = [d +:+ ds +:+ String c EmptyString].
Proof.
  intros Hd Hc. induction ds as [|x ds IH]; intros d.
  - rewrite append_nil. cbn [split_codes].
    assert (is_digit c = false) as ->.
    { unfold is_struct_code in Hc. apply bool_decide_eq_true in Hc.
      repeat (apply elem_of_cons in Hc as [Hc|Hc];
              [injection Hc as ->; reflexivity|]).
      inversion Hc. }
    rewrite Hc. reflexivity.
  - cbn in Hd. apply andb_true_iff in Hd as [Hx Hd].
    rewrite append_cons. cbn [split_codes]. rewrite Hx, (IH Hd).
    rewrite append_assoc. reflexivity.
Qed.

Lemma struct_code_lookup (host : byteorder) (endian : option string) (c : ascii) :
  is_struct_code c = true ->
  exists tok, struct_table host endian !! String c EmptyString = Some tok.
Proof.
  intros Hc. unfold is_struct_code in Hc. apply bool_decide_eq_true in Hc.
  destruct (struct_table_cases host endian) as [-> | [-> | ->]];
    repeat (apply elem_of_cons in Hc as [Hc|Hc];
            [injection Hc as ->; eexists; reflexivity|]);
    inversion Hc.
Qed.

Lemma but_last_app (a : string) (c : ascii) :
  but_last (a +:+ String c EmptyString) = a
  /\ last_char (a +:+ String c EmptyString) = String c EmptyString.
Proof.
  induction a as [|x a [IH1 IH2]]; [split; reflexivity|].
  rewrite append_cons. cbn [but_last last_char].
  destruct (a +:+ String c EmptyString) eqn:E.
  - destruct a; discriminate.
  - rewrite IH1, IH2. split; reflexivity.
Qed.

Lemma struct_loop_counted (tbl : gmap string string) (code : string)
    (codes : list string) (acc : list string) :
  (exists x r, code = String x r /\ is_digit x = true) ->
  struct_loop tbl (code :: codes) acc
  = (count ← py_int (but_last code);
     token ← getitem tbl (last_char code);
     Ok (acc ++ py_repeat [token] count)) ≫= struct_loop tbl codes.
Proof.
  intros (x & r & -> & Hx). cbn [struct_loop]. rewrite Hx. reflexivity.
Qed.

Lemma digits_first_digit (ds tail : string) :
  is_digits ds = true ->
  exists x r, ds +:+ tail = String x r /\ is_digit x = true.
Proof.
  unfold is_digits. intros [Hne Hd]%andb_true_iff.
  destruct ds as [|d ds0]; [discriminate|].
  exists d, (ds0 +:+ tail). split; [reflexivity|].
  cbn in Hd. apply andb_true_iff in Hd as [Hd _]. exact Hd.
Qed.

(** X10.  A code letter with a count in front of it gives that many copies
    of its name, and with no count one copy, so [3h] reads as [hhh]; and the
    names of two formats written one after the other are the names of the
    first followed by the names of the second, when the first does not end in
    a digit. *)
Theorem structparser_counts (host : byteorder) (endian : option string)
    (ds : string) (c : ascii) (f1 f2 : string) :
  is_struct_code c = true ->
  exists tok, struct_table host endian !! String c EmptyString = Some tok
    /\ structparser host endian (String c EmptyString) = Ok [tok]
    /\ (is_digits ds = true ->
          structparser host endian (ds +:+ String c EmptyString)
          = Ok (replicate (Z.to_nat (decimal ds)) tok))
    /\ (last_is_digit f1 = false ->
          structparser host endian (f1 +:+ f2)
          = t1 ← structparser host endian f1;
            t2 ← structparser host endian f2;
            Ok (t1 ++ t2)).
Proof.
  intros Hc. destruct (struct_code_lookup host endian c Hc) as [tok Htok].
  exists tok. split; [exact Htok|].
  assert (Hnd : is_digit c = false).
  { unfold is_struct_code in Hc. apply bool_decide_eq_true in Hc.
    repeat (apply elem_of_cons in Hc as [Hc|Hc];
            [injection Hc as ->; reflexivity|]).
    inversion Hc. }
  unfold structparser, STRUCT_SPLIT_RE_findall. split; [|split].
  - cbn [split_codes]. rewrite Hnd, Hc. rewrite append_nil.
    cbn [struct_loop]. rewrite Hnd. unfold getitem. rewrite Htok. reflexivity.
  - intros Hds. pose proof Hds as Hds'. unfold is_digits in Hds'.
    apply andb_true_iff in Hds' as [Hne Hd].
    rewrite (split_codes_count ds c Hd Hc). rewrite append_nil.
    rewrite struct_loop_counted by (apply digits_first_digit, Hds).
    destruct (but_last_app ds c) as [Hb Hl]. rewrite Hb, Hl.
    rewrite (py_int_digits ds Hds). unfold getitem. rewrite Htok. cbn.
    rewrite py_repeat_single. reflexivity.
  - intros Hlast. destruct f1 as [|x f1'] eqn:E.
    + rewrite append_nil. cbn.
      destruct (struct_loop (struct_table host endian) (split_codes "" f2) []);
        reflexivity.
    + rewrite <- E in *. rewrite split_codes_app; [|rewrite E; discriminate|exact Hlast].
      apply struct_loop_app.
Qed.

Lemma structparser_counts_witness :
  structparser little None ("12" +:+ "h") = Ok (replicate (Z.to_nat (decimal "12")) "intle16").
Proof.
  destruct (structparser_counts little None "12" "h" "" "" eq_refl)
    as (tok & Htok & _ & Hcount & _).
  injection Htok as <-. exact (Hcount eq_refl).
Defined.

(** X11.  The tables of names agree with the table of sizes: for every code
    with a pack size, on every host and for every marker, the name that
    [structparser] gives for the code is tokenized as one token whose length
    in bits is eight times the pack size. *)
Theorem replacements_match_pack_sizes (host : byteorder) (endian : option string)
    (k : string) (n : Z) :
  PACK_CODE_SIZE !! k = Some n ->
  exists tok name,
    structparser host endian k = Ok [tok]
    /\ tokenparser tok [] = Ok (false, [(name, Some (8 * n), None)]).
Proof.
  intros Hk. unfold PACK_CODE_SIZE in Hk. apply elem_of_list_to_map_2 in Hk.
  unfold structparser.
  repeat (apply elem_of_cons in Hk as [Hk|Hk];
          [injection Hk as -> ->;
           destruct (struct_table_cases host endian) as [-> | [-> | ->]];
           do 2 eexists; (split; [vm_compute; reflexivity|vm_compute; reflexivity])|]).
  inversion Hk.
Qed.

Lemma replacements_match_pack_sizes_witness :
  exists tok name,
    structparser big (Some "=") "q" = Ok [tok]
    /\ tokenparser tok [] = Ok (false, [(name, Some (8 * 8), None)]).
Proof.
  apply (replacements_match_pack_sizes big (Some "=") "q" 8). reflexivity.
Defined.

End struct_codes.

(** ** More on the registry *)

Section registry_laws.
Import Dtypes.

(** X12.  A family declared of unknown length can never be bound: its
    constructor refuses a length, so the family is not fixed-length, and
    [getDtype] then raises [ValueError] both with a length and without one;
    so does [get_dtype] for every name that leads to the family. *)
Theorem unknown_length_family_never_binds (name : string) (set_fn : set_fn_t)
    (get_fn : get_fn_t) (is_integer is_float is_signed : bool) (length : option Z) :
  match MetaDtype_init name set_fn get_fn is_integer is_float is_signed true length with
  | Raise e => e = ValueError /\ (length <> None \/ (is_float = true /\ is_integer = true))
  | Ok m =>
      length = None
      /\ (forall l, getDtype m l = Raise ValueError)
      /\ (forall (reg : register) key l,
            reg !! key = Some m -> get_dtype reg key l = Raise ValueError)
  end.
Proof.
  unfold MetaDtype_init. destruct length as [len|].
  - cbn. split; [reflexivity|]. left. discriminate.
  - cbn. destruct (is_float && is_integer) eqn:E.
    + split; [reflexivity|]. right. apply andb_true_iff in E. exact E.
    + assert (Hget : forall l, getDtype
          {| md_name := name; md_is_float := is_float; md_is_integer := is_integer;
             md_is_signed := is_signed; md_is_fixed_length := false;
             md_is_unknown_length := true; md_length := None;
             md_set := set_fn; md_get := get_fn |} l = Raise ValueError).
      { intros [l|]; reflexivity. }
      split; [reflexivity|]. split; [exact Hget|].
      intros reg key l Hkey. unfold get_dtype. rewrite Hkey, Hget. reflexivity.
Qed.

(** X13.  [add_meta_dtype_alias] raises [KeyError] exactly when the name
    is not registered.  Otherwise it returns, the alias leads to the family
    of the name, [get_dtype] gives for the alias what it gives for the
    name, and for every other name what it gave before. *)
Theorem alias_resolves_like_name (reg : register) (name alias : string) :
  (reg !! name = None <-> add_meta_dtype_alias reg name alias = Raise KeyError)
  /\ match add_meta_dtype_alias reg name alias with
     | Raise e => e = KeyError /\ reg !! name = None
     | Ok reg' =>
         (exists m, reg !! name = Some m /\ reg' !! alias = Some m)
         /\ (forall l, get_dtype reg' alias l = get_dtype reg name l)
         /\ (forall other l, other <> alias ->
               reg' !! other = reg !! other
               /\ get_dtype reg' other l = get_dtype reg other l)
     end.
Proof.
  unfold add_meta_dtype_alias. destruct (reg !! name) as [m|] eqn:E.
  - split; [split; discriminate|]. split; [|split].
    + exists m. split; [reflexivity|]. apply lookup_insert_eq.
    + intros l. unfold get_dtype. rewrite lookup_insert_eq, E. reflexivity.
    + intros other l Hne. unfold get_dtype.
      rewrite lookup_insert_ne by congruence. split; reflexivity.
  - split; [split; reflexivity|]. split; reflexivity.
Qed.

(** X14.  A family is registered under its own name and the last one
    registered wins: after [add_meta_dtype], [get_dtype] for the name of the
    family binds that family, whatever was registered under the name before,
    and every other name is as before. *)
Theorem add_meta_dtype_overrides (reg : register) (m : MetaDtype) :
  (forall l, get_dtype (add_meta_dtype reg m) (md_name m) l
             = get_dtype (add_meta_dtype ∅ m) (md_name m) l)
  /\ (forall other l, other <> md_name m ->
        get_dtype (add_meta_dtype reg m) other l = get_dtype reg other l)
  /\ (forall m', md_name m' = md_name m ->
        add_meta_dtype (add_meta_dtype reg m') m = add_meta_dtype reg m).
Proof.
  unfold add_meta_dtype. repeat split.
  - intros l. unfold get_dtype. rewrite !lookup_insert_eq. reflexivity.
  - intros other l Hne. unfold get_dtype.
    rewrite lookup_insert_ne by congruence. reflexivity.
  - intros m' ->. apply insert_insert_eq.
Qed.

Lemma add_meta_dtype_overrides_witness :
  let m := {| md_name := "uint"; md_is_float := false; md_is_integer := true;
              md_is_signed := false; md_is_fixed_length := false;
              md_is_unknown_length := false; md_length := None;
              md_set := uint_set; md_get := uint_get |} in
  get_dtype (add_meta_dtype ∅ m) "int" (Some 8) = get_dtype ∅ "int" (Some 8).
Proof.
  intros m.
  refine (proj1 (proj2 (add_meta_dtype_overrides ∅ m)) "int" (Some 8) _).
  discriminate.
Defined.

(** X15.  What [get_dtype] returns belongs to the family of the name, not
    to the name: the dtype carries the family's own name, also when it was
    reached through an alias, and the family's flags; its [get] and [set]
    are the family's with the length of the dtype bound; that length is
    unset or the canonical length for a fixed-length family and the length
    asked for otherwise; and unless the length asked for is 0 the getter
    of the dtype reads a zero pattern of that length. *)
Theorem get_dtype_result (reg : register) (key : string) (l : option Z)
    (m : MetaDtype) (d : Dtype) :
  reg !! key = Some m ->
  get_dtype reg key l = Ok d ->
  name d = md_name m
  /\ is_integer d = md_is_integer m /\ is_float d = md_is_float m
  /\ is_signed d = md_is_signed m
  /\ is_fixed_length d = md_is_fixed_length m
  /\ is_unknown_length d = md_is_unknown_length m
  /\ (forall bs start, get d bs start = md_get m bs start (length d))
  /\ (forall v, set d v = md_set m v (length d))
  /\ (if md_is_fixed_length m
      then (l = None /\ length d = None)
           \/ ((l = Some 0 \/ l = md_length m) /\ length d = md_length m)
      else l <> None /\ length d = l)
  /\ (l <> Some 0 -> exists v, get d (Bits_new l) 0 = Ok v).
Proof.
  intros Hkey. unfold get_dtype. rewrite Hkey.
  destruct (getDtype m l) as [d0|e] eqn:Hd; [|discriminate]. cbn [mbind result_bind].
  intros Hres.
  assert (Hd0 : d0 = d).
  { destruct (bool_decide (l ≠ Some 0)); [|congruence].
    destruct (get d0 (Bits_new l) 0) as [v|[]]; congruence. }
  subst d0.
  assert (Hcheck : l <> Some 0 -> exists v, get d (Bits_new l) 0 = Ok v).
  { intros Hl. rewrite bool_decide_eq_true_2 in Hres by exact Hl.
    destruct (get d (Bits_new l) 0) as [v|[]]; try discriminate. eauto. }
  clear Hres. unfold getDtype in Hd. destruct l as [len|].
  - destruct (md_is_unknown_length m) eqn:Hu; [discriminate|].
    destruct (md_is_fixed_length m) eqn:Hf.
    + destruct (bool_decide_reflect (len ≠ 0)) as [Hne|Heq];
        destruct (bool_decide_reflect (Some len ≠ md_length m)) as [Hne'|Heq'];
        cbn in Hd; try discriminate; injection Hd as <-; cbn;
        rewrite ?Hf, ?Hu;
        (repeat match goal with |- _ /\ _ => split end);
        try reflexivity; try exact Hcheck; right; (split; [|reflexivity]).
      * right. apply dec_stable. exact Heq'.
      * left. f_equal. apply dec_stable. exact Heq.
      * left. f_equal. apply dec_stable. exact Heq.
    + cbn in Hd. injection Hd as <-. cbn. rewrite ?Hf, ?Hu.
      (repeat match goal with |- _ /\ _ => split end);
        try reflexivity; try exact Hcheck. discriminate.
  - destruct (md_is_fixed_length m) eqn:Hf; [|discriminate].
    cbn in Hd. injection Hd as <-. cbn. rewrite ?Hf.
    (repeat match goal with |- _ /\ _ => split end);
      try reflexivity; try exact Hcheck. left. split; reflexivity.
Qed.

Lemma get_dtype_result_witness :
  let m := {| md_name := "uint"; md_is_float := false; md_is_integer := true;
              md_is_signed := false; md_is_fixed_length := false;
              md_is_unknown_length := false; md_length := None;
              md_set := uint_set; md_get := uint_get |} in
  let reg := <["u" := m]> (add_meta_dtype ∅ m) in
  let d := Dtype_init "uint" (Some 8) uint_set uint_get true false false false false in
  reg !! "u" = Some m /\ get_dtype reg "u" (Some 8) = Ok d /\ name d = "uint".
Proof.
  intros m reg d.
  assert (Hkey : reg !! "u" = Some m) by (vm_compute; reflexivity).
  assert (Hd : get_dtype reg "u" (Some 8) = Ok d) by (vm_compute; reflexivity).
  split; [exact Hkey|]. split; [exact Hd|].
  exact (proj1 (get_dtype_result reg "u" (Some 8) m d Hkey Hd)).
Defined.

End registry_laws.

(** ** More on the micro-float codecs *)

Section codec_tables.
Import PyFloat.

Lemma mapM_Ok_inv {A B : Type} (f : A -> result B) (l : list A) (l' : list B) :
  mapM f l = Ok l' ->
  List.length l' = List.length l
  /\ (forall i x, l !! i = Some x -> exists y, f x = Ok y /\ l' !! i = Some y).
Proof.
  revert l'. induction l as [|a l IH]; intros l' H; cbn in H.
  - injection H as <-. split; [reflexivity|].
    intros i x Hi. rewrite lookup_nil in Hi. discriminate.
  - destruct (f a) as [y|e] eqn:Ha; cbn in H; [|discriminate].
    destruct (mapM f l) as [k|e] eqn:Hl; cbn in H; [|discriminate].
    injection H as <-. destruct (IH k eq_refl) as [Hlen Hidx].
    split; [cbn; congruence|].
    intros [|i] x Hi; cbn in Hi.
    + injection Hi as <-. eauto.
    + apply Hidx in Hi. exact Hi.
Qed.

Lemma mapM_Ok_all {A B : Type} (f : A -> result B) (l : list A) :
  (forall x, x ∈ l -> exists y, f x = Ok y) -> exists l', mapM f l = Ok l'.
Proof.
  induction l as [|a l IH]; intros H; cbn.
  - eexists. reflexivity.
  - destruct (H a) as [y Hy]; [left|]. rewrite Hy. cbn.
    destruct IH as [k Hk]; [intros x Hx; apply H; right; exact Hx|].
    rewrite Hk. cbn. eexists. reflexivity.
Qed.

Lemma mapM_Raise_head {A B : Type} (f : A -> result B) (a : A) (l : list A) (e : exn) :
  f a = Raise e -> mapM f (a :: l) = Raise e.
Proof. intros H. cbn. rewrite H. reflexivity. Qed.

Lemma shl_Ok (a n : Z) : 0 <= n -> shl a n = Ok (Z.shiftl a n).
Proof. intros H. unfold shl. destruct (Z.ltb_spec n 0); [lia|reflexivity]. Qed.

Lemma shr_Ok (a n : Z) : 0 <= n -> shr a n = Ok (Z.shiftr a n).
Proof. intros H. unfold shr. destruct (Z.ltb_spec n 0); [lia|reflexivity]. Qed.

Lemma shl_Raise (a n : Z) : n < 0 -> shl a n = Raise ValueError.
Proof. intros H. unfold shl. destruct (Z.ltb_spec n 0); [reflexivity|lia]. Qed.

Lemma shr_Raise (a n : Z) : n < 0 -> shr a n = Raise ValueError.
Proof. intros H. unfold shr. destruct (Z.ltb_spec n 0); [reflexivity|lia]. Qed.

Lemma binary8_to_float_total (fmt : Fp8.Binary8Format) (i : Z) :
  0 <= Fp8.exp_bits fmt <= 7 -> exists f, Fp8.binary8_to_float fmt i = Ok f.
Proof.
  intros He. unfold Fp8.binary8_to_float.
  rewrite (shr_Ok i) by lia. rewrite !(shl_Ok 1) by lia. cbn [mbind result_bind].
  repeat match goal with |- context [if ?c then _ else _] => destruct c end;
    eexists; reflexivity.
Qed.

Lemma binary8_table_built (fmt : Fp8.Binary8Format) :
  0 <= Fp8.exp_bits fmt <= 7 ->
  exists l, Fp8.createLUT_for_binary8_to_float fmt = Ok l
            /\ List.length l = 256%nat
            /\ (forall i, 0 <= i < 256 ->
                  Ok <$> l !! Z.to_nat i = Some (Fp8.binary8_to_float fmt i)).
Proof.
  intros He. unfold Fp8.createLUT_for_binary8_to_float.
  destruct (mapM_Ok_all (Fp8.binary8_to_float fmt) (BitArray.range 256)) as [l Hl].
  { intros x _. apply binary8_to_float_total. exact He. }
  exists l. split; [exact Hl|].
  destruct (mapM_Ok_inv _ _ _ Hl) as [Hlen Hidx]. split.
  - rewrite Hlen. unfold BitArray.range. rewrite length_fmap, length_seq. reflexivity.
  - intros i Hi.
    destruct (Hidx (Z.to_nat i) i) as (y & Hy & Hly).
    + unfold BitArray.range. rewrite list_lookup_fmap, lookup_seq_lt by lia.
      cbn. f_equal. lia.
    + rewrite Hly, Hy. reflexivity.
Qed.

(** X16.  The decode table of a binary8 format can be built exactly when the
    format has between 0 and 7 exponent bits: then it has 256 entries, one
    for each code, and otherwise building it raises [ValueError], from a
    shift by a negative count. *)
Theorem binary8_table_total (fmt : Fp8.Binary8Format) :
  0 <= Fp8.bias fmt ->
  match Fp8.createLUT_for_binary8_to_float fmt with
  | Ok l => 0 <= Fp8.exp_bits fmt <= 7 /\ List.length l = 256%nat
  | Raise e => e = ValueError /\ ~ (0 <= Fp8.exp_bits fmt <= 7)
  end.
Proof.
  intros _.
  destruct (Z_lt_le_dec (Fp8.exp_bits fmt) 0) as [Hneg|Hpos];
    [|destruct (Z_le_gt_dec (Fp8.exp_bits fmt) 7) as [Hle|Hgt]].
  - unfold Fp8.createLUT_for_binary8_to_float.
    change (BitArray.range 256) with (0 :: (Z.of_nat <$> seq 1 255)).
    rewrite (mapM_Raise_head _ _ _ ValueError); [split; [reflexivity|lia]|].
    unfold Fp8.binary8_to_float. rewrite (shr_Ok 0) by lia.
    rewrite (shl_Raise 1) by lia. reflexivity.
  - destruct (binary8_table_built fmt) as (l & -> & Hlen & _); [lia|].
    split; [lia|exact Hlen].
  - unfold Fp8.createLUT_for_binary8_to_float.
    change (BitArray.range 256) with (0 :: (Z.of_nat <$> seq 1 255)).
    rewrite (mapM_Raise_head _ _ _ ValueError); [split; [reflexivity|lia]|].
    unfold Fp8.binary8_to_float. rewrite (shr_Raise 0) by lia. reflexivity.
Qed.

Lemma binary8_table_total_witness :
  0 <= Fp8.bias Fp8.p3binary_fmt
  /\ match Fp8.createLUT_for_binary8_to_float Fp8.p3binary_fmt with
     | Ok l => 0 <= Fp8.exp_bits Fp8.p3binary_fmt <= 7 /\ List.length l = 256%nat
     | Raise e => e = ValueError /\ ~ (0 <= Fp8.exp_bits Fp8.p3binary_fmt <= 7)
     end.
Proof.
  assert (H : 0 <= Fp8.bias Fp8.p3binary_fmt) by (vm_compute; discriminate).
  split; [exact H|]. exact (binary8_table_total Fp8.p3binary_fmt H).
Defined.

(** X17.  In a binary8 format with one to six exponent bits no infinity
    survives the round trip: [float_to_int8] gives an infinity the code
    [0x7F] or [0xFF], whose mantissa field is not zero, and the decode table
    has a NaN at both codes; a NaN is encoded as [0xFF] and comes back as a
    NaN. *)
Theorem binary8_infinity_decodes_to_nan (fmt : Fp8.Binary8Format) (f : float) :
  1 <= Fp8.exp_bits fmt <= 6 ->
  0 <= Fp8.bias fmt ->
  isnan f || isinf f = true ->
  exists c l,
    Fp8.float_to_int8 fmt f = Ok c
    /\ c = (if lt_zero f || isnan f then 0xFF else 0x7F)
    /\ Fp8.createLUT_for_binary8_to_float fmt = Ok l
    /\ l !! Z.to_nat c = Some NaN.
Proof.
  intros He _ Hf.
  destruct (binary8_table_built fmt) as (l & Hl & _ & Hidx); [lia|].
  assert (Hcodes : Fp8.binary8_to_float fmt 0x7F = Ok NaN
                   /\ Fp8.binary8_to_float fmt 0xFF = Ok NaN).
  { destruct fmt as [e b pc nc]. cbn [Fp8.exp_bits] in He.
    assert (Hcases : e = 1 \/ e = 2 \/ e = 3 \/ e = 4 \/ e = 5 \/ e = 6) by lia.
    unfold Fp8.binary8_to_float. cbn [Fp8.exp_bits Fp8.bias].
    destruct Hcases as [->|[->|[->|[->|[->| ->]]]]]; split; reflexivity. }
  assert (Hentry : forall c, c = 0x7F \/ c = 0xFF -> l !! Z.to_nat c = Some NaN).
  { intros c Hc. assert (Hr : 0 <= c < 256) by lia.
    specialize (Hidx c Hr).
    replace (Fp8.binary8_to_float fmt c) with (Ok NaN : result float) in Hidx
      by (destruct Hc as [-> | ->]; symmetry; apply Hcodes).
    destruct (l !! Z.to_nat c) as [y|]; cbn in Hidx; congruence. }
  destruct f as [|[]|s|q]; try discriminate Hf.
  - exists 0xFF, l. repeat split; auto.
  - exists 0xFF, l. repeat split; auto.
  - exists 0x7F, l. repeat split; auto.
Qed.

Lemma binary8_infinity_decodes_to_nan_witness :
  exists c l,
    Fp8.float_to_int8 Fp8.p4binary_fmt (Inf true) = Ok c
    /\ c = 0xFF
    /\ Fp8.createLUT_for_binary8_to_float Fp8.p4binary_fmt = Ok l
    /\ l !! Z.to_nat c = Some NaN.
Proof.
  apply (binary8_infinity_decodes_to_nan Fp8.p4binary_fmt (Inf true)).
  - vm_compute. split; discriminate.
  - vm_compute. discriminate.
  - reflexivity.
Defined.


Lemma of_Q_finite (neg : bool) (q : Q) (f : float) :
  of_Q neg q = f -> f <> NaN /\ forall s, f <> Inf s.
Proof.
  unfold of_Q. destruct (Qeq_bool q 0); intros <-; split; try intros s; discriminate.
Qed.

Lemma int_to_float_cases (fmt : Mxfp.MXFPFormat) (i : Z) :
  0 <= Mxfp.exp_bits fmt -> 0 <= Mxfp.mantissa_bits fmt ->
  let exp := Z.land (Z.shiftr i (Mxfp.mantissa_bits fmt))
                    (Z.shiftl 1 (Mxfp.exp_bits fmt) - 1) in
  let mantissa := Z.land i (Z.shiftl 1 (Mxfp.mantissa_bits fmt) - 1) in
  exists f, Mxfp.int_to_float fmt i = Ok f
    /\ f <> Inf true
    /\ (f = Inf false <->
        exp <> 0 /\ exp = Z.shiftl 1 (Mxfp.exp_bits fmt) - 1 /\ mantissa = 0)
    /\ (f = NaN <->
        exp <> 0 /\ exp = Z.shiftl 1 (Mxfp.exp_bits fmt) - 1 /\ mantissa <> 0).
Proof.
  intros He Hm exp mantissa. unfold Mxfp.int_to_float.
  rewrite (shl_Ok 1 (1 + Mxfp.exp_bits fmt + Mxfp.mantissa_bits fmt - 1)) by lia.
  rewrite (shr_Ok i) by lia. rewrite !(shl_Ok 1) by lia. cbn [mbind result_bind].
  fold exp. fold mantissa.
  destruct (Z.eqb_spec exp 0) as [E0|E0].
  - eexists. split; [reflexivity|].
    match goal with |- of_Q ?n ?q <> _ /\ _ =>
      destruct (of_Q_finite n q _ eq_refl) as [Hn Hi] end.
    split; [apply Hi|]. split; split; intros H; try tauto;
      exfalso; revert H; first [apply Hi | apply Hn].
  - destruct (Z.eqb_spec exp (Z.shiftl 1 (Mxfp.exp_bits fmt) - 1)) as [E1|E1].
    + destruct (Z.eqb_spec mantissa 0) as [M0|M0];
        (eexists; split; [reflexivity|]); (split; [discriminate|]);
        split; split; intros H; try discriminate H; try tauto; auto.
    + eexists. split; [reflexivity|].
      match goal with |- of_Q ?n ?q <> _ /\ _ =>
        destruct (of_Q_finite n q _ eq_refl) as [Hn Hi] end.
      split; [apply Hi|]. split; split; intros H; try tauto;
        exfalso; revert H; first [apply Hi | apply Hn].
Qed.

Lemma mxfp_table_built (fmt : Mxfp.MXFPFormat) :
  0 <= Mxfp.exp_bits fmt -> 0 <= Mxfp.mantissa_bits fmt ->
  let total := 2 ^ (1 + Mxfp.exp_bits fmt + Mxfp.mantissa_bits fmt) in
  exists l, Mxfp.createLUT_for_int_to_float fmt = Ok l
            /\ Z.of_nat (List.length l) = total
            /\ (forall i, 0 <= i < total ->
                  Ok <$> l !! Z.to_nat i = Some (Mxfp.int_to_float fmt i))
            /\ (forall f, f ∈ l -> exists i, 0 <= i < total
                                             /\ Mxfp.int_to_float fmt i = Ok f).
Proof.
  intros He Hm total. unfold Mxfp.createLUT_for_int_to_float.
  rewrite (shl_Ok 1) by lia. cbn [mbind result_bind].
  rewrite Z.shiftl_1_l. fold total.
  assert (Htot : 0 < total) by (apply Z.pow_pos_nonneg; lia).
  destruct (mapM_Ok_all (Mxfp.int_to_float fmt) (BitArray.range total)) as [l Hl].
  { intros x _. destruct (int_to_float_cases fmt x He Hm) as (f & Hf & _). eauto. }
  exists l. split; [exact Hl|].
  destruct (mapM_Ok_inv _ _ _ Hl) as [Hlen Hidx].
  assert (Hrange : forall i, 0 <= i < total ->
            BitArray.range total !! Z.to_nat i = Some i).
  { intros i Hi. unfold BitArray.range.
    rewrite list_lookup_fmap, lookup_seq_lt by lia. cbn. f_equal. lia. }
  assert (Hlen' : Z.of_nat (List.length l) = total).
  { rewrite Hlen. unfold BitArray.range. rewrite length_fmap, length_seq. lia. }
  split; [exact Hlen'|]. split.
  - intros i Hi. destruct (Hidx _ _ (Hrange i Hi)) as (y & Hy & Hly).
    rewrite Hly, Hy. reflexivity.
  - intros f Hf. apply list_elem_of_lookup in Hf as [n Hn].
    assert (Hn' : (n < List.length l)%nat) by (eapply lookup_lt_Some; exact Hn).
    exists (Z.of_nat n). split; [lia|].
    destruct (Hidx n (Z.of_nat n)) as (y & Hy & Hly).
    + rewrite <- (Nat2Z.id n) at 1. apply Hrange. lia.
    + congruence.
Qed.

(** X18.  The decode table of an MXFP format of at most eight bits has one
    entry for each code, [2 ** (1 + exp_bits + mantissa_bits)] of them, and
    none of them is negative infinity, although half of the codes have the
    sign bit: a code whose exponent field is all ones decodes to positive
    infinity or to a NaN whatever its sign bit. *)
Theorem mxfp_table_never_negative_infinity (fmt : Mxfp.MXFPFormat) :
  0 <= Mxfp.exp_bits fmt -> 0 <= Mxfp.mantissa_bits fmt ->
  Mxfp.exp_bits fmt + Mxfp.mantissa_bits fmt <= 7 ->
  0 <= Mxfp.bias fmt ->
  exists l, Mxfp.createLUT_for_int_to_float fmt = Ok l
    /\ Z.of_nat (List.length l) = 2 ^ (1 + Mxfp.exp_bits fmt + Mxfp.mantissa_bits fmt)
    /\ Inf true ∉ l.
Proof.
  intros He Hm _ _.
  destruct (mxfp_table_built fmt He Hm) as (l & Hl & Hlen & _ & Hmem).
  exists l. split; [exact Hl|]. split; [exact Hlen|].
  intros Hin. destruct (Hmem _ Hin) as (i & _ & Hi).
  destruct (int_to_float_cases fmt i He Hm) as (f & Hf & Hneg & _).
  rewrite Hi in Hf. injection Hf as <-. apply Hneg. reflexivity.
Qed.

Lemma mxfp_table_never_negative_infinity_witness :
  exists l,
    Mxfp.createLUT_for_int_to_float
      (Mxfp.mkMXFPFormat 5 2 15 Mxfp.overflow 124 252) = Ok l
    /\ Z.of_nat (List.length l) = 2 ^ (1 + 5 + 2)
    /\ Inf true ∉ l.
Proof.
  apply (mxfp_table_never_negative_infinity
           (Mxfp.mkMXFPFormat 5 2 15 Mxfp.overflow 124 252));
    vm_compute; discriminate.
Defined.

Ltac mxfp_clamp_case s :=
  match goal with
  | |- context [Mxfp.MXFPFormat_init ?e ?m ?b ?mode] =>
      let r := eval vm_compute in (Mxfp.MXFPFormat_init e m b mode) in
      match r with
      | Ok ?fmt =>
          let c := eval vm_compute in (Mxfp.float_to_int fmt (Inf s)) in
          match c with
          | Ok ?cv =>
              let l := fresh "l" in
              let x := fresh "x" in
              let Hl := fresh "Hl" in
              let Hidx := fresh "Hidx" in
              let Hx := fresh "Hx" in
              let Hneg := fresh "Hneg" in
              let Hinf := fresh "Hinf" in
              destruct (mxfp_table_built fmt ltac:(vm_compute; discriminate)
                          ltac:(vm_compute; discriminate))
                as (l & Hl & _ & Hidx & _);
              destruct (int_to_float_cases fmt cv ltac:(vm_compute; discriminate)
                          ltac:(vm_compute; discriminate))
                as (x & Hx & Hneg & Hinf & _);
              exists fmt, cv, l, x;
              (split; [vm_compute; reflexivity|]);
              (split; [vm_compute; reflexivity|]);
              (split; [exact Hl|]);
              split;
              [ specialize (Hidx cv ltac:(vm_compute; split; [discriminate|reflexivity]));
                rewrite Hx in Hidx; destruct (l !! Z.to_nat cv);
                cbn in Hidx; congruence
              | let H := fresh "H" in
                let H1 := fresh "H" in
                let H2 := fresh "H" in
                let H3 := fresh "H" in
                let H4 := fresh "H" in
                split;
                [ intros H;
                  first
                    [ exfalso; exact (Hneg H)
                    | apply Hinf in H; destruct H as (H1 & H2 & H3);
                      vm_compute in H2, H3;
                      first [ discriminate H2 | discriminate H3
                            | repeat split; reflexivity ] ]
                | intros (H1 & H2 & H3 & H4);
                  first
                    [ discriminate H1 | discriminate H2 | discriminate H3
                    | discriminate H4
                    | apply Hinf; vm_compute;
                      (split; [discriminate | split; reflexivity]) ] ] ]
          end
      end
  end.

(** X19.  In an MXFP format of at most eight bits, with at least one
    exponent bit and one mantissa bit, an infinity survives the round trip
    in one case only, positive infinity in the format e5m2 with overflow:
    everywhere else the code that [float_to_int] gives an infinity decodes
    to something else, a NaN, the largest finite value, or positive infinity
    for negative infinity. *)
Theorem mxfp_infinity_round_trip (e m b : Z) (mode : Mxfp.overflow_mode) (s : bool) :
  1 <= e -> 1 <= m -> e + m <= 7 -> 0 <= b ->
  exists fmt c l f,
    Mxfp.MXFPFormat_init e m b mode = Ok fmt
    /\ Mxfp.float_to_int fmt (Inf s) = Ok c
    /\ Mxfp.createLUT_for_int_to_float fmt = Ok l
    /\ l !! Z.to_nat c = Some f
    /\ (f = Inf s <-> e = 5 /\ m = 2 /\ mode = Mxfp.overflow /\ s = false).
Proof.
  intros He Hm Hem Hb.
  assert (Hcases : (e = 1 \/ e = 2 \/ e = 3 \/ e = 4 \/ e = 5 \/ e = 6)
                   /\ (m = 1 \/ m = 2 \/ m = 3 \/ m = 4 \/ m = 5 \/ m = 6)) by lia.
  destruct Hcases as [He6 Hm6].
  destruct He6 as [->|[->|[->|[->|[->| ->]]]]];
    destruct Hm6 as [->|[->|[->|[->|[->| ->]]]]];
    try (exfalso; lia); clear He Hm Hem; destruct mode;
    (destruct s; [mxfp_clamp_case true | mxfp_clamp_case false]).
Qed.

Lemma mxfp_infinity_round_trip_witness :
  exists fmt c l f,
    Mxfp.MXFPFormat_init 4 3 7 Mxfp.saturate = Ok fmt
    /\ Mxfp.float_to_int fmt (Inf false) = Ok c
    /\ Mxfp.createLUT_for_int_to_float fmt = Ok l
    /\ l !! Z.to_nat c = Some f
    /\ (f = Inf false <-> 4 = 5 /\ 3 = 2 /\ Mxfp.saturate = Mxfp.overflow /\ false = false).
Proof.
  apply (mxfp_infinity_round_trip 4 3 7 Mxfp.saturate false); lia.
Defined.

(** X29.  In an MXFP format of at most eight bits, with at least one
    exponent bit and one mantissa bit, a NaN survives the round trip:
    [float_to_int] gives it the code of all ones,
    [2 ** (1 + exp_bits + mantissa_bits) - 1], and the decode table has a
    NaN there. *)
Theorem mxfp_nan_round_trip (e m b : Z) (mode : Mxfp.overflow_mode) :
  1 <= e -> 1 <= m -> e + m <= 7 -> 0 <= b ->
  exists fmt c l,
    Mxfp.MXFPFormat_init e m b mode = Ok fmt
    /\ Mxfp.float_to_int fmt NaN = Ok c
    /\ c = 2 ^ (1 + e + m) - 1
    /\ Mxfp.createLUT_for_int_to_float fmt = Ok l
    /\ l !! Z.to_nat c = Some NaN.
Proof.
  intros He Hm Hem Hb.
  assert (Hcases : (e = 1 \/ e = 2 \/ e = 3 \/ e = 4 \/ e = 5 \/ e = 6)
                   /\ (m = 1 \/ m = 2 \/ m = 3 \/ m = 4 \/ m = 5 \/ m = 6)) by lia.
  destruct Hcases as [He6 Hm6].
  destruct He6 as [->|[->|[->|[->|[->| ->]]]]];
    destruct Hm6 as [->|[->|[->|[->|[->| ->]]]]];
    try (exfalso; lia); clear He Hm Hem; destruct mode;
    match goal with
    | |- context [Mxfp.MXFPFormat_init ?e ?m ?b ?mode] =>
        let r := eval vm_compute in (Mxfp.MXFPFormat_init e m b mode) in
        match r with
        | Ok ?fmt =>
            let c := eval vm_compute in (Mxfp.float_to_int fmt NaN) in
            match c with
            | Ok ?cv =>
                destruct (mxfp_table_built fmt ltac:(vm_compute; discriminate)
                            ltac:(vm_compute; discriminate))
                  as (l & Hl & _ & Hidx & _);
                destruct (int_to_float_cases fmt cv ltac:(vm_compute; discriminate)
                            ltac:(vm_compute; discriminate))
                  as (x & Hx & _ & _ & Hnan);
                exists fmt, cv, l;
                (split; [vm_compute; reflexivity|]);
                (split; [vm_compute; reflexivity|]);
                (split; [vm_compute; reflexivity|]);
                (split; [exact Hl|]);
                specialize (Hidx cv ltac:(vm_compute; split; [discriminate|reflexivity]));
                rewrite Hx in Hidx;
                assert (x = NaN) as ->
                  by (apply Hnan; vm_compute;
                      (split; [discriminate|split; [reflexivity|discriminate]]));
                destruct (l !! Z.to_nat cv); cbn in Hidx; congruence
            end
        end
    end.
Qed.

Lemma mxfp_nan_round_trip_witness :
  exists fmt c l,
    Mxfp.MXFPFormat_init 2 1 1 Mxfp.saturate = Ok fmt
    /\ Mxfp.float_to_int fmt NaN = Ok c
    /\ c = 2 ^ (1 + 2 + 1) - 1
    /\ Mxfp.createLUT_for_int_to_float fmt = Ok l
    /\ l !! Z.to_nat c = Some NaN.
Proof.
  apply (mxfp_nan_round_trip 2 1 1 Mxfp.saturate); lia.
Defined.

End codec_tables.

(** ** More on the container *)

Section container_laws.
Import BitArray.

(** X20.  The in-place shifts, for whatever the shifts of [Bits] do: a
    negative amount and an empty container raise [ValueError], the empty
    container also for the amount 0; on a container that is not empty the
    amount 0 returns without a call of the shift of [Bits], and an amount
    beyond the length is the shift by the length. *)
Theorem shift_guards (_ilshift _irshift : Z -> method unit) (n : Z) (s : Bits) :
  let l := Z.of_nat (length s) in
  (n < 0 \/ s = [] ->
     __ilshift__ _ilshift n s = (s, Raise ValueError)
     /\ __irshift__ _irshift n s = (s, Raise ValueError))
  /\ (s <> [] ->
        __ilshift__ _ilshift 0 s = (s, Ok tt)
        /\ __irshift__ _irshift 0 s = (s, Ok tt))
  /\ (s <> [] -> 0 < n ->
        __ilshift__ _ilshift n s = _ilshift (Z.min n l) s
        /\ __irshift__ _irshift n s = _irshift (Z.min n l) s)
  /\ (s <> [] -> l <= n ->
        __ilshift__ _ilshift n s = __ilshift__ _ilshift l s
        /\ __irshift__ _irshift n s = __irshift__ _irshift l s).
Proof.
  intros l.
  assert (Hlen : s <> [] -> 0 < l).
  { intros Hs. subst l. destruct s; [congruence|]. cbn. lia. }
  assert (Hpos : forall k, s <> [] -> 0 < k ->
            __ilshift__ _ilshift k s = _ilshift (Z.min k l) s
            /\ __irshift__ _irshift k s = _irshift (Z.min k l) s).
  { intros k Hs Hk. specialize (Hlen Hs).
    unfold __ilshift__, __irshift__, mbind, method_bind, len.
    destruct (Z.ltb_spec k 0); [lia|]. fold l.
    destruct (Z.eqb_spec l 0); [lia|].
    destruct (Z.eqb_spec k 0); [lia|]. split; reflexivity. }
  split; [|split; [|split]].
  - intros [Hn | ->].
    + unfold __ilshift__, __irshift__.
      destruct (Z.ltb_spec n 0); [|lia]. split; reflexivity.
    + unfold __ilshift__, __irshift__.
      destruct (n <? 0); split; reflexivity.
  - intros Hs. specialize (Hlen Hs).
    unfold __ilshift__, __irshift__, mbind, method_bind, len. cbn [Z.ltb Z.compare].
    fold l. destruct (Z.eqb_spec l 0); [lia|]. split; reflexivity.
  - exact (Hpos n).
  - intros Hs Hn. specialize (Hlen Hs).
    destruct (Hpos n Hs ltac:(lia)) as [-> ->].
    destruct (Hpos l Hs Hlen) as [-> ->].
    rewrite Z.min_r by lia. rewrite Z.min_id. split; reflexivity.
Qed.

Lemma shift_guards_witness :
  __ilshift__ (fun _ => put_store []) 0 [] = ([], Raise ValueError)
  /\ __irshift__ (fun _ => put_store []) 0 [] = ([], Raise ValueError).
Proof.
  refine (proj1 (shift_guards (fun _ => put_store []) (fun _ => put_store []) 0 []) _).
  right. reflexivity.
Defined.

(** X21.  [byteswap] counts repeats that swapped nothing, for whatever
    [_reversebytes] does.  A pattern whose sizes add up to 0 returns 0 and
    leaves the bits as they are.  Without [repeat] a pattern whose first
    group is longer than the range breaks out of the loop before the first
    swap, the bits stay as they are, and the call still returns 1. *)
Theorem byteswap_counts_idle_repeats (_reversebytes : Z -> Z -> method unit)
    (fmt : list Z) (start end_ : option Z) (s : Bits) (a b : Z) :
  _validate_slice start end_ s = (s, Ok (a, b)) ->
  (sum fmt = 0 ->
     forall repeat,
       byteswap _reversebytes (FmtList fmt) start end_ repeat s = (s, Ok 0))
  /\ (forall size rest, fmt = size :: rest -> sum fmt <> 0 -> b - a < size ->
        byteswap _reversebytes (FmtList fmt) start end_ false s = (s, Ok 1)).
Proof.
  intros Hv. split.
  - intros Hsum repeat. unfold byteswap, mbind at 1, method_bind at 1.
    rewrite Hv. unfold mbind, method_bind, mret, method_ret. rewrite Hsum. reflexivity.
  - intros size rest -> Hsum Hsize. unfold byteswap, mbind at 1, method_bind at 1.
    rewrite Hv. unfold mbind, method_bind, mret, method_ret.
    destruct (Z.eqb_spec (sum (size :: rest)) 0); [contradiction|].
    change (range 1) with [0]. cbn [for_each swap_groups].
    unfold mbind, method_bind, mret, method_ret.
    destruct (Z.ltb_spec b (a + 0 * sum (size :: rest) + size)); [reflexivity|lia].
Qed.

Lemma byteswap_counts_idle_repeats_witness :
  byteswap _reversebytes (FmtList [16]) None None false (bytes_to_bits [1])
  = (bytes_to_bits [1], Ok 1).
Proof.
  refine (proj2 (byteswap_counts_idle_repeats _reversebytes [16] None None
                   (bytes_to_bits [1]) 0 8 _) 16 [] _ _ _).
  - reflexivity.
  - reflexivity.
  - vm_compute. discriminate.
  - lia.
Defined.

End container_laws.

Section container_laws2.
Import BitArray.

Lemma rev_lookup {A} (l : list A) (i : nat) :
  (i < length l)%nat -> rev l !! i = l !! (length l - S i)%nat.
Proof.
  intros H. rewrite rev_alt. change (rev_append l []) with (list.reverse l).
  apply reverse_lookup. exact H.
Qed.

Lemma reverse_spec (start end_ : option Z) (s : Bits) (a b : Z) :
  _validate_slice start end_ s = (s, Ok (a, b)) ->
  reverse start end_ s
  = (take (Z.to_nat a) s ++ rev (take (Z.to_nat (b - a)) (drop (Z.to_nat a) s))
       ++ drop (Z.to_nat b) s, Ok tt).
Proof.
  intros Hv. destruct (validate_slice_bounds _ _ _ _ _ Hv) as [H1 H2].
  unfold reverse, mbind at 1, method_bind at 1. rewrite Hv.
  destruct (Z.eqb_spec a b) as [->|Hne].
  - rewrite Z.sub_diag. change (Z.to_nat 0) with 0%nat. rewrite take_0.
    change (rev []) with (@nil bool). rewrite app_nil_l, take_drop. reflexivity.
  - unfold _slice, _overwrite, mbind, method_bind, get_store, put_store,
      mret, method_ret.
    f_equal. apply overwrite_bits_range; [lia|lia|].
    rewrite length_rev, length_take, length_drop. lia.
Qed.

(** X22.  [reverse] on a valid range [[a, b)] keeps the length, puts at
    each position [i] of the range the bit that was at [a + b - 1 - i] and
    leaves the bits outside the range where they are; a second [reverse] of
    the same range gives back the container bit for bit. *)
Theorem reverse_involutive (start end_ : option Z) (s : Bits) (a b : Z) :
  _validate_slice start end_ s = (s, Ok (a, b)) ->
  exists s',
    reverse start end_ s = (s', Ok tt)
    /\ length s' = length s
    /\ (forall i : nat,
          s' !! i = if decide (Z.to_nat a <= i < Z.to_nat b)%nat
                    then s !! (Z.to_nat a + Z.to_nat b - 1 - i)%nat
                    else s !! i)
    /\ reverse start end_ s' = (s, Ok tt).
Proof.
  intros Hv. destruct (validate_slice_bounds _ _ _ _ _ Hv) as [H1 H2].
  rewrite (reverse_spec _ _ _ _ _ Hv).
  set (A := take (Z.to_nat a) s).
  set (M := take (Z.to_nat (b - a)) (drop (Z.to_nat a) s)).
  set (C := drop (Z.to_nat b) s).
  assert (HA : length A = Z.to_nat a) by (unfold A; rewrite length_take; lia).
  assert (HM : length M = (Z.to_nat b - Z.to_nat a)%nat).
  { unfold M. rewrite length_take, length_drop. lia. }
  assert (Hs : A ++ M ++ C = s).
  { unfold A, M, C.
    replace (Z.to_nat (b - a)) with (Z.to_nat b - Z.to_nat a)%nat by lia.
    apply slice_decompose. lia. }
  assert (Hlen : length (A ++ rev M ++ C) = length s).
  { transitivity (length (A ++ M ++ C)); [|rewrite Hs; reflexivity].
    rewrite !length_app, length_rev. reflexivity. }
  exists (A ++ rev M ++ C). split; [reflexivity|]. split; [exact Hlen|]. split.
  - intros i. destruct (decide (Z.to_nat a <= i < Z.to_nat b)%nat) as [Hi|Hi].
    + rewrite lookup_app_r by lia. rewrite lookup_app_l by (rewrite length_rev; lia).
      rewrite rev_lookup by lia. rewrite <- Hs.
      rewrite lookup_app_r by lia. rewrite lookup_app_l by lia.
      f_equal. lia.
    + rewrite <- Hs. destruct (decide (i < Z.to_nat a)%nat).
      * rewrite !lookup_app_l by lia. reflexivity.
      * rewrite !(lookup_app_r A) by lia.
        rewrite !lookup_app_r by (rewrite ?length_rev; lia).
        rewrite length_rev. reflexivity.
  - assert (Hv' : _validate_slice start end_ (A ++ rev M ++ C)
                  = (A ++ rev M ++ C, Ok (a, b))).
    { eapply validate_slice_length; [exact Hlen|exact Hv]. }
    rewrite (reverse_spec _ _ _ _ _ Hv'). f_equal.
    rewrite <- HA at 1. rewrite take_app_length.
    rewrite <- HA at 1. rewrite drop_app_length.
    replace (Z.to_nat (b - a)) with (length (rev M)) by (rewrite length_rev; lia).
    rewrite take_app_length, rev_involutive.
    replace (Z.to_nat b) with (length A + length (rev M))%nat
      by (rewrite length_rev; lia).
    rewrite <- drop_drop, drop_app_length, drop_app_length. exact Hs.
Qed.

Lemma reverse_involutive_witness :
  exists s',
    reverse (Some 1) (Some (-1)) [true; true; false; false; true] = (s', Ok tt)
    /\ length s' = 5%nat
    /\ (forall i : nat,
          s' !! i = if decide (Z.to_nat 1 <= i < Z.to_nat 4)%nat
                    then [true; true; false; false; true]
                           !! (Z.to_nat 1 + Z.to_nat 4 - 1 - i)%nat
                    else [true; true; false; false; true] !! i)
    /\ reverse (Some 1) (Some (-1)) s' = ([true; true; false; false; true], Ok tt).
Proof.
  apply (reverse_involutive (Some 1) (Some (-1)) [true; true; false; false; true] 1 4).
  reflexivity.
Defined.

(** X23.  [overwrite] refuses a position before the start or beyond the end
    with [ValueError] and leaves the bits as they are; at a position from 0
    to the length it writes all of [bs]: the bits before the position stay,
    the bits of [bs] follow, the bits after them stay, and the container
    grows when [bs] reaches beyond its end, to the length
    [pos + len(bs)]. *)
Theorem overwrite_writes_and_grows (bs s : Bits) (pos : Z) :
  let n := Z.of_nat (length s) in
  (pos < 0 \/ n < pos -> overwrite bs pos s = (s, Raise ValueError))
  /\ (0 <= pos <= n ->
      exists s',
        overwrite bs pos s = (s', Ok tt)
        /\ Z.of_nat (length s') = Z.max n (pos + Z.of_nat (length bs))
        /\ (forall i : nat,
              s' !! i = if decide (i < Z.to_nat pos)%nat then s !! i
                        else if decide (i < Z.to_nat pos + length bs)%nat
                             then bs !! (i - Z.to_nat pos)%nat
                             else s !! i)).
Proof.
  intros n. split.
  - intros H. unfold overwrite, mbind, method_bind, len. fold n.
    destruct (Z.ltb_spec pos 0); destruct (Z.ltb_spec n pos); try reflexivity. lia.
  - intros H. unfold overwrite, mbind, method_bind, len. fold n.
    destruct (Z.ltb_spec pos 0); [lia|]. destruct (Z.ltb_spec n pos); [lia|].
    cbn [orb]. unfold _overwrite, mbind, method_bind, get_store, put_store.
    eexists. split; [reflexivity|]. unfold overwrite_bits.
    assert (Ht : length (take (Z.to_nat pos) s) = Z.to_nat pos)
      by (rewrite length_take; lia).
    split.
    + rewrite !length_app, Ht, length_drop. lia.
    + intros i. destruct (decide (i < Z.to_nat pos)%nat).
      * rewrite lookup_app_l by lia. apply lookup_take_lt. lia.
      * rewrite lookup_app_r by lia. rewrite Ht.
        destruct (decide (i < Z.to_nat pos + length bs)%nat).
        -- rewrite lookup_app_l by lia. reflexivity.
        -- rewrite lookup_app_r by lia. rewrite lookup_drop. f_equal. lia.
Qed.

Lemma overwrite_writes_and_grows_witness :
  exists s',
    overwrite [true; true; true] 2 [false; false; false; false] = (s', Ok tt)
    /\ Z.of_nat (length s') = Z.max 4 (2 + 3)
    /\ (forall i : nat,
          s' !! i = if decide (i < Z.to_nat 2)%nat
                    then [false; false; false; false] !! i
                    else if decide (i < Z.to_nat 2 + 3)%nat
                         then [true; true; true] !! (i - Z.to_nat 2)%nat
                         else [false; false; false; false] !! i).
Proof.
  apply (proj2 (overwrite_writes_and_grows [true; true; true]
                  [false; false; false; false] 2)).
  cbn. lia.
Defined.

End container_laws2.

Section positions.
Import BitArray.

(** The loop of [set] and of [invert] over positions that are all in
    range, for any write [w] that keeps the length. *)
Lemma positions_all (w : nat -> Bits -> Bits) (ps : list Z) (n : Z) (s : Bits) :
  (forall i t, length (w i t) = length t) ->
  Z.of_nat (length s) = n ->
  Forall (fun p => - n <= p < n) ps ->
  for_each ps (fun p =>
    n ← len;
    if (p <? - n) || (n <=? p) then raise IndexError
    else
      let p := if p <? 0 then p + n else p in
      (s ← get_store; put_store (w (Z.to_nat p) s))) s
  = (foldl (fun st p => w (resolve n p) st) s ps, Ok tt).
Proof.
  intros Hw Hn Hps. revert s Hn.
  induction Hps as [|p ps Hp _ IH]; intros s Hn; [reflexivity|].
  cbn [for_each foldl]. unfold mbind at 1, method_bind at 1.
  unfold mbind at 1, method_bind at 1, len at 1. rewrite Hn.
  rewrite (in_range_test n p Hp).
  unfold mbind at 1, method_bind at 1, get_store, put_store.
  apply IH. rewrite Hw. exact Hn.
Qed.

Lemma foldl_length (w : nat -> Bits -> Bits) (f : Z -> nat) (ps : list Z) (s : Bits) :
  (forall i t, length (w i t) = length t) ->
  length (foldl (fun st p => w (f p) st) s ps) = length s.
Proof.
  intros Hw. revert s. induction ps as [|p ps IH]; intros s; [reflexivity|].
  cbn. rewrite IH. apply Hw.
Qed.

Lemma foldl_insert_lookup (v : bool) (f : Z -> nat) (ps : list Z) (s : Bits) (i : nat) :
  foldl (fun st p => <[f p := v]> st) s ps !! i
  = (fun b => if bool_decide (i ∈ f <$> ps) then v else b) <$> s !! i.
Proof.
  revert s. induction ps as [|p ps IH]; intros s.
  - cbn. destruct (s !! i); reflexivity.
  - cbn [foldl]. rewrite IH. rewrite list_lookup_insert.
    destruct (decide (f p = i /\ (f p < length s)%nat)) as [[<- Hlt]|Hne].
    + destruct (lookup_lt_is_Some_2 s (f p) Hlt) as [b Hb]. rewrite Hb. cbn.
      rewrite (bool_decide_eq_true_2 (f p ∈ f p :: (f <$> ps))) by left.
      destruct (bool_decide _); reflexivity.
    + destruct (s !! i) as [b|] eqn:Hb; [|reflexivity]. cbn. f_equal.
      assert (Hi : f p <> i).
      { intros <-. apply Hne. split; [reflexivity|].
        eapply lookup_lt_Some. exact Hb. }
      destruct (bool_decide_reflect (i ∈ f <$> ps)) as [Hin|Hnin].
      * rewrite bool_decide_eq_true_2 by (right; exact Hin). reflexivity.
      * rewrite bool_decide_eq_false_2; [reflexivity|].
        intros Hin. apply elem_of_cons in Hin as [->|Hin]; contradiction.
Qed.

Lemma foldl_alter_lookup (f : Z -> nat) (ps : list Z) (s : Bits) (i : nat) :
  foldl (fun st p => alter negb (f p) st) s ps !! i
  = (fun b => if Nat.odd (count_occ Nat.eq_dec (f <$> ps) i) then negb b else b)
      <$> s !! i.
Proof.
  revert s. induction ps as [|p ps IH]; intros s.
  - cbn. destruct (s !! i); reflexivity.
  - cbn [foldl]. rewrite IH. rewrite list_lookup_alter. cbn [fmap list_fmap].
    destruct (decide (f p = i)) as [<-|Hne].
    + rewrite count_occ_cons_eq by reflexivity.
      rewrite Nat.odd_succ, <- Nat.negb_odd.
      destruct (s !! f p) as [b|]; [|reflexivity]. cbn. f_equal.
      destruct (Nat.odd _), b; reflexivity.
    + rewrite count_occ_cons_neq by exact Hne. reflexivity.
Qed.

(** X24.  [set] with positions that are all in range returns, keeps the
    length, gives every listed bit the value, counting a negative position
    from the end, and leaves every other bit as it is, in whatever order
    and however often the positions are listed; with no position it does
    what it does with all the positions from 0 to the length. *)
Theorem set_positions (s : Bits) (value : bool) (ps : list Z) :
  let n := Z.of_nat (length s) in
  Forall (fun p => - n <= p < n) ps ->
  (exists s',
     set value (PosIter ps) s = (s', Ok tt)
     /\ length s' = length s
     /\ forall i : nat,
          s' !! i
          = (fun b => if bool_decide (i ∈ resolve n <$> ps) then value else b)
              <$> s !! i)
  /\ set value PosNone s = set value (PosIter (range n)) s.
Proof.
  intros n Hps.
  assert (Hrun : forall qs, Forall (fun p => - n <= p < n) qs ->
            set value (PosIter qs) s
            = (foldl (fun st p => <[resolve n p := value]> st) s qs, Ok tt)).
  { intros qs Hqs. apply (positions_all (fun i t => <[i := value]> t)); auto.
    intros; apply length_insert. }
  split.
  - eexists. split; [apply Hrun; exact Hps|]. split.
    + apply (foldl_length (fun i t => <[i := value]> t)). intros; apply length_insert.
    + intros i. apply foldl_insert_lookup.
  - assert (Hall : Forall (fun p => - n <= p < n) (range n)).
    { apply Forall_forall. intros p Hp. unfold range in Hp.
      apply list_elem_of_fmap in Hp as (k & -> & Hk). apply elem_of_seq in Hk. lia. }
    rewrite (Hrun _ Hall).
    unfold set, setall, mbind, method_bind, get_store, put_store. f_equal.
    apply list_eq. intros i. rewrite foldl_insert_lookup.
    destruct (decide (i < length s)%nat) as [Hlt|Hge].
    + rewrite lookup_replicate_2 by exact Hlt.
      destruct (lookup_lt_is_Some_2 s i Hlt) as [b ->]. cbn. f_equal.
      rewrite bool_decide_eq_true_2; [reflexivity|].
      apply list_elem_of_fmap. exists (Z.of_nat i). split.
      * unfold resolve. destruct (Z.ltb_spec (Z.of_nat i) 0); lia.
      * unfold range. apply list_elem_of_fmap. exists i. split; [reflexivity|].
        apply elem_of_seq. lia.
    + rewrite (proj1 (lookup_replicate_None _ _ _)) by lia.
      rewrite lookup_ge_None_2 by lia. reflexivity.
Qed.

Lemma set_positions_witness :
  exists s',
    set true (PosIter [-1; 0; -1]) [false; false; false] = (s', Ok tt)
    /\ length s' = 3%nat
    /\ forall i : nat,
         s' !! i
         = (fun b => if bool_decide (i ∈ resolve 3 <$> [-1; 0; -1]) then true else b)
             <$> [false; false; false] !! i.
Proof.
  apply (proj1 (set_positions [false; false; false] true [-1; 0; -1]
                  ltac:(repeat constructor; cbn; lia))).
Defined.

(** X25.  [invert] with positions that are all in range returns, keeps the
    length and flips a bit once for each time its position is listed: a bit
    listed an odd number of times is flipped, every other bit is as it was.
    So a second [invert] with the same positions gives back the container
    bit for bit. *)
Theorem invert_positions (s : Bits) (ps : list Z) :
  let n := Z.of_nat (length s) in
  Forall (fun p => - n <= p < n) ps ->
  exists s',
    invert (PosIter ps) s = (s', Ok tt)
    /\ length s' = length s
    /\ (forall i : nat,
          s' !! i
          = (fun b => if Nat.odd (count_occ Nat.eq_dec (resolve n <$> ps) i)
                      then negb b else b) <$> s !! i)
    /\ invert (PosIter ps) s' = (s, Ok tt).
Proof.
  intros n Hps.
  assert (Hrun : forall t, length t = length s ->
            invert (PosIter ps) t
            = (foldl (fun st p => alter negb (resolve n p) st) t ps, Ok tt)).
  { intros t Ht. apply (positions_all (fun i t => alter negb i t)); auto.
    - intros; apply length_alter.
    - rewrite Ht. reflexivity. }
  assert (Hlen : forall t,
            length (foldl (fun st p => alter negb (resolve n p) st) t ps) = length t).
  { intros t. apply (foldl_length (fun i t => alter negb i t)).
    intros; apply length_alter. }
  eexists. split; [apply Hrun; reflexivity|]. split; [apply Hlen|]. split.
  - intros i. apply foldl_alter_lookup.
  - rewrite Hrun by apply Hlen. f_equal.
    apply list_eq. intros i. rewrite !foldl_alter_lookup.
    destruct (s !! i) as [b|]; [|reflexivity]. cbn. f_equal.
    destruct (Nat.odd _), b; reflexivity.
Qed.

Lemma invert_positions_witness :
  exists s',
    invert (PosIter [1; -2; 0]) [false; false; true] = (s', Ok tt)
    /\ length s' = 3%nat
    /\ (forall i : nat,
          s' !! i
          = (fun b => if Nat.odd (count_occ Nat.eq_dec (resolve 3 <$> [1; -2; 0]) i)
                      then negb b else b) <$> [false; false; true] !! i)
    /\ invert (PosIter [1; -2; 0]) s' = ([false; false; true], Ok tt).
Proof.
  apply (invert_positions [false; false; true] [1; -2; 0]).
  repeat constructor; cbn; lia.
Defined.

End positions.

Section rotations.
Import BitArray.

Lemma rot_full {A} (l : list A) :
  drop (length l) l ++ take (length l) l = drop 0 l ++ take 0 l.
Proof. rewrite drop_all, firstn_all, drop_0, take_0, app_nil_r. reflexivity. Qed.

(** A list turned by [k] places and then by [j] places is the list turned
    by [m] places, when [k + j] is [m] or [m] and the length. *)
Lemma rot_rot {A} (l : list A) (k j m : nat) :
  (k <= length l)%nat -> (j <= length l)%nat -> (m <= length l)%nat ->
  (k + j = m \/ k + j = m + length l)%nat ->
  drop j (drop k l ++ take k l) ++ take j (drop k l ++ take k l)
  = drop m l ++ take m l.
Proof.
  intros Hk Hj Hm [Hsum|Hsum].
  - assert (Hd : (j <= length (drop k l))%nat) by (rewrite length_drop; lia).
    rewrite drop_app_le by exact Hd. rewrite take_app_le by exact Hd.
    rewrite drop_drop, <- app_assoc, take_take_drop. subst m. reflexivity.
  - assert (Hd : (length (drop k l) <= j)%nat) by (rewrite length_drop; lia).
    rewrite drop_app_ge by exact Hd. rewrite take_app_ge by exact Hd.
    rewrite length_drop.
    replace (j - (length l - k))%nat with m by lia.
    rewrite take_take. replace (m `min` k)%nat with m by lia.
    rewrite app_assoc. f_equal.
    rewrite <- (take_drop k l) at 3.
    rewrite drop_app_le by (rewrite length_take; lia). reflexivity.
Qed.

Lemma rotate_again (left : bool) (bits : Z) (start end_ : option Z) (s : Bits)
    (a b : Z) (k : nat) :
  _validate_slice start end_ s = (s, Ok (a, b)) ->
  0 <= bits -> a < b ->
  let mid := take (Z.to_nat (b - a)) (drop (Z.to_nat a) s) in
  let turned := drop k mid ++ take k mid in
  let j := Z.to_nat (bits `mod` (b - a)) in
  let j' := if left then j else (length mid - j)%nat in
  (if left then rol else ror) bits start end_
    (take (Z.to_nat a) s ++ turned ++ drop (Z.to_nat b) s)
  = (take (Z.to_nat a) s ++ (drop j' turned ++ take j' turned)
       ++ drop (Z.to_nat b) s, Ok tt).
Proof.
  intros Hv Hbits Hab mid turned j j'.
  destruct (validate_slice_bounds _ _ _ _ _ Hv) as [H1 H2].
  assert (Hmid : length mid = Z.to_nat (b - a)).
  { unfold mid. rewrite length_take, length_drop. lia. }
  assert (Hturned : length turned = Z.to_nat (b - a)).
  { unfold turned. rewrite length_app, length_drop, length_take. lia. }
  set (A := take (Z.to_nat a) s).
  set (C := drop (Z.to_nat b) s).
  assert (HA : length A = Z.to_nat a) by (unfold A; rewrite length_take; lia).
  assert (Hlen : length (A ++ turned ++ C) = length s).
  { unfold C. rewrite !length_app, HA, Hturned, length_drop. lia. }
  assert (Hv' : _validate_slice start end_ (A ++ turned ++ C)
                = (A ++ turned ++ C, Ok (a, b))).
  { eapply validate_slice_length; [exact Hlen|exact Hv]. }
  rewrite (rotate_spec left bits _ _ _ _ _ Hv' Hbits Hab).
  assert (Hmid' : take (Z.to_nat (b - a)) (drop (Z.to_nat a) (A ++ turned ++ C))
                  = turned).
  { rewrite <- HA at 1. rewrite drop_app_length. rewrite <- Hturned.
    apply take_app_length. }
  rewrite Hmid'. fold j. rewrite Hturned, <- Hmid. fold j'.
  rewrite <- HA at 1. rewrite take_app_length.
  replace (Z.to_nat b) with (length A + length turned)%nat at 1 by lia.
  rewrite <- drop_drop, !drop_app_length. reflexivity.
Qed.

(** X26.  Rotations of the same range add up: on a valid range, [rol] by
    [x] and then [rol] by [y] leaves the container as [rol] by [x + y]
    does, and so for [ror]. *)
Theorem rotations_add (left : bool) (s : Bits) (x y : Z) (start end_ : option Z)
    (a b : Z) :
  _validate_slice start end_ s = (s, Ok (a, b)) ->
  0 <= x -> 0 <= y ->
  let rot := if left then rol else ror in
  exists s1 s2,
    rot x start end_ s = (s1, Ok tt)
    /\ rot y start end_ s1 = (s2, Ok tt)
    /\ rot (x + y) start end_ s = (s2, Ok tt).
Proof.
  intros Hv Hx Hy rot.
  destruct (validate_slice_bounds _ _ _ _ _ Hv) as [H1 H2].
  destruct (Z.eq_dec a b) as [Heq|Hne].
  - assert (Hnop : forall bits, 0 <= bits -> rot bits start end_ s = (s, Ok tt)).
    { intros bits Hbits. subst rot. destruct left; unfold rol, ror;
        (destruct (Z.ltb_spec bits 0); [lia|]);
        unfold mbind, method_bind; rewrite Hv;
        (destruct (Z.eqb_spec a b); [reflexivity|contradiction]). }
    exists s, s. rewrite !Hnop by lia. auto.
  - assert (Hab : a < b) by lia. subst rot.
    rewrite (rotate_spec left x _ _ _ _ _ Hv Hx Hab).
    rewrite (rotate_spec left (x + y) _ _ _ _ _ Hv ltac:(lia) Hab).
    set (mid := take (Z.to_nat (b - a)) (drop (Z.to_nat a) s)).
    assert (Hmid : length mid = Z.to_nat (b - a)).
    { unfold mid. rewrite length_take, length_drop. lia. }
    set (k := if left then Z.to_nat (x `mod` (b - a))
              else (length mid - Z.to_nat (x `mod` (b - a)))%nat).
    pose proof (rotate_again left y start end_ s a b k Hv Hy Hab) as Hsecond.
    cbv zeta in Hsecond. fold mid in Hsecond.
    do 2 eexists. split; [reflexivity|]. split; [exact Hsecond|].
    do 3 f_equal. symmetry.
    assert (Hxm : 0 <= x `mod` (b - a) < b - a) by (apply Z.mod_pos_bound; lia).
    assert (Hym : 0 <= y `mod` (b - a) < b - a) by (apply Z.mod_pos_bound; lia).
    assert (Hsm : 0 <= (x + y) `mod` (b - a) < b - a) by (apply Z.mod_pos_bound; lia).
    assert (Hadd : x `mod` (b - a) + y `mod` (b - a) = (x + y) `mod` (b - a)
                   \/ x `mod` (b - a) + y `mod` (b - a)
                      = (x + y) `mod` (b - a) + (b - a)).
    { rewrite (Z.add_mod x y) by lia.
      set (kx := x `mod` (b - a)) in *. set (ky := y `mod` (b - a)) in *.
      destruct (Z_lt_dec (kx + ky) (b - a)).
      - left. rewrite (Z.mod_small (kx + ky)) by lia. reflexivity.
      - right.
        rewrite <- (Z.mod_add (kx + ky) (-1)) by lia.
        rewrite (Z.mod_small (kx + ky + -1 * (b - a))) by lia. lia. }
    apply rot_rot; unfold k; destruct left; lia.
Qed.

Lemma rotations_add_witness :
  exists s1 s2,
    rol 2 (Some 1) None [true; false; false; true; true] = (s1, Ok tt)
    /\ rol 3 (Some 1) None s1 = (s2, Ok tt)
    /\ rol (2 + 3) (Some 1) None [true; false; false; true; true] = (s2, Ok tt).
Proof.
  apply (rotations_add true [true; false; false; true; true] 2 3 (Some 1) None 1 5).
  - reflexivity.
  - lia.
  - lia.
Defined.

(** X27.  On a valid range that is not empty a rotation to the right is a
    rotation to the left by what is missing to the length of the range:
    [ror] by [x] leaves the container as [rol] by
    [(b - a) - x mod (b - a)] does. *)
Theorem ror_is_rol_by_the_rest (s : Bits) (x : Z) (start end_ : option Z) (a b : Z) :
  _validate_slice start end_ s = (s, Ok (a, b)) ->
  0 <= x -> a < b ->
  ror x start end_ s = rol ((b - a) - x `mod` (b - a)) start end_ s.
Proof.
  intros Hv Hx Hab.
  destruct (validate_slice_bounds _ _ _ _ _ Hv) as [H1 H2].
  assert (Hxm : 0 <= x `mod` (b - a) < b - a) by (apply Z.mod_pos_bound; lia).
  rewrite (rotate_spec false x _ _ _ _ _ Hv Hx Hab).
  rewrite (rotate_spec true (b - a - x `mod` (b - a)) _ _ _ _ _ Hv ltac:(lia) Hab).
  set (mid := take (Z.to_nat (b - a)) (drop (Z.to_nat a) s)).
  assert (Hmid : length mid = Z.to_nat (b - a)).
  { unfold mid. rewrite length_take, length_drop. lia. }
  do 3 f_equal.
  destruct (Z.eq_dec (x `mod` (b - a)) 0) as [Hz|Hnz].
  - rewrite Hz, Z.sub_0_r, Z.mod_same by lia.
    change (Z.to_nat 0) with 0%nat. rewrite Nat.sub_0_r. apply rot_full.
  - rewrite (Z.mod_small (b - a - x `mod` (b - a))) by lia.
    replace (length mid - Z.to_nat (x `mod` (b - a)))%nat
      with (Z.to_nat (b - a - x `mod` (b - a))) by lia.
    reflexivity.
Qed.

Lemma ror_is_rol_by_the_rest_witness :
  ror 7 None (Some (-1)) [true; false; false; true; true]
  = rol ((4 - 0) - 7 `mod` (4 - 0)) None (Some (-1)) [true; false; false; true; true].
Proof.
  apply (ror_is_rol_by_the_rest [true; false; false; true; true] 7 None (Some (-1)) 0 4).
  - reflexivity.
  - lia.
  - lia.
Defined.

End rotations.

Section byteswap_strings.
Import PyStr BitArray.

Lemma py_int_raises (x : string) (e : exn) : py_int x = Raise e -> e = ValueError.
Proof.
  unfold py_int.
  match goal with |- match ?r with _ => _ end = _ -> _ => destruct r end;
    [discriminate|]. intros [= <-]. reflexivity.
Qed.

Lemma mapM_sizes_raise (l : list string) :
  Exists (fun x => exists e, py_int x = Raise e) l ->
  mapM (fun x => (fun n => n * 8) <$> py_int x) l = Raise ValueError.
Proof.
  induction l as [|a l IH]; intros H; [inversion H|].
  cbn. destruct (py_int a) as [n|e] eqn:Ha.
  - cbn. rewrite IH; [reflexivity|].
    inversion H as [? ? [e He]|]; subst; [congruence|assumption].
  - cbn. rewrite (py_int_raises a e Ha). reflexivity.
Qed.

Lemma mapM_sizes_digits (ds : list string) :
  Forall (fun d => is_digits d = true) ds ->
  mapM (fun x => (fun n => n * 8) <$> py_int x) ds
  = Ok ((fun d => decimal d * 8) <$> ds).
Proof.
  induction 1 as [|d ds Hd _ IH]; [reflexivity|].
  cbn. rewrite (py_int_digits d Hd). cbn. rewrite IH. reflexivity.
Qed.

Lemma split_join_digits (ds : list string) :
  Forall (fun d => is_digits d = true) ds ->
  filter (fun x => x <> EmptyString) (split "," (join "," ds)) = ds.
Proof.
  induction 1 as [|d ds Hd Hds IH]; [reflexivity|].
  assert (Hne : d <> EmptyString).
  { intros ->. discriminate Hd. }
  destruct (digits_facts d Hd) as (_ & Hcomma & _).
  destruct ds as [|d' ds].
  - cbn [join]. rewrite (split_no_sep _ _ Hcomma).
    rewrite filter_cons_True by exact Hne. reflexivity.
  - change (join "," (d :: d' :: ds)) with (d +:+ "," +:+ join "," (d' :: ds)).
    replace ("," +:+ join "," (d' :: ds)) with (String "," (join "," (d' :: ds)))
      by (rewrite append_cons, append_nil; reflexivity).
    rewrite split_app_sep, (split_no_sep _ _ Hcomma).
    cbn [app]. rewrite filter_cons_True by exact Hne. rewrite IH. reflexivity.
Qed.

(** X28.  A string pattern of [byteswap] is a list of numbers of bytes and
    nothing else.  Comma-separated decimal numbers are the pattern of these
    numbers times 8, in bits; and a string with an item that is not empty
    and not an integer, as every compact structure string is, raises
    [ValueError] on a valid range and leaves the bits as they are, whatever
    [_reversebytes] does. *)
Theorem byteswap_string_pattern (_reversebytes : Z -> Z -> method unit)
    (start end_ : option Z) (repeat : bool) (s : Bits) :
  (forall ds, Forall (fun d => is_digits d = true) ds ->
     byteswap _reversebytes (FmtStr (join "," ds)) start end_ repeat s
     = byteswap _reversebytes (FmtList ((fun d => decimal d * 8) <$> ds))
         start end_ repeat s)
  /\ (forall fmt a b,
        _validate_slice start end_ s = (s, Ok (a, b)) ->
        Exists (fun x => x <> EmptyString /\ exists e, py_int x = Raise e)
               (split "," fmt) ->
        byteswap _reversebytes (FmtStr fmt) start end_ repeat s
        = (s, Raise ValueError)).
Proof.
  split.
  - intros ds Hds. unfold byteswap.
    rewrite (split_join_digits ds Hds), (mapM_sizes_digits ds Hds). reflexivity.
  - intros fmt a b Hv Hbad. unfold byteswap, mbind at 1, method_bind at 1.
    rewrite Hv. rewrite mapM_sizes_raise; [reflexivity|].
    apply Exists_exists in Hbad as (x & Hx & Hne & Hraise).
    apply Exists_exists. exists x. split; [|exact Hraise].
    apply list_elem_of_filter. split; [exact Hne|exact Hx].
Qed.

Lemma byteswap_string_pattern_witness :
  byteswap _reversebytes (FmtStr ">H") None None true (bytes_to_bits [1; 2])
  = (bytes_to_bits [1; 2], Raise ValueError).
Proof.
  refine (proj2 (byteswap_string_pattern _reversebytes None None true
                   (bytes_to_bits [1; 2])) ">H" 0 16 _ _).
  - reflexivity.
  - left. split; [discriminate|]. eexists. reflexivity.
Defined.

End byteswap_strings.

(** ** Errors and the bits *)

Section atomicity.
Import BitArray.

Lemma validate_slice_store (start end_ : option Z) (s s' : Bits) (r : result (Z * Z)) :
  _validate_slice start end_ s = (s', r) -> s' = s.
Proof.
  unfold _validate_slice, mbind, method_bind, len, raise, mret, method_ret.
  destruct (_ || _); intros [= <- _]; reflexivity.
Qed.

Lemma replace_atomic (old new : Bits) (start end_ : option Z) (count : option Z)
    (bytealigned : bool) :
  atomic (replace old new start end_ count bytealigned).
Proof.
  intros s s' e. unfold replace.
  destruct (bool_decide (old = [])); [intros [= <- _]; reflexivity|].
  unfold mbind at 1, method_bind at 1.
  destruct (_validate_slice start end_ s) as [s1 [[a b]|e1]] eqn:Hv;
    pose proof (validate_slice_store _ _ _ _ _ Hv) as ->;
    [|intros [= <- _]; reflexivity].
  unfold mbind at 1, method_bind at 1.
  unfold findall, mbind at 1, method_bind at 1, get_store, mret, method_ret.
  rewrite overwrite_run. discriminate.
Qed.

Lemma overwrite_atomic (bs : Bits) (pos : Z) : atomic (overwrite bs pos).
Proof.
  intros s s' e. unfold overwrite, mbind, method_bind, len.
  destruct (_ || _); [intros [= <- _]; reflexivity|].
  unfold _overwrite, mbind, method_bind, get_store, put_store. discriminate.
Qed.

Lemma reverse_atomic (start end_ : option Z) : atomic (reverse start end_).
Proof.
  intros s s' e H.
  destruct (_validate_slice start end_ s) as [s1 [[a b]|e1]] eqn:Hv;
    pose proof (validate_slice_store _ _ _ _ _ Hv) as ->.
  - rewrite (reverse_spec _ _ _ _ _ Hv) in H. discriminate.
  - unfold reverse, mbind, method_bind in H. rewrite Hv in H.
    injection H as <- _. reflexivity.
Qed.

Lemma rotation_atomic (left : bool) (bits : Z) (start end_ : option Z) :
  atomic ((if left then rol else ror) bits start end_).
Proof.
  intros s s' e H.
  destruct (Z.ltb_spec bits 0) as [Hneg|Hpos].
  { destruct left; unfold rol, ror in H;
      (destruct (Z.ltb_spec bits 0); [|lia]); injection H as <- _; reflexivity. }
  destruct (_validate_slice start end_ s) as [s1 [[a b]|e1]] eqn:Hv;
    pose proof (validate_slice_store _ _ _ _ _ Hv) as ->.
  - destruct (validate_slice_bounds _ _ _ _ _ Hv) as [H1 H2].
    destruct (Z.eq_dec a b) as [Heq|Hne].
    + destruct left; unfold rol, ror, mbind, method_bind in H;
        (destruct (Z.ltb_spec bits 0); [lia|]); rewrite Hv in H;
        (destruct (Z.eqb_spec a b); [|contradiction]); discriminate H.
    + rewrite (rotate_spec left bits _ _ _ _ _ Hv Hpos ltac:(lia)) in H.
      discriminate H.
  - destruct left; unfold rol, ror, mbind, method_bind in H;
      (destruct (Z.ltb_spec bits 0); [lia|]); rewrite Hv in H;
      injection H as <- _; reflexivity.
Qed.

Lemma single_position_atomic (value : bool) (pos : Z) :
  atomic (set value (PosInt pos)) /\ atomic (invert (PosInt pos)).
Proof.
  split; intros s s' e; unfold set, invert, mbind, method_bind, len;
    (destruct (_ || _); [intros [= <- _]; reflexivity|]);
    unfold bitstore_set, _invert, mbind, method_bind, get_store, put_store;
    discriminate.
Qed.

Lemma for_each_returns {A} (body : A -> method unit) (xs : list A) (s : Bits) :
  (forall x t, exists t', body x t = (t', Ok tt)) ->
  exists s', for_each xs body s = (s', Ok tt).
Proof.
  intros Hbody. revert s. induction xs as [|x xs IH]; intros s; cbn.
  - eexists. reflexivity.
  - unfold mbind, method_bind. destruct (Hbody x s) as [t ->]. apply IH.
Qed.

Lemma swap_groups_returns (_reversebytes : Z -> Z -> method unit) (fmt : list Z)
    (start end_ i fmt_bits : Z) (s : Bits) :
  (forall a b t, exists t', _reversebytes a b t = (t', Ok tt)) ->
  exists s', swap_groups _reversebytes fmt start end_ i fmt_bits s = (s', Ok tt).
Proof.
  intros Hrb. revert s. induction fmt as [|size fmt IH]; intros s; cbn.
  - eexists. reflexivity.
  - destruct (end_ <? start + i * fmt_bits + size); [eexists; reflexivity|].
    unfold mbind, method_bind.
    destruct (Hrb (start + i * fmt_bits) (start + i * fmt_bits + size) s) as [t ->].
    apply IH.
Qed.

Lemma byteswap_atomic (_reversebytes : Z -> Z -> method unit) (fmt : fmt_arg)
    (start end_ : option Z) (repeat : bool) :
  (forall a b t, exists t', _reversebytes a b t = (t', Ok tt)) ->
  atomic (byteswap _reversebytes fmt start end_ repeat).
Proof.
  intros Hrb s s' e. unfold byteswap, mbind at 1, method_bind at 1.
  destruct (_validate_slice start end_ s) as [s1 [[a b]|e1]] eqn:Hv;
    pose proof (validate_slice_store _ _ _ _ _ Hv) as ->;
    [|intros [= <- _]; reflexivity].
  assert (Hloop : forall l : list Z,
    (if sum l =? 0 then mret 0
     else for_each (range (if repeat then (b - a) `div` sum l else 1))
            (fun i => swap_groups _reversebytes l a b i (sum l))
          ≫= fun _ => mret (if repeat then (b - a) `div` sum l else 1)) s
    = (s', Raise e) -> s' = s).
  { intros l. destruct (sum l =? 0); [discriminate|].
    unfold mbind, method_bind.
    destruct (for_each_returns
                (fun i => swap_groups _reversebytes l a b i (sum l))
                (range (if repeat then (b - a) `div` sum l else 1)) s) as [t ->].
    - intros x t. apply swap_groups_returns. exact Hrb.
    - discriminate. }
  destruct fmt as [|n|str|l].
  - exact (Hloop [b - a]).
  - destruct n as [|p|p];
      [exact (Hloop [b - a])|exact (Hloop [Z.pos p])|exact (Hloop [Z.neg p])].
  - unfold mbind at 1, method_bind at 1.
    destruct (mapM _ _) as [l|e1]; [exact (Hloop l)|intros [= <- _]; reflexivity].
  - exact (Hloop l).
Qed.

Lemma shifts_atomic (_ilshift _irshift : Z -> method unit) (n : Z) :
  (forall k, atomic (_ilshift k)) -> (forall k, atomic (_irshift k)) ->
  atomic (__ilshift__ _ilshift n) /\ atomic (__irshift__ _irshift n).
Proof.
  intros Hl Hr. split; intros s s' e;
    unfold __ilshift__, __irshift__, mbind, method_bind, len;
    (destruct (n <? 0); [intros [= <- _]; reflexivity|]);
    (destruct (_ =? 0); [intros [= <- _]; reflexivity|]);
    (destruct (n =? 0); [discriminate|]); [apply Hl|apply Hr].
Qed.

Lemma delegates_atomic (_insert : Bits -> Z -> method unit)
    (_imul : Z -> method unit) :
  (forall bs pos, atomic (_insert bs pos)) -> (forall n, atomic (_imul n)) ->
  (forall bs pos, atomic (insert _insert bs pos))
  /\ (forall n, atomic (__imul__ _imul n)).
Proof.
  intros Hi Hm. split.
  - intros bs pos s s' e. unfold insert, mbind, method_bind, len.
    destruct (_ || _); [intros [= <- _]; reflexivity|apply Hi].
  - intros n s s' e. unfold __imul__.
    destruct (n <? 0); [intros [= <- _]; reflexivity|apply Hm].
Qed.

(** C6, as the code has it.  The mutating operations are atomic with
    respect to errors, [set] and [invert] with an iterable of positions
    apart: when [replace], [overwrite], [reverse], [rol], [ror] or [clear]
    raises, and when [set] or [invert] with one position or with none
    raises, the bits are as they were; so they are after [byteswap], when
    [_reversebytes] does not raise, and after a shift in place, [insert]
    and [*=], when the method of [Bits] that they call is atomic.  [set] and [invert] with an iterable of
    positions work through the positions in order: at the first position
    out of range they raise [IndexError], and by then the positions before
    it have been set, or flipped, and stay so. *)
Theorem mutators_atomic_but_position_loops :
  (forall old new start end_ count bytealigned,
     atomic (replace old new start end_ count bytealigned))
  /\ (forall bs pos, atomic (overwrite bs pos))
  /\ (forall start end_, atomic (reverse start end_))
  /\ (forall bits start end_,
        atomic (rol bits start end_) /\ atomic (ror bits start end_))
  /\ atomic clear
  /\ (forall value,
        atomic (set value PosNone)
        /\ forall pos, atomic (set value (PosInt pos)))
  /\ (atomic (invert PosNone) /\ forall pos, atomic (invert (PosInt pos)))
  /\ (forall (_reversebytes : Z -> Z -> method unit) fmt start end_ repeat,
        (forall a b t, exists t', _reversebytes a b t = (t', Ok tt)) ->
        atomic (byteswap _reversebytes fmt start end_ repeat))
  /\ (forall (_ilshift _irshift : Z -> method unit) n,
        (forall k, atomic (_ilshift k)) -> (forall k, atomic (_irshift k)) ->
        atomic (__ilshift__ _ilshift n) /\ atomic (__irshift__ _irshift n))
  /\ (forall (_insert : Bits -> Z -> method unit) (_imul : Z -> method unit),
        (forall bs pos, atomic (_insert bs pos)) -> (forall n, atomic (_imul n)) ->
        (forall bs pos, atomic (insert _insert bs pos))
        /\ (forall n, atomic (__imul__ _imul n)))
  /\ (forall (s : Bits) (value : bool) (good : list Z) (bad : Z) (rest : list Z),
        let n := Z.of_nat (length s) in
        Forall (fun p => - n <= p < n) good ->
        ~ (- n <= bad < n) ->
        set value (PosIter (good ++ bad :: rest)) s
        = (foldl (fun st p => <[resolve n p := value]> st) s good, Raise IndexError)
        /\ invert (PosIter (good ++ bad :: rest)) s
           = (foldl (fun st p => alter negb (resolve n p) st) s good,
              Raise IndexError)
        /\ set value (PosInt bad) s = (s, Raise IndexError)
        /\ invert (PosInt bad) s = (s, Raise IndexError)).
Proof.
  split; [exact replace_atomic|]. split; [exact overwrite_atomic|].
  split; [exact reverse_atomic|].
  split; [intros bits start end_; split;
          [exact (rotation_atomic true bits start end_)
          |exact (rotation_atomic false bits start end_)]|].
  split; [intros s s' e H; assert (Hc : clear s = (s, Raise NameError)) by reflexivity;
          congruence|].
  split; [intros value; split;
          [intros s s' e; unfold set, setall, mbind, method_bind, get_store, put_store;
           discriminate
          |intros pos; apply single_position_atomic]|].
  split; [split;
          [intros s s' e; unfold invert, _invert_all, mbind, method_bind, get_store,
             put_store; discriminate
          |intros pos; apply (single_position_atomic true)]|].
  split; [exact byteswap_atomic|]. split; [exact shifts_atomic|].
  split; [exact delegates_atomic|].
  exact position_loops_raise.
Qed.

Lemma mutators_atomic_but_position_loops_witness :
  set true (PosIter ([0; -1] ++ 8 :: [3])) (replicate 8 false)
  = ([true; false; false; false; false; false; false; true], Raise IndexError).
Proof.
  refine (proj1 (proj2 (proj2 (proj2 (proj2 (proj2 (proj2 (proj2 (proj2 (proj2 (proj2
            mutators_atomic_but_position_loops)))))))))
            (replicate 8 false) true [0; -1] 8 [3] _ _)).
  - repeat constructor; cbn; lia.
  - cbn; lia.
Defined.

End atomicity.
